(** * myneta_scraper: the candidate-page extraction engine

    A shallow embedding of [clean] and [parse_candidate] of [main.py], and
    after them of the retrieval, the listing pages and the orchestrators.

    - A Python [str] is a list of Unicode code points ([list N]).
    - The calls into [re], [json] and BeautifulSoup are modelled by their
      documented behaviour on the values this program passes to them: a
      backtracking matcher over the syntax of the patterns, the serializer
      [json.dumps(..., ensure_ascii=False)], a reader for the JSON texts it
      emits, and a tree of tags and strings traversed in document order,
      every string with its class: a comment, and the text of a script or a
      style sheet, are strings that [get_text] leaves out of the text of
      the tags around them, and that [find_previous(string=True)] finds.
    - The retrieval ([safe_get]) and the HTML parser are parameters of
      [parse_candidate]; the progress line it prints is left out.
    - Operations of the program's own code that can raise (an index, a
      dictionary read, a group of a match, [int] with its limit on the
      number of digits) return in the [result] monad. *)

From Stdlib Require Import List NArith ZArith Bool String Ascii Lia.
From Stdlib Require Import Numbers.DecimalString Numbers.DecimalPos.
Import ListNotations.

Set Implicit Arguments.
Set Warnings "-register-all".

Abbreviation length := List.length (only parsing).

Open Scope string_scope.
Open Scope list_scope.

(** ** Python strings *)

Definition str := list N.

(** An ASCII literal of the source as a [str]. *)
Definition u (s : string) : str := map N_of_ascii (list_ascii_of_string s).

Definition eqb_str (a b : str) : bool :=
  if list_eq_dec N.eq_dec a b then true else false.

(** Truth value of a string: [if s], [not s], [any(cells)]. *)
Definition truthy (s : str) : bool :=
  match s with [] => false | _ :: _ => true end.

(** [str.isspace] on one code point; [str.strip()] and the pattern [\s] use
    the same set. *)
Definition isspace (c : N) : bool :=
  (((9 <=? c) && (c <=? 13)) || ((28 <=? c) && (c <=? 32)) ||
   (c =? 133) || (c =? 160) || (c =? 5760) ||
   ((8192 <=? c) && (c <=? 8202)) ||
   (c =? 8232) || (c =? 8233) || (c =? 8239) || (c =? 8287) ||
   (c =? 12288))%N.

(** The code points of Unicode category Nd (Unicode 14, as shipped with
    CPython 3.11), as blocks [(lo, hi)]; the digit at [c] has value
    [(c - lo) mod 10]. *)
Definition digit_blocks : list (N * N) :=
  [(48, 57); (1632, 1641); (1776, 1785); (1984, 1993); (2406, 2415);
   (2534, 2543); (2662, 2671); (2790, 2799); (2918, 2927); (3046, 3055);
   (3174, 3183); (3302, 3311); (3430, 3439); (3558, 3567); (3664, 3673);
   (3792, 3801); (3872, 3881); (4160, 4169); (4240, 4249); (6112, 6121);
   (6160, 6169); (6470, 6479); (6608, 6617); (6784, 6793); (6800, 6809);
   (6992, 7001); (7088, 7097); (7232, 7241); (7248, 7257); (42528, 42537);
   (43216, 43225); (43264, 43273); (43472, 43481); (43504, 43513);
   (43600, 43609); (44016, 44025); (65296, 65305); (66720, 66729);
   (68912, 68921); (69734, 69743); (69872, 69881); (69942, 69951);
   (70096, 70105); (70384, 70393); (70736, 70745); (70864, 70873);
   (71248, 71257); (71360, 71369); (71472, 71481); (71904, 71913);
   (72016, 72025); (72784, 72793); (73040, 73049); (73120, 73129);
   (92768, 92777); (92864, 92873); (93008, 93017); (120782, 120831);
   (123200, 123209); (123632, 123641); (125264, 125273);
   (130032, 130041)]%N.

Definition in_range (lo hi c : N) : bool := (lo <=? c)%N && (c <=? hi)%N.

Definition isdigit (c : N) : bool :=
  existsb (fun b => in_range (fst b) (snd b) c) digit_blocks.

Definition digit_value (c : N) : N :=
  match find (fun b => in_range (fst b) (snd b) c) digit_blocks with
  | Some b => ((c - fst b) mod 10)%N
  | None => 0%N
  end.

(** [int(s)] for a string of decimal digits. *)
Definition int_of_digits (s : str) : N :=
  fold_left (fun acc c => (10 * acc + digit_value c)%N) s 0%N.

(** [str(n)] for an integer. *)
Definition str_of_Z (z : Z) : str := u (NilEmpty.string_of_int (Z.to_int z)).
Definition str_of_nat (n : nat) : str := str_of_Z (Z.of_nat n).

Fixpoint lstrip_by (p : N -> bool) (s : str) : str :=
  match s with
  | c :: s' => if p c then lstrip_by p s' else s
  | [] => []
  end.

Definition rstrip_by (p : N -> bool) (s : str) : str :=
  rev (lstrip_by p (rev s)).

(** [s.strip()] *)
Definition strip (s : str) : str := rstrip_by isspace (lstrip_by isspace s).

Definition one_of (chars : str) (c : N) : bool := existsb (N.eqb c) chars.

(** [s.strip(chars)] and [s.rstrip(chars)] *)
Definition strip_chars (chars s : str) : str :=
  rstrip_by (one_of chars) (lstrip_by (one_of chars) s).
Definition rstrip_chars (chars s : str) : str := rstrip_by (one_of chars) s.

(** [s.startswith(p)] *)
Fixpoint startswith (p s : str) : bool :=
  match p, s with
  | [], _ => true
  | a :: p', b :: s' => (a =? b)%N && startswith p' s'
  | _ :: _, [] => false
  end.

(** [needle in hay] *)
Fixpoint contains (needle hay : str) : bool :=
  startswith needle hay ||
  match hay with
  | [] => false
  | _ :: hay' => contains needle hay'
  end.

(** [s.replace(old, new, 1)] *)
Fixpoint replace1 (old new s : str) : str :=
  if startswith old s then new ++ skipn (length old) s
  else match s with
       | [] => []
       | c :: s' => c :: replace1 old new s'
       end.

(** [s.split(sep)] for a one-character separator *)
Fixpoint split_on (sep : N) (s : str) : list str :=
  match s with
  | [] => [[]]
  | c :: s' =>
      if (c =? sep)%N then [] :: split_on sep s'
      else match split_on sep s' with
           | h :: t => (c :: h) :: t
           | [] => [[c]]
           end
  end.

(** [sep.join(parts)] *)
Fixpoint join (sep : str) (parts : list str) : str :=
  match parts with
  | [] => []
  | [p] => p
  | p :: rest => p ++ sep ++ join sep rest
  end.

(** [s.lower()].  Exact on the code points whose lower-case form contains an
    ASCII character: the ASCII capitals, U+0130 and U+212A.  Every other code
    point lower-cases to a non-empty string of non-ASCII code points and is
    kept as it is; the program only searches the result for ASCII words
    ([in]), which gives the same answer. *)
Definition lower_char (c : N) : str :=
  (if in_range 65 90 c then [c + 32]
   else if c =? 304 then [105; 775]
   else if c =? 8490 then [107]
   else [c])%N.

Definition lower (s : str) : str := flat_map lower_char s.

(** ** Regular expressions ([re]) *)

Module Re.

(** An item of a character set; a literal character is a one-item set. *)
Inductive set_item :=
| SChar (c : N)
| SRange (lo hi : N)
| SDigit                      (* \d *)
| SSpace.                     (* \s *)

Definition cclass := list set_item.

Inductive regex :=
| Eps
| Chr (cs : cclass)           (* one character of the set *)
| Star (cs : cclass)          (* x*, greedy *)
| Plus (cs : cclass)          (* x+, greedy *)
| Seq (r1 r2 : regex)
| Alt (r1 r2 : regex)         (* r1|r2, left first *)
| Opt (r : regex)             (* (?:r)?, greedy *)
| Group (r : regex)           (* (r), the pattern's capturing group *)
| Bol                         (* ^ *)
| Eol.                        (* $ *)

(** A literal word of a pattern. *)
Definition lit (w : string) : regex :=
  fold_right (fun a r => Seq (Chr [SChar (N_of_ascii a)]) r) Eps
             (list_ascii_of_string w).

(** The class of a code point under [re.IGNORECASE], for the classes of
    the ASCII letters (the only cased characters in the program's
    patterns): the two cases of a letter, and with them U+0130 and U+0131
    for [i], U+017F for [s], U+212A for [k]. *)
Definition fold_case (c : N) : N :=
  (if in_range 65 90 c then c + 32
   else if (c =? 304) || (c =? 305) then 105
   else if c =? 383 then 115
   else if c =? 8490 then 107
   else c)%N.

Definition item_match (ic : bool) (ch : N) (it : set_item) : bool :=
  match it with
  | SChar x => if ic then (fold_case ch =? fold_case x)%N else (ch =? x)%N
  | SRange lo hi =>
      in_range lo hi ch ||
      (ic && (in_range lo hi (fold_case ch) ||
              (in_range 97 122 (fold_case ch) &&
               in_range lo hi (fold_case ch - 32)%N)))
  | SDigit => isdigit ch
  | SSpace => isspace ch
  end.

Definition char_in (ic : bool) (cs : cclass) (ch : N) : bool :=
  existsb (item_match ic ch) cs.

Section Matcher.
Variable ic : bool.           (* re.IGNORECASE *)
Variable n : nat.             (* length of the subject *)
Variable A : Type.

(** [cs*] from [s], longest first, then [k] on what is left. *)
Fixpoint star (cs : cclass) (s : str) (k : str -> option A) : option A :=
  match s with
  | c :: s' =>
      if char_in ic cs c
      then match star cs s' k with
           | Some x => Some x
           | None => k s
           end
      else k s
  | [] => k []
  end.

(** Backtracking matcher: [r] from [s], then [k] on the rest and the
    text captured by the group so far. *)
Fixpoint m (r : regex) (s : str) (cap : option str)
         (k : str -> option str -> option A) : option A :=
  match r with
  | Eps => k s cap
  | Chr cs =>
      match s with
      | c :: s' => if char_in ic cs c then k s' cap else None
      | [] => None
      end
  | Star cs => star cs s (fun s' => k s' cap)
  | Plus cs =>
      match s with
      | c :: s' =>
          if char_in ic cs c then star cs s' (fun s'' => k s'' cap)
          else None
      | [] => None
      end
  | Seq r1 r2 => m r1 s cap (fun s' cap' => m r2 s' cap' k)
  | Alt r1 r2 =>
      match m r1 s cap k with
      | Some x => Some x
      | None => m r2 s cap k
      end
  | Opt r1 =>
      match m r1 s cap k with
      | Some x => Some x
      | None => k s cap
      end
  | Group r1 =>
      m r1 s cap
        (fun s' _ => k s' (Some (firstn (length s - length s') s)))
  | Bol => if (length s =? n)%nat then k s cap else None
  | Eol =>
      match s with
      | [] => k s cap
      | [10%N] => k s cap
      | _ => None
      end
  end.
End Matcher.

(** A match starting at the head of [s]: its length and its group. *)
Definition match_at (ic : bool) (n : nat) (r : regex) (s : str)
  : option (nat * option str) :=
  m ic n r s None (fun s' cap => Some (length s - length s', cap)).

(** [re.match(r, s)] *)
Definition re_match (ic : bool) (r : regex) (s : str) :=
  match_at ic (length s) r s.

Fixpoint search_from (ic : bool) (n : nat) (r : regex) (s : str)
  : option (nat * option str) :=
  match match_at ic n r s with
  | Some x => Some x
  | None =>
      match s with
      | [] => None
      | _ :: s' => search_from ic n r s'
      end
  end.

(** [re.search(r, s)]: the leftmost match. *)
Definition re_search (ic : bool) (r : regex) (s : str) :=
  search_from ic (length s) r s.

(** The subject cut into its non-overlapping matches, left to right, and
    the characters between them.  [skip] counts the characters of the
    current match still to pass.  (No pattern the program scans with can
    match the empty string.) *)
Inductive piece :=
| PChar (c : N)
| PMatch (whole : str) (cap : option str).

Fixpoint scan (ic : bool) (n : nat) (r : regex) (s : str) (skip : nat)
         {struct s} : list piece :=
  match skip with
  | S k =>
      match s with
      | [] => []
      | _ :: s' => scan ic n r s' k
      end
  | O =>
      match match_at ic n r s with
      | Some (len, cap) =>
          PMatch (firstn len s) cap ::
          match s with
          | [] => []
          | c :: s' =>
              (if (len =? 0)%nat then [PChar c] else []) ++
              scan ic n r s' (len - 1)
          end
      | None =>
          match s with
          | [] => []
          | c :: s' => PChar c :: scan ic n r s' O
          end
      end
  end.

Definition pieces (ic : bool) (r : regex) (s : str) : list piece :=
  scan ic (length s) r s O.

(** The pieces put together again, [repl] standing for every match. *)
Definition render (repl : str) (ps : list piece) : str :=
  flat_map (fun p => match p with
                     | PChar c => [c]
                     | PMatch _ _ => repl
                     end) ps.

(** [re.sub(r, repl, s)] for a replacement without group references *)
Definition re_sub (ic : bool) (r : regex) (repl s : str) : str :=
  render repl (pieces ic r s).

(** [re.findall(r, s)] for a pattern with one group *)
Definition re_findall (ic : bool) (r : regex) (s : str) : list str :=
  flat_map (fun p => match p with
                     | PChar _ => []
                     | PMatch _ (Some g) => [g]
                     | PMatch _ None => [[]]
                     end) (pieces ic r s).

Fixpoint split_pieces (ps : list piece) : list str :=
  match ps with
  | [] => [[]]
  | PChar c :: ps' =>
      match split_pieces ps' with
      | h :: t => (c :: h) :: t
      | [] => [[c]]
      end
  | PMatch _ _ :: ps' => [] :: split_pieces ps'
  end.

(** [re.split(r, s)] for a pattern without groups *)
Definition re_split (ic : bool) (r : regex) (s : str) : list str :=
  split_pieces (pieces ic r s).

Definition matches {X : Type} (o : option X) : bool :=
  match o with Some _ => true | None => false end.

End Re.

Import Re.

Declare Scope re_scope.
Delimit Scope re_scope with re.
Bind Scope re_scope with regex.
Infix "@@" := Seq (at level 60, right associativity) : re_scope.
Infix "|+|" := Alt (at level 65, right associativity) : re_scope.

Definition ws : cclass := [SSpace].
Definition dot : regex := Chr [SChar 46%N].

(** ** HELPER: clean text *)

(** The pattern [\s+] of [clean]. *)
Definition re_ws_plus : regex := Plus ws.

(** [clean] where the argument may be [None]. *)
Definition clean_opt (text : option str) : str :=
  match text with
  | None => []
  | Some t =>
      if negb (truthy t) then []
      else re_sub false re_ws_plus (u " ") (strip t)
  end.

Definition clean (text : str) : str := clean_opt (Some text).


(** ** The patterns of [parse_candidate] *)

Local Open Scope re_scope.

(** Line 303: [(case\s*no|f\.?i\.?r\.?|crime\s*no)] *)
Definition re_case_header : regex :=
  Group (lit "case" @@ Star ws @@ lit "no"
         |+| lit "f" @@ Opt dot @@ lit "i" @@ Opt dot @@ lit "r" @@ Opt dot
         |+| lit "crime" @@ Star ws @@ lit "no").

(** Lines 310-311: a non-capturing group of three alternatives,
    [IPC\s*(?:Section|Sec\.?|Sections)?\s*] or [u/s\s*] or [Section\s*],
    followed by the capturing group [([\dA-Za-z/,\-\s]+)]. *)
Definition re_ipc : regex :=
  (lit "IPC" @@ Star ws
     @@ Opt (lit "Section" |+| lit "Sec" @@ Opt dot |+| lit "Sections")
     @@ Star ws
   |+| lit "u/s" @@ Star ws
   |+| lit "Section" @@ Star ws)
  @@ Group (Plus [SDigit; SRange 65 90; SRange 97 122;
                  SChar 47; SChar 44; SChar 45; SSpace]).

(** Line 317: [[,\s/]+] *)
Definition re_section_sep : regex := Plus [SChar 44; SSpace; SChar 47].

(** Line 322: [^\d+[\s|]+$] *)
Definition re_number_line : regex :=
  Bol @@ Plus [SDigit] @@ Plus [SSpace; SChar 124] @@ Eol.

(** Line 330: [(\d+)\s+conviction] *)
Definition re_conviction : regex :=
  Group (Plus [SDigit]) @@ Plus ws @@ lit "conviction".

(** Line 359: [^(Sr|Description|self|spouse|huf|dependent|Total)] *)
Definition re_header_cell : regex :=
  Bol @@ Group (lit "Sr" |+| lit "Description" |+| lit "self" |+| lit "spouse"
                |+| lit "huf" |+| lit "dependent" |+| lit "Total").

(** Line 370: [^(Sr\s*No|Total|Grand)] *)
Definition re_total_desc : regex :=
  Bol @@ Group (lit "Sr" @@ Star ws @@ lit "No" |+| lit "Total" |+| lit "Grand").

(** Line 374: [Grand\s*Total] *)
Definition re_grand_total : regex := lit "Grand" @@ Star ws @@ lit "Total".

(** Line 406: [(Grand\s*Total|Total\s+Liabilit)] *)
Definition re_liab_total : regex :=
  Group (lit "Grand" @@ Star ws @@ lit "Total"
         |+| lit "Total" @@ Plus ws @@ lit "Liabilit").

Local Close Scope re_scope.

(** ** Exceptions *)

Inductive exn :=
| IndexError | KeyError | TypeError | ValueError | OverflowError
| SystemExit.                   (* argparse's exit, status 2 *)

Inductive result (A : Type) :=
| Ok (a : A)
| Raise (e : exn).

Arguments Ok {A} a.
Arguments Raise {A} e.

Definition bind {A B : Type} (c : result A) (k : A -> result B) : result B :=
  match c with
  | Ok a => k a
  | Raise e => Raise e
  end.

Notation "x <- c ;; k" := (bind c (fun x => k))
  (at level 61, c at next level, right associativity).

(** [l[-1]] *)
Definition last_item {A : Type} (l : list A) : result A :=
  match rev l with
  | x :: _ => Ok x
  | [] => Raise IndexError
  end.

(** [sys.int_info.default_max_str_digits]: the number of digits beyond
    which CPython (3.11, and the security releases of the versions before it)
    refuses to convert between [str] and [int].  The program leaves the
    limit at its default. *)
Definition max_str_digits : nat := 4300.

(** [int(s)] for a string of decimal digits, the only strings the program
    converts (each is the group [(\d+)] of a match): the digits read in base
    ten, and [ValueError] when there are more than [max_str_digits] of them,
    leading zeros counted. *)
Definition int_of_str (s : str) : result N :=
  if truthy s && forallb isdigit s then
    if (length s <=? max_str_digits)%nat then Ok (int_of_digits s)
    else Raise ValueError
  else Raise ValueError.

(** ** Python dictionaries: insertion-ordered, one entry per key *)

Section Dict.
Variables K V : Type.
Variable eqb : K -> K -> bool.

Definition dict := list (K * V).

(** [d[k] = v] *)
Fixpoint dict_set (k : K) (v : V) (d : dict) : dict :=
  match d with
  | [] => [(k, v)]
  | (k', v') :: d' =>
      if eqb k k' then (k', v) :: d' else (k', v') :: dict_set k v d'
  end.

(** [d.get(k)] *)
Fixpoint dict_get (k : K) (d : dict) : option V :=
  match d with
  | [] => None
  | (k', v') :: d' => if eqb k k' then Some v' else dict_get k d'
  end.

(** [d[k]] *)
Definition dict_item (k : K) (d : dict) : result V :=
  match dict_get k d with
  | Some v => Ok v
  | None => Raise KeyError
  end.

(** [dict(pairs)] *)
Definition dict_of_pairs (l : list (K * V)) : dict :=
  fold_left (fun d kv => dict_set (fst kv) (snd kv) d) l [].

Definition keys (d : dict) : list K := map fst d.
End Dict.

(** ** JSON ([json.dumps(..., ensure_ascii=False)] and [json.loads]) *)

Module Json.

Inductive json :=
| JStr (s : str)
| JArr (items : list json)
| JObj (members : list (str * json)).

Definition hex_digit (d : N) : N := (if d <? 10 then 48 + d else 87 + d)%N.

(** Escapes of the encoder: the quote, the backslash, and the C0 control
    characters. *)
Definition escape_char (c : N) : str :=
  (if c =? 34 then [92; 34]
   else if c =? 92 then [92; 92]
   else if c =? 10 then [92; 110]
   else if c =? 13 then [92; 114]
   else if c =? 9 then [92; 116]
   else if c =? 8 then [92; 98]
   else if c =? 12 then [92; 102]
   else if c <? 32 then [92; 117; 48; 48; hex_digit (c / 16); hex_digit (c mod 16)]
   else [c])%N.

Definition dumps_str (s : str) : str :=
  [34%N] ++ flat_map escape_char s ++ [34%N].

Fixpoint dumps (v : json) : str :=
  match v with
  | JStr s => dumps_str s
  | JArr items => u "[" ++ join (u ", ") (map dumps items) ++ u "]"
  | JObj members =>
      u "{" ++
      join (u ", ")
           (map (fun kv => dumps_str (fst kv) ++ u ": " ++ dumps (snd kv))
                members) ++
      u "}"
  end.

(** *** Reading *)

Definition is_json_ws (c : N) : bool :=
  ((c =? 32) || (c =? 9) || (c =? 10) || (c =? 13))%N.

Definition skip_ws (s : str) : str := lstrip_by is_json_ws s.

Definition hexval (c : N) : option N :=
  (if in_range 48 57 c then Some (c - 48)
   else if in_range 97 102 c then Some (c - 87)
   else if in_range 65 70 c then Some (c - 55)
   else None)%N.

Definition unescape (e : N) : option N :=
  (if e =? 34 then Some 34
   else if e =? 92 then Some 92
   else if e =? 47 then Some 47
   else if e =? 98 then Some 8
   else if e =? 102 then Some 12
   else if e =? 110 then Some 10
   else if e =? 114 then Some 13
   else if e =? 116 then Some 9
   else None)%N.

Definition cons_char (c : N) (r : option (str * str)) : option (str * str) :=
  match r with
  | Some (x, rest) => Some (c :: x, rest)
  | None => None
  end.

(** The body of a string literal, after its opening quote: the decoded
    text and what follows the closing quote.  Raw control characters are
    refused. *)
Fixpoint scan_string (s : str) : option (str * str) :=
  match s with
  | [] => None
  | c :: s1 =>
      if (c =? 34)%N then Some ([], s1)
      else if (c =? 92)%N then
        match s1 with
        | [] => None
        | e :: s2 =>
            if (e =? 117)%N then
              match s2 with
              | h1 :: h2 :: h3 :: h4 :: s3 =>
                  match hexval h1, hexval h2, hexval h3, hexval h4 with
                  | Some a, Some b, Some c', Some d =>
                      cons_char (((a * 16 + b) * 16 + c') * 16 + d)%N
                                (scan_string s3)
                  | _, _, _, _ => None
                  end
              | _ => None
              end
            else
              match unescape e with
              | Some x => cons_char x (scan_string s2)
              | None => None
              end
        end
      else if (c <? 32)%N then None
      else cons_char c (scan_string s1)
  end.

Fixpoint parse_value (fuel : nat) (s : str) : option (json * str) :=
  match fuel with
  | O => None
  | S f =>
      match skip_ws s with
      | c :: s1 =>
          if (c =? 34)%N then
            match scan_string s1 with
            | Some (x, s2) => Some (JStr x, s2)
            | None => None
            end
          else if (c =? 91)%N then
            match skip_ws s1 with
            | 93%N :: s2 => Some (JArr [], s2)
            | _ =>
                match parse_items f s1 with
                | Some (vs, s2) => Some (JArr vs, s2)
                | None => None
                end
            end
          else if (c =? 123)%N then
            match skip_ws s1 with
            | 125%N :: s2 => Some (JObj [], s2)
            | _ =>
                match parse_members f s1 with
                | Some (ms, s2) => Some (JObj (dict_of_pairs eqb_str ms), s2)
                | None => None
                end
            end
          else None
      | [] => None
      end
  end

with parse_items (fuel : nat) (s : str) : option (list json * str) :=
  match fuel with
  | O => None
  | S f =>
      match parse_value f s with
      | Some (v, s1) =>
          match skip_ws s1 with
          | c :: s2 =>
              if (c =? 44)%N then
                match parse_items f s2 with
                | Some (vs, s3) => Some (v :: vs, s3)
                | None => None
                end
              else if (c =? 93)%N then Some ([v], s2)
              else None
          | [] => None
          end
      | None => None
      end
  end

with parse_members (fuel : nat) (s : str) : option (list (str * json) * str) :=
  match fuel with
  | O => None
  | S f =>
      match skip_ws s with
      | 34%N :: s1 =>
          match scan_string s1 with
          | Some (key, s2) =>
              match skip_ws s2 with
              | 58%N :: s3 =>
                  match parse_value f s3 with
                  | Some (v, s4) =>
                      match skip_ws s4 with
                      | c :: s5 =>
                          if (c =? 44)%N then
                            match parse_members f s5 with
                            | Some (ms, s6) => Some ((key, v) :: ms, s6)
                            | None => None
                            end
                          else if (c =? 125)%N then Some ([(key, v)], s5)
                          else None
                      | [] => None
                      end
                  | None => None
                  end
              | _ => None
              end
          | None => None
          end
      | _ => None
      end
  end.

(** [json.loads(s)]: one value, then only white space.  The fuel is the
    length of the text, which bounds the nesting and the number of values. *)
Definition loads (s : str) : option json :=
  match parse_value (S (length s)) s with
  | Some (v, rest) =>
      match skip_ws rest with
      | [] => Some v
      | _ :: _ => None
      end
  | None => None
  end.

End Json.

Import Json.


(** ** The parsed document (BeautifulSoup) *)

Module Soup.

(** The classes of strings the parser makes besides the plain
    [NavigableString] (Beautiful Soup 4.11 and later): the text of a
    [style], [script], [template], [rt] or [rp] tag has a class of its
    own, and so have comments, CDATA sections, declarations, doctypes and
    processing instructions. *)
Inductive string_class :=
| CData | ProcessingInstruction | Comment | Declaration | Doctype
| Stylesheet | Script | TemplateString
| RubyTextString | RubyParenthesisString.

Definition class_eqb (a b : string_class) : bool :=
  match a, b with
  | CData, CData | ProcessingInstruction, ProcessingInstruction
  | Comment, Comment | Declaration, Declaration | Doctype, Doctype
  | Stylesheet, Stylesheet | Script, Script
  | TemplateString, TemplateString | RubyTextString, RubyTextString
  | RubyParenthesisString, RubyParenthesisString => true
  | _, _ => false
  end.

(** A tag with its children, or a string: a [NavigableString] proper, or
    a string of one of its subclasses. *)
Inductive node :=
| Text (s : str)
| Other (c : string_class) (s : str)
| Elem (name : str) (children : list node).

(** [builder.string_containers.get(name)]: the class of the strings of a
    tag that keeps its text apart. *)
Definition string_container (name : str) : option string_class :=
  if eqb_str name (u "rt") then Some RubyTextString
  else if eqb_str name (u "rp") then Some RubyParenthesisString
  else if eqb_str name (u "style") then Some Stylesheet
  else if eqb_str name (u "script") then Some Script
  else if eqb_str name (u "template") then Some TemplateString
  else None.

(** [tag.interesting_string_types], as the class of a tag that keeps its
    text apart, or [None] for the default, [(NavigableString, CData)]. *)
Definition interesting_string_types (n : node) : option string_class :=
  match n with
  | Elem name _ => string_container name
  | Text _ | Other _ _ => None
  end.

(** [tag._all_strings(types=types)]: the strings below [n] whose class is
    exactly one of [types], in document order. *)
Fixpoint all_strings (types : option string_class) (n : node) : list str :=
  match n with
  | Text s => match types with None => [s] | Some _ => [] end
  | Other c s =>
      match types with
      | None => match c with CData => [s] | _ => [] end
      | Some t => if class_eqb c t then [s] else []
      end
  | Elem _ cs => flat_map (all_strings types) cs
  end.

(** The strings that [get_text] joins: a comment, and the text of a
    script or a style sheet, are not part of the text of the tags around
    them. *)
Definition strings (n : node) : list str :=
  all_strings (interesting_string_types n) n.

(** [tag.get_text()] *)
Definition get_text (n : node) : str := List.concat (strings n).

(** [tag.get_text(separator=sep)] *)
Definition get_text_sep (sep : str) (n : node) : str := join sep (strings n).

(** [tag.get_text(sep, strip=True)] *)
Definition get_text_strip (sep : str) (n : node) : str :=
  join sep (filter truthy (map strip (strings n))).

Fixpoint subtree (n : node) : list node :=
  n :: match n with
       | Text _ | Other _ _ => []
       | Elem _ cs => flat_map subtree cs
       end.

Definition descendants (n : node) : list node :=
  match n with
  | Text _ | Other _ _ => []
  | Elem _ cs => flat_map subtree cs
  end.

Definition is_tag (n : node) : bool :=
  match n with Elem _ _ => true | Text _ | Other _ _ => false end.

(** [t.name in names] for a tag; false for a text node. *)
Definition name_in (names : list str) (n : node) : bool :=
  match n with
  | Elem nm _ => existsb (eqb_str nm) names
  | Text _ | Other _ _ => false
  end.

(** [tag.find_all(names)] *)
Definition find_all (names : list str) (n : node) : list node :=
  filter (name_in names) (descendants n).

(** A node in its place: its parent and the siblings that follow it. *)
Record entry := mk_entry {
  e_node : node;
  e_parent : node;
  e_after : list node
}.

(** [n] and all below it in document order, [n] being a child of [parent]
    followed by the siblings [after]. *)
Fixpoint walk (parent : node) (after : list node) (n : node) {struct n}
  : list entry :=
  mk_entry n parent after ::
  match n with
  | Text _ | Other _ _ => []
  | Elem _ cs =>
      (fix walk_list (l : list node) : list entry :=
         match l with
         | [] => []
         | c :: l' => walk n l' c ++ walk_list l'
         end) cs
  end.

Fixpoint walk_list (parent : node) (l : list node) : list entry :=
  match l with
  | [] => []
  | c :: l' => walk parent l' c ++ walk_list parent l'
  end.

(** Everything below the document object, in document order. *)
Definition elements (soup : node) : list entry :=
  match soup with
  | Text _ | Other _ _ => []
  | Elem _ cs => walk_list soup cs
  end.

(** The first node satisfying [p], with the nodes after it in document
    order: [soup.find(...)], and [tag.find_next(...)] on what follows. *)
Fixpoint find_entry (p : node -> bool) (es : list entry)
  : option (entry * list entry) :=
  match es with
  | [] => None
  | e :: es' => if p (e_node e) then Some (e, es') else find_entry p es'
  end.

(** [tag.find_next_siblings()]: the tags among the following siblings. *)
Definition find_next_siblings (e : entry) : list node :=
  filter is_tag (e_after e).

(** Each node with [node.find_previous(string=True)]: the nearest string
    before it in document order, of whatever class. *)
Fixpoint with_previous (prev : option str) (es : list entry)
  : list (entry * option str) :=
  match es with
  | [] => []
  | e :: es' =>
      (e, prev) ::
      with_previous (match e_node e with
                     | Text s | Other _ s => Some s
                     | Elem _ _ => prev
                     end) es'
  end.

(** The document object. *)
Definition document (top : list node) : node := Elem (u "[document]") top.

End Soup.

Import Soup.

(** ** CONFIG *)

Definition BASE_URL : str := u "https://www.myneta.info/LokSabha2024".

(** ** STEP 4: Parse a single candidate page *)

(** A value of the record: an [int] or a [str]. *)
Inductive pyval :=
| PInt (z : Z)
| PStr (s : str).

Definition py_truthy (v : pyval) : bool :=
  match v with
  | PInt z => negb (z =? 0)%Z
  | PStr s => truthy s
  end.

Definition cand_record := dict string pyval.

Definition set (k : string) (v : pyval) (r : cand_record) : cand_record :=
  dict_set String.eqb k v r.

Definition item (k : string) (r : cand_record) : result pyval :=
  dict_item String.eqb k r.

(** A case of the criminal table: the dictionary with the keys [raw],
    [ipc_sections] and [charges]. *)
Record case := mk_case {
  raw : str;
  ipc_sections : list str;
  charges : list str
}.

Definition json_of_strs (l : list str) : json := JArr (map JStr l).

Definition json_of_case (c : case) : json :=
  JObj [(u "raw", JStr (raw c));
        (u "ipc_sections", json_of_strs (ipc_sections c));
        (u "charges", json_of_strs (charges c))].

Definition json_of_dict (d : dict str str) : json :=
  JObj (map (fun kv => (fst kv, JStr (snd kv))) d).

Definition h3_h4 : list str := [u "h3"; u "h4"].

(** [lambda t: t.name in ("h3", "h4") and word in t.get_text()] *)
Definition heading (word : string) (t : node) : bool :=
  name_in h3_h4 t && contains (u word) (get_text t).

(** [[clean(c.get_text()) for c in row.find_all(["td", "th"])]] *)
Definition row_cells (row : node) : list str :=
  map (fun c => clean (get_text c)) (find_all [u "td"; u "th"] row).

(** The cells of every [tr] of a table. *)
Definition table_rows (table : node) : list (list str) :=
  map row_cells (find_all [u "tr"] table).

(** [any(cells)] *)
Definition any (cells : list str) : bool := existsb truthy cells.

Definition initial_record (candidate_id : Z) (url : str) : cand_record :=
  [("candidate_id", PInt candidate_id);
   ("source_url", PStr url);
   ("name", PStr []);
   ("constituency", PStr []);
   ("state", PStr []);
   ("party", PStr []);
   ("parentage", PStr []);
   ("age", PStr []);
   ("voter_enrolled_in", PStr []);
   ("self_profession", PStr []);
   ("spouse_profession", PStr []);
   ("education", PStr []);
   ("status", PStr []);
   ("criminal_cases_count", PInt 0);
   ("convictions_count", PInt 0);
   ("criminal_cases_detail", PStr []);
   ("immovable_assets_total_self", PStr []);
   ("immovable_assets_total_spouse", PStr []);
   ("immovable_assets_grand_total", PStr []);
   ("immovable_assets_detail", PStr []);
   ("liabilities_total", PStr []);
   ("liabilities_detail", PStr [])]%string.

(** *** NAME + CONSTITUENCY + STATE *)

Definition name_part (es : list entry) (record : cand_record) : cand_record :=
  let record :=
    match find_entry (name_in [u "h2"]) es with
    | Some (h2, _) => set "name" (PStr (clean (get_text (e_node h2)))) record
    | None => record
    end in
  match find_entry (name_in [u "h5"]) es with
  | Some (h5, _) =>
      match split_on 124 (get_text_sep (u "|") (e_node h5)) with
      | p0 :: p1 :: _ =>
          set "state" (PStr (clean (strip_chars (u "()") p1)))
              (set "constituency" (PStr (clean p0)) record)
      | [p0] => set "constituency" (PStr (clean p0)) record
      | [] => record
      end
  | None => record
  end.

(** *** BASIC FIELDS from bold labels *)

Definition is_label (label : str) (names : list string) : bool :=
  existsb (fun w => eqb_str label (u w)) names.

Definition label_step (record : cand_record) (b_tag : entry) : cand_record :=
  let label := rstrip_chars (u ":") (clean (get_text (e_node b_tag))) in
  let parent_text := clean (get_text (e_parent b_tag)) in
  let value := clean (replace1 (get_text (e_node b_tag)) [] parent_text) in
  if is_label label ["Party"] then set "party" (PStr value) record
  else if is_label label ["S/o"; "D/o"; "W/o"] then
    set "parentage" (PStr value) record
  else if is_label label ["Age"] then set "age" (PStr value) record
  else if is_label label ["Name Enrolled as Voter in"] then
    set "voter_enrolled_in" (PStr value) record
  else if is_label label ["Self Profession"] then
    set "self_profession" (PStr value) record
  else if is_label label ["Spouse Profession"] then
    set "spouse_profession" (PStr value) record
  else if is_label label ["Status"] then set "status" (PStr value) record
  else record.

Definition b_tags (es : list entry) : list entry :=
  filter (fun e => name_in [u "b"] (e_node e)) es.

Definition basic_fields_part (es : list entry) (record : cand_record) : cand_record :=
  fold_left label_step (b_tags es) record.

(** *** EDUCATION *)

Fixpoint edu_text_parts (sibs : list node) : list str :=
  match sibs with
  | [] => []
  | sib :: rest =>
      if name_in h3_h4 sib then []
      else
        let t := clean (get_text sib) in
        if truthy t then t :: edu_text_parts rest else edu_text_parts rest
  end.

Definition education_part (es : list entry) (record : cand_record) : cand_record :=
  match find_entry (heading "Educational") es with
  | Some (edu_header, _) =>
      set "education"
          (PStr (join (u " | ") (edu_text_parts (find_next_siblings edu_header))))
          record
  | None => record
  end.

(** *** CRIMINAL CASES *)

Fixpoint no_crime_text (sibs : list node) : str :=
  match sibs with
  | [] => []
  | sib :: rest =>
      if name_in h3_h4 sib then [] else get_text sib ++ no_crime_text rest
  end.

(** The state of the loop over the rows: the open case, if any
    ([current_case], the empty dictionary when none is open), and the closed
    ones ([cases]). *)
Definition crime_state := (option case * list case)%type.

Definition close_case (st : crime_state) : list case :=
  match fst st with
  | Some c => snd st ++ [c]
  | None => snd st
  end.

Definition crime_step (st : crime_state) (cells : list str) : crime_state :=
  if negb (any cells) then st
  else
    let text := join (u " | ") cells in
    if matches (re_search true re_case_header text) then
      (Some (mk_case text [] []), close_case st)
    else
      match fst st with
      | Some current_case =>
          let ipc_matches := re_findall true re_ipc text in
          let sections :=
            flat_map (fun m => filter truthy (re_split false re_section_sep m))
                     ipc_matches in
          let chg :=
            if (10 <? length text)%nat &&
               negb (matches (re_match false re_number_line text))
            then [text] else [] in
          (Some (mk_case (raw current_case)
                         (ipc_sections current_case ++ sections)
                         (charges current_case ++ chg)),
           snd st)
      | None => st
      end.

Definition crime_rows (rows : list (list str)) : list case :=
  close_case (fold_left crime_step rows (None, [])).

(** [int(m.group(1))] of the first match of the conviction pattern in the
    page text, [0] without a match. *)
Definition convictions_of (conviction_text : str) : result Z :=
  match re_search true re_conviction conviction_text with
  | Some (_, Some g) => n <- int_of_str g ;; Ok (Z.of_N n)
  | Some (_, None) => Raise TypeError
  | None => Ok 0%Z
  end.

Definition criminal_cases_part (soup : node) (es : list entry) (record : cand_record)
  : result cand_record :=
  match find_entry (heading "Criminal Cases") es with
  | Some (criminal_section, following) =>
      if contains (u "No criminal cases")
                  (no_crime_text (find_next_siblings criminal_section))
      then
        Ok (set "criminal_cases_detail" (PStr (u "[]"))
                (set "criminal_cases_count" (PInt 0) record))
      else
        let cases :=
          match find_entry (name_in [u "table"]) following with
          | Some (crime_table, _) => crime_rows (table_rows (e_node crime_table))
          | None => []
          end in
        convictions <- convictions_of (get_text_strip (u " ") soup) ;;
        Ok (set "criminal_cases_detail"
                (PStr (dumps (JArr (map json_of_case cases))))
                (set "criminal_cases_count" (PInt (Z.of_nat (length cases)))
                     (set "convictions_count" (PInt convictions) record)))
  | None => Ok (set "criminal_cases_detail" (PStr (u "[]")) record)
  end.

(** *** IMMOVABLE ASSETS *)

(** [headers], [immovable_rows] and the record. *)
Record imm_state := mk_imm {
  headers : list str;
  immovable_rows : list (dict str str);
  imm_record : cand_record
}.

Fixpoint enumerate {A : Type} (i : nat) (l : list A) : list (nat * A) :=
  match l with
  | [] => []
  | x :: l' => (i, x) :: enumerate (S i) l'
  end.

Definition is_header_row (cells : list str) : bool :=
  forallb (fun c => eqb_str c [] || matches (re_match true re_header_cell c))
          (filter truthy cells).

Definition make_row_dict (headers cells : list str) : dict str str :=
  fold_left (fun row_dict jc =>
               let key := match nth_error headers (fst jc) with
                          | Some h => h
                          | None => u "col_" ++ str_of_nat (fst jc)
                          end in
               dict_set eqb_str key (snd jc) row_dict)
            (enumerate 0 cells) [].

Definition or_str (a b : str) : str := if truthy a then a else b.

Definition totals_step (record : cand_record) (kv : str * str) : cand_record :=
  let record :=
    if contains (u "self") (lower (fst kv)) && truthy (snd kv)
    then set "immovable_assets_total_self" (PStr (snd kv)) record
    else record in
  if contains (u "spouse") (lower (fst kv)) && truthy (snd kv)
  then set "immovable_assets_total_spouse" (PStr (snd kv)) record
  else record.

Definition imm_step (i : nat) (cells : list str) (st : imm_state)
  : result imm_state :=
  if negb (any cells) then Ok st
  else if (i =? 0)%nat || is_header_row cells then
    Ok (mk_imm cells (immovable_rows st) (imm_record st))
  else
    let row_dict := make_row_dict (headers st) cells in
    let desc :=
      or_str (match dict_get eqb_str (u "Description") row_dict with
              | Some d => d
              | None => []
              end)
             (match nth_error cells 1 with
              | Some c => c
              | None => []
              end) in
    let rows :=
      if truthy desc && negb (matches (re_match true re_total_desc desc))
      then immovable_rows st ++ [row_dict]
      else immovable_rows st in
    if existsb (fun v => matches (re_search true re_grand_total v)) cells then
      let record := fold_left totals_step row_dict (imm_record st) in
      last_val <- last_item (filter truthy cells) ;;
      Ok (mk_imm (headers st) rows
                 (set "immovable_assets_grand_total" (PStr last_val) record))
    else Ok (mk_imm (headers st) rows (imm_record st)).

Fixpoint imm_loop (i : nat) (all_rows : list (list str)) (st : imm_state)
  : result imm_state :=
  match all_rows with
  | [] => Ok st
  | cells :: rest => st' <- imm_step i cells st ;; imm_loop (S i) rest st'
  end.

Definition json_of_rows (rows : list (dict str str)) : json :=
  JArr (map json_of_dict rows).

Definition immovable_assets_part (es : list entry) (record : cand_record)
  : result cand_record :=
  st <- match find_entry (heading "Immovable") es with
        | Some (_, following) =>
            match find_entry (name_in [u "table"]) following with
            | Some (imm_table, _) =>
                imm_loop 0 (table_rows (e_node imm_table)) (mk_imm [] [] record)
            | None => Ok (mk_imm [] [] record)
            end
        | None => Ok (mk_imm [] [] record)
        end ;;
  Ok (set "immovable_assets_detail"
          (PStr (dumps (json_of_rows (immovable_rows st))))
          (imm_record st)).

(** *** LIABILITIES *)

Definition first_item {A : Type} (l : list A) : result A :=
  match l with
  | x :: _ => Ok x
  | [] => Raise IndexError
  end.

Definition lib_state := (dict str str * cand_record)%type.

Definition lib_step (st : lib_state) (row : list str) : result lib_state :=
  let cells := filter truthy row in
  liabilities_dict <-
    (if (2 <=? length cells)%nat then
       key <- first_item cells ;;
       val <- last_item cells ;;
       Ok (dict_set eqb_str key val (fst st))
     else Ok (fst st)) ;;
  let row_text := join (u " ") cells in
  if matches (re_search true re_liab_total row_text) then
    total <- last_item cells ;;
    Ok (liabilities_dict, set "liabilities_total" (PStr total) (snd st))
  else Ok (liabilities_dict, snd st).

Fixpoint lib_loop (rows : list (list str)) (st : lib_state) : result lib_state :=
  match rows with
  | [] => Ok st
  | row :: rest => st' <- lib_step st row ;; lib_loop rest st'
  end.

Definition liabilities_part (es : list entry) (record : cand_record)
  : result cand_record :=
  st <- match find_entry (heading "Liabilit") es with
        | Some (_, following) =>
            match find_entry (name_in [u "table"]) following with
            | Some (lib_table, _) =>
                lib_loop (table_rows (e_node lib_table)) ([], record)
            | None => Ok ([], record)
            end
        | None => Ok ([], record)
        end ;;
  Ok (set "liabilities_detail" (PStr (dumps (json_of_dict (fst st)))) (snd st)).

(** *** The quick summary at the top of the page *)

Definition is_figure (txt : str) : bool :=
  startswith (u "Rs ") txt || eqb_str txt (u "Nil").

Definition summary_step (record : cand_record) (bp : entry * option str)
  : result cand_record :=
  let txt := clean (get_text (e_node (fst bp))) in
  if is_figure txt then
    match snd bp with
    | Some prev =>
        if truthy prev then
          let prev_clean := clean prev in
          _ <- (if contains (u "Assets") prev_clean then
                  total <- item "immovable_assets_grand_total" record ;;
                  if negb (py_truthy total) then Ok tt (* pass *) else Ok tt
                else Ok tt) ;;
          if contains (u "Liabilities") prev_clean then
            total <- item "liabilities_total" record ;;
            if negb (py_truthy total)
            then Ok (set "liabilities_total" (PStr txt) record)
            else Ok record
          else Ok record
        else Ok record
    | None => Ok record
    end
  else Ok record.

Fixpoint summary_loop (bs : list (entry * option str)) (record : cand_record)
  : result cand_record :=
  match bs with
  | [] => Ok record
  | bp :: rest => r <- summary_step record bp ;; summary_loop rest r
  end.

Definition quick_summary_part (es : list entry) (record : cand_record)
  : result cand_record :=
  summary_loop (filter (fun bp => name_in [u "b"] (e_node (fst bp)))
                       (with_previous None es))
               record.

(** *** parse_candidate *)

Section ParseCandidate.

(** The retrieval collaborator: the text of the page, or [None] after the
    retries have failed. *)
Variable safe_get : str -> option str.

(** The HTML parser behind [BeautifulSoup(resp.text, "html.parser")]: the
    top-level nodes of the page. *)
Variable html_parser : str -> list node.

Definition candidate_url (candidate_id : Z) : str :=
  BASE_URL ++ u "/candidate.php?candidate_id=" ++ str_of_Z candidate_id.

Definition extract (candidate_id : Z) (url : str) (soup : node)
  : result cand_record :=
  let es := elements soup in
  let record := initial_record candidate_id url in
  let record := name_part es record in
  let record := basic_fields_part es record in
  let record := education_part es record in
  record <- criminal_cases_part soup es record ;;
  record <- immovable_assets_part es record ;;
  record <- liabilities_part es record ;;
  quick_summary_part es record.

Definition parse_candidate (candidate_id : Z) : result cand_record :=
  let url := candidate_url candidate_id in
  match safe_get url with
  | None =>
      Ok [("candidate_id", PInt candidate_id);
          ("error", PStr (u "fetch_failed"))]%string
  | Some resp => extract candidate_id url (document (html_parser resp))
  end.

End ParseCandidate.

(** ** Auxiliary notions used to state the properties *)

(** The string begins with a non-blank character. *)
Definition starts_word (s : str) : bool :=
  match s with
  | d :: _ => negb (isspace d)
  | [] => false
  end.

(** [c] put before the words [l]: joined to the first one when [glue], a
    word of its own otherwise. *)
Definition push (c : N) (glue : bool) (l : list str) : list str :=
  if glue
  then match l with
       | w :: l' => (c :: w) :: l'
       | [] => [[c]]
       end
  else [c] :: l.

(** The maximal runs of non-blank characters of a string, in order (what
    [s.split()] returns). *)
Fixpoint words (s : str) : list str :=
  match s with
  | [] => []
  | c :: s' =>
      if isspace c then words s'
      else push c (starts_word s') (words s')
  end.

(** A run of blanks becomes one space; [in_run] tells that the run has
    begun. *)
Fixpoint squeeze (in_run : bool) (s : str) : str :=
  match s with
  | [] => []
  | c :: s' =>
      if isspace c
      then if in_run then squeeze true s' else 32%N :: squeeze true s'
      else c :: squeeze false s'
  end.

(** Number of blanks at the head of a string. *)
Fixpoint lead (s : str) : nat :=
  match s with
  | c :: s' => if isspace c then S (lead s') else 0
  | [] => 0
  end.

(** The string does not end with a blank. *)
Fixpoint no_trailing (s : str) : bool :=
  match s with
  | [] => true
  | [c] => negb (isspace c)
  | _ :: s' => no_trailing s'
  end.

(** A word: not empty and without a blank. *)
Definition proper (w : str) : Prop :=
  w <> [] /\ forallb (fun c => negb (isspace c)) w = true.

(** Objects whose keys are pairwise distinct, at every level: the JSON values
    that come from Python dictionaries. *)
Fixpoint uniq_keys (v : json) : Prop :=
  match v with
  | JStr _ => True
  | JArr items => fold_right (fun x acc => uniq_keys x /\ acc) True items
  | JObj members =>
      NoDup (map fst members) /\
      fold_right (fun kv acc => uniq_keys (snd kv) /\ acc) True members
  end.

(** One member of an object as [dumps] writes it. *)
Definition dumps_member (kv : str * json) : str :=
  dumps_str (fst kv) ++ u ": " ++ dumps (snd kv).

(** [v] is read back from its text, whatever follows and with any fuel not
    less than the length of the text. *)
Definition reads (v : json) : Prop :=
  uniq_keys v ->
  forall f rest, length (dumps v) <= f ->
                 parse_value f (dumps v ++ rest) = Some (v, rest).

(** The kind of a value of the record: [true] for an [int]. *)
Definition is_int (v : pyval) : bool :=
  match v with PInt _ => true | PStr _ => false end.

(** The keys of a record in order, each with the kind of its value. *)
Definition shape (r : cand_record) : dict string bool :=
  map (fun kv => (fst kv, is_int (snd kv))) r.

(** The keys and kinds of a complete candidate record. *)
Definition schema : dict string bool :=
  [("candidate_id", true); ("source_url", false); ("name", false);
   ("constituency", false); ("state", false); ("party", false);
   ("parentage", false); ("age", false); ("voter_enrolled_in", false);
   ("self_profession", false); ("spouse_profession", false);
   ("education", false); ("status", false);
   ("criminal_cases_count", true); ("convictions_count", true);
   ("criminal_cases_detail", false);
   ("immovable_assets_total_self", false);
   ("immovable_assets_total_spouse", false);
   ("immovable_assets_grand_total", false);
   ("immovable_assets_detail", false);
   ("liabilities_total", false); ("liabilities_detail", false)].

Definition get (k : string) (r : cand_record) : option pyval :=
  dict_get String.eqb k r.

(** [r'] differs from [r] at most at the keys selected by [ks]. *)
Definition only_changes (ks : list string) (r r' : cand_record) : Prop :=
  forall k, existsb (String.eqb k) ks = false -> get k r' = get k r.

(** Patterns without a capturing group. *)
Fixpoint group_free (r : regex) : bool :=
  match r with
  | Group _ => false
  | Seq r1 r2 | Alt r1 r2 => group_free r1 && group_free r2
  | Opt r1 => group_free r1
  | _ => true
  end.

(** The number the conviction pattern captures first in a text, [0] when
    the pattern does not occur. *)
Definition conviction_figure (text : str) : Z :=
  match re_search true re_conviction text with
  | Some (_, Some g) => Z.of_N (int_of_digits g)
  | _ => 0%Z
  end.

(** A criminal-cases heading is present and the blocks after it do not say
    that there are no criminal cases. *)
Definition open_criminal_section (es : list entry) : bool :=
  match find_entry (heading "Criminal Cases") es with
  | Some (h, _) =>
      negb (contains (u "No criminal cases")
                     (no_crime_text (find_next_siblings h)))
  | None => false
  end.

(** The first match of the conviction pattern in a text has more digits
    than [int()] converts. *)
Definition figure_too_long (text : str) : bool :=
  match re_search true re_conviction text with
  | Some (_, Some g) => (max_str_digits <? length g)%nat
  | _ => false
  end.

(** The page makes [int()] raise: its criminal section is open and the
    first conviction figure of its text is too long. *)
Definition figure_refused (soup : node) : bool :=
  open_criminal_section (elements soup) &&
  figure_too_long (get_text_strip (u " ") soup).

(** [r'] is a complete record and differs from [r] at most at [ks]. *)
Definition step_ok (ks : list string) (r r' : cand_record) : Prop :=
  shape r' = schema /\ only_changes ks r r'.

(** The fields each part of [parse_candidate] may write. *)
Definition basic_keys : list string :=
  ["name"; "constituency"; "state"; "party"; "parentage"; "age";
   "voter_enrolled_in"; "self_profession"; "spouse_profession"; "status";
   "education"].

Definition criminal_keys : list string :=
  ["criminal_cases_count"; "convictions_count"; "criminal_cases_detail"].

Definition immovable_keys : list string :=
  ["immovable_assets_total_self"; "immovable_assets_total_spouse";
   "immovable_assets_grand_total"; "immovable_assets_detail"].

Definition liabilities_keys : list string :=
  ["liabilities_total"; "liabilities_detail"].

(** The case count of a record is the length of the array its detail field
    deserializes to. *)
Definition cases_recorded (r : cand_record) : Prop :=
  exists (l : list json) (d : str),
    get "criminal_cases_count" r = Some (PInt (Z.of_nat (length l))) /\
    get "criminal_cases_detail" r = Some (PStr d) /\
    loads d = Some (JArr l).

(** Every row dictionary has pairwise distinct keys. *)
Definition rows_ok (rows : list (dict str str)) : Prop :=
  Forall (fun d => NoDup (keys d)) rows.



(** The record of a page on which nothing is recognized. *)
Definition default_record (candidate_id : Z) (url : str) : cand_record :=
  [("candidate_id", PInt candidate_id);
   ("source_url", PStr url);
   ("name", PStr []);
   ("constituency", PStr []);
   ("state", PStr []);
   ("party", PStr []);
   ("parentage", PStr []);
   ("age", PStr []);
   ("voter_enrolled_in", PStr []);
   ("self_profession", PStr []);
   ("spouse_profession", PStr []);
   ("education", PStr []);
   ("status", PStr []);
   ("criminal_cases_count", PInt 0);
   ("convictions_count", PInt 0);
   ("criminal_cases_detail", PStr (u "[]"));
   ("immovable_assets_total_self", PStr []);
   ("immovable_assets_total_spouse", PStr []);
   ("immovable_assets_grand_total", PStr []);
   ("immovable_assets_detail", PStr (u "[]"));
   ("liabilities_total", PStr []);
   ("liabilities_detail", PStr (u "{}"))].

(** ** Tables and pages used as examples *)

Definition td (s : string) : node := Elem (u "td") [Text (u s)].
Definition tr (cells : list string) : node := Elem (u "tr") (map td cells).
Definition table (rows : list (list string)) : node :=
  Elem (u "table") (map tr rows).
Definition h3 (s : string) : node := Elem (u "h3") [Text (u s)].

Definition cells_of (rows : list (list string)) : list (list str) :=
  map (map u) rows.

(** A row that opens a case: not blank, and its text matches the
    case/FIR/crime-number pattern. *)
Definition is_case_header (cells : list str) : bool :=
  any cells && matches (re_search true re_case_header (join (u " | ") cells)).

Definition crime_example : list (list string) :=
  [["Case No. 12 of 2020"]; ["IPC Section 143, 147"];
   ["Case No. 13 of 2021"]; ["u/s 323"]].

Definition crime_page : list node :=
  [h3 "Criminal Cases"; table crime_example].

(** The immovable-assets table of the example, the first cell of its last
    row being [label]. *)
Definition immovable_example (label : string) : list (list string) :=
  [["Description"; "Self"; "Spouse"; "Total"];
   ["Agricultural Land"; "Rs 5,00,000"; "Nil"; "Rs 5,00,000"];
   [label; "Rs 5,00,000"; "Nil"; "Rs 5,00,000"]].

Definition immovable_page (label : string) : list node :=
  [h3 "Details of Immovable Assets"; table (immovable_example label)].

Definition land_row : dict str str :=
  [(u "Description", u "Agricultural Land"); (u "Self", u "Rs 5,00,000");
   (u "Spouse", u "Nil"); (u "Total", u "Rs 5,00,000")].

(** What the example states of the table [rows]: one row, the grand total
    and the total of the candidate. *)
Definition immovable_outcome (rows : list (list string)) : Prop :=
  exists st,
    imm_loop 0 (cells_of rows) (mk_imm [] [] (initial_record 0 [])) = Ok st /\
    immovable_rows st = [land_row] /\
    get "immovable_assets_grand_total" (imm_record st)
    = Some (PStr (u "Rs 5,00,000")) /\
    get "immovable_assets_total_self" (imm_record st)
    = Some (PStr (u "Rs 5,00,000")).

Definition liabilities_example : list (list string) :=
  [["Bank Loan"; "Rs 1,00,000"]; ["Grand Total"; "Rs 1,00,000"]].

Definition liabilities_page : list node :=
  [h3 "Details of Liabilities"; table liabilities_example].

(** What the example states of the liabilities table: the mapping and the
    total. *)
Definition liabilities_outcome (mapping : dict str str) : Prop :=
  exists st,
    lib_loop (cells_of liabilities_example) ([], initial_record 0 []) = Ok st /\
    fst st = mapping /\
    get "liabilities_total" (snd st) = Some (PStr (u "Rs 1,00,000")).

(** The entry a row of the liabilities table records: its first and last
    non-empty cells, when it has two or more. *)
Definition row_entry (row : list str) : option (str * str) :=
  match filter truthy row with
  | key :: c :: rest => Some (key, last (c :: rest) key)
  | _ => None
  end.

(** The value of the last row of [rows] whose entry has the key [k], if any,
    and [acc] otherwise. *)
Definition last_entry (k : str) (rows : list (list str)) (acc : option str)
  : option str :=
  fold_left (fun acc row =>
               match row_entry row with
               | Some (key, v) => if eqb_str k key then Some v else acc
               | None => acc
               end) rows acc.

(** The claim that the conviction count is the figure found in the page
    text, for the page with the top-level nodes [top]. *)
Definition convictions_from_text (top : list node) : Prop :=
  exists r,
    extract 0 [] (document top) = Ok r /\
    get "convictions_count" r
    = Some (PInt (conviction_figure (get_text_strip (u " ") (document top)))).






(** The statement that a bold figure after a text with "Assets" leaves the
    whole record as it is. *)
Definition assets_figure_inert (r : cand_record) (b : entry) (prev : str)
  : Prop :=
  contains (u "Assets") (clean prev) = true ->
  forall r', summary_step r (b, Some prev) = Ok r' -> r' = r.

(** Induction on JSON values, through the lists of items and members. *)
Section JsonInd.
Variable P : json -> Prop.
Hypothesis HS : forall s, P (JStr s).
Hypothesis HA : forall l, Forall P l -> P (JArr l).
Hypothesis HO : forall l, Forall (fun kv => P (snd kv)) l -> P (JObj l).

Fixpoint json_induction (v : json) : P v :=
  match v with
  | JStr s => HS s
  | JArr l =>
      HA ((fix go (l : list json) : Forall P l :=
             match l with
             | [] => Forall_nil _
             | x :: l' => Forall_cons _ (json_induction x) (go l')
             end) l)
  | JObj l =>
      HO ((fix go (l : list (str * json))
             : Forall (fun kv => P (snd kv)) l :=
             match l with
             | [] => Forall_nil _
             | kv :: l' =>
                 Forall_cons _
                   (match kv return P (snd kv) with
                    | (_, x) => json_induction x
                    end) (go l')
             end) l)
  end.
End JsonInd.

(** * The rest of the scraper: retrieval, link discovery, orchestration *)

(** ** The network and the clock

    What the program does to the outside is kept as a log: the requests it
    sends and the pauses it takes.  The outcome of a request may depend on
    everything that happened before it. *)

Inductive event :=
| Requested (url : str)            (* requests.get(url, ...) *)
| Slept (seconds : nat)            (* time.sleep(2 * (attempt + 1)) *)
| Paused.                          (* time.sleep(DELAY_SEC) *)

Definition world := list event.

(** The crawl delay, a float, as [time.sleep] takes it: a number of seconds
    it can wait for; a number below zero; [nan]; or a number whose
    nanoseconds do not fit the clock, the two infinities among them. *)
Inductive delay :=
| Seconds
| Negative
| NotANumber
| OutOfRange.

(** A link of a listing page: an [a] tag with its [href]. *)
Record anchor := mk_anchor {
  href : str;
  a_tag : node
}.

(** The entries of the listing pages: the dictionaries with the keys
    [constituency_id], [constituency_name] and, from [get_constituencies],
    [state_id]; and with the keys [candidate_id], [name_from_list] and
    [constituency_id]. *)
Record constituency := mk_constituency {
  constituency_id : Z;
  constituency_name : str;
  state_id : option Z
}.

Record candidate := mk_candidate {
  candidate_id : Z;
  name_from_list : str;
  in_constituency : Z
}.

(** Pattern of lines 94 and 127: [constituency_id=(\d+)] *)
Definition re_constituency_id : regex :=
  Seq (lit "constituency_id=") (Group (Plus [SDigit])).

(** Pattern of line 161: [candidate_id=(\d+)] *)
Definition re_candidate_id : regex :=
  Seq (lit "candidate_id=") (Group (Plus [SDigit])).

(** The addresses of the listing pages (lines 84, 117 and 151). *)
Definition home_url : str := BASE_URL ++ u "/".

Definition constituencies_url (state_id : Z) : str :=
  BASE_URL ++ u "/index.php?action=show_constituencies&state_id="
           ++ str_of_Z state_id.

Definition candidates_url (constituency_id : Z) : str :=
  BASE_URL ++ u "/index.php?action=show_candidates&constituency_id="
           ++ str_of_Z constituency_id.

(** The identifier of a link: [int(m.group(1))] when the pattern occurs in
    [href] and [word] does too, nothing otherwise. *)
Definition link_id (r : regex) (word : string) (href : str)
  : result (option Z) :=
  match re_search false r href with
  | Some (_, cap) =>
      if contains (u word) href then
        match cap with
        | Some g => n <- int_of_str g ;; Ok (Some (Z.of_N n))
        | None => Raise TypeError
        end
      else Ok None
  | None => Ok None
  end.

(** The loop over the links: an entry for every link that has an
    identifier. *)
Fixpoint collect {A : Type} (r : regex) (word : string)
         (entry_of : Z -> anchor -> A) (anchors : list anchor) (acc : list A)
  : result (list A) :=
  match anchors with
  | [] => Ok acc
  | a :: rest =>
      id <- link_id r word (href a) ;;
      collect r word entry_of rest
              (match id with
               | Some z => acc ++ [entry_of z a]
               | None => acc
               end)
  end.

(** The loop that removes duplicates: [seen] and [unique]. *)
Definition dedupe_step {A : Type} (key : A -> Z) (st : list Z * list A) (c : A)
  : list Z * list A :=
  if existsb (Z.eqb (key c)) (fst st) then st
  else (fst st ++ [key c], snd st ++ [c]).

Definition dedupe {A : Type} (key : A -> Z) (l : list A) : list A :=
  snd (fold_left (dedupe_step key) l ([], [])).

(** Programs that send requests and pause: from the log so far to a result
    and the log after, or an exception. *)
Definition io (A : Type) : Type := world -> result (A * world).

Definition io_ret {A : Type} (a : A) : io A := fun w => Ok (a, w).

Definition io_bind {A B : Type} (c : io A) (k : A -> io B) : io B :=
  fun w => match c w with
           | Ok (a, w1) => k a w1
           | Raise e => Raise e
           end.

Notation "x <~ c ;; k" := (io_bind c (fun x => k))
  (at level 61, c at next level, right associativity).

(** [time.sleep(DELAY_SEC)]: the range of the clock is tested first, then
    the sign. *)
Definition pause (DELAY_SEC : delay) : io unit :=
  fun w =>
    match DELAY_SEC with
    | Seconds => Ok (tt, w ++ [Paused])
    | Negative | NotANumber => Raise ValueError
    | OutOfRange => Raise OverflowError
    end.

(** [record["constituency_name"] = con["constituency_name"]] *)
Definition with_constituency (con : constituency) (record : cand_record)
  : cand_record :=
  set "constituency_name" (PStr (constituency_name con)) record.

(** The namespace of a command line whose values convert: the three
    identifiers ([None] for an option that is not on the command line),
    [--all], the two output paths and the delay.  (On a value that [int] or
    [float] refuses, argparse leaves with status 2 before it returns any
    namespace.) *)
Record args := mk_args {
  arg_candidate_id : option Z;
  arg_constituency_id : option Z;
  arg_state_id : option Z;
  arg_all : bool;
  arg_output_csv : str;
  arg_output_json : str;
  arg_delay : delay
}.

(** The options of the required, mutually exclusive group that are on the
    command line. *)
Definition present (x : option Z) : nat :=
  match x with Some _ => 1 | None => 0 end.

Definition group_count (a : args) : nat :=
  present (arg_candidate_id a) + present (arg_constituency_id a)
  + present (arg_state_id a) + (if arg_all a then 1 else 0).

(** [if args.x:] for an optional integer. *)
Definition given (x : option Z) : option Z :=
  match x with
  | Some z => if (z =? 0)%Z then None else Some z
  | None => None
  end.

(** *** SAVE RESULTS: the two sums of the quick summary (lines 452 and
    455), which run once the files are written

    The value of the count in a record, zero without the key; the sums need
    a number. *)
Definition cases_of (r : cand_record) : result Z :=
  match get "criminal_cases_count" r with
  | None => Ok 0%Z
  | Some (PInt z) => Ok z
  | Some (PStr _) => Raise TypeError
  end.

(** The sum of the counts of the records. *)
Fixpoint total_criminal (records : list cand_record) (acc : Z) : result Z :=
  match records with
  | [] => Ok acc
  | r :: rest => n <- cases_of r ;; total_criminal rest (acc + n)%Z
  end.

(** The number of records whose count is positive. *)
Fixpoint with_cases (records : list cand_record) (acc : nat) : result nat :=
  match records with
  | [] => Ok acc
  | r :: rest =>
      n <- cases_of r ;;
      with_cases rest (if (0 <? n)%Z then S acc else acc)
  end.

Section Scraper.

(** The outcome of [requests.get] after the log [w]: the text of the
    page, or [None] for a [RequestException] (a failed connection, a
    time-out, a status of 400 or more). *)
Variable net : world -> str -> option str.

(** [BeautifulSoup(resp.text, "html.parser")] of a candidate page. *)
Variable html_parser : str -> list node.

(** [soup.find_all("a", href=True)] of a listing page: its links in
    document order. *)
Variable anchor_parser : str -> list anchor.

(** The global [DELAY_SEC]: 1.5 as the module sets it, or the value of
    [--delay] once [main] has assigned it. *)
Variable DELAY_SEC : delay.

(** *** safe_get *)

Fixpoint safe_get_loop (url : str) (attempt remaining : nat) (w : world)
  : option str * world :=
  match remaining with
  | O => (None, w)
  | S rest =>
      match net w url with
      | Some resp => (Some resp, w ++ [Requested url])
      | None =>
          safe_get_loop url (S attempt) rest
                        (w ++ [Requested url; Slept (2 * (attempt + 1))])
      end
  end.

Definition safe_get (url : str) (retries : nat) (w : world)
  : option str * world :=
  safe_get_loop url 0 retries w.

(** *** STEP 1 to STEP 3: the listing pages *)

Definition listing (A : Type) (url : str) (r : regex) (word : string)
           (key : A -> Z) (entry_of : Z -> anchor -> A) : io (list A) :=
  fun w =>
    match safe_get url 3 w with
    | (None, w1) => Ok ([], w1)
    | (Some resp, w1) =>
        found <- collect r word entry_of (anchor_parser resp) [] ;;
        Ok (dedupe key found, w1)
    end.

Definition get_all_constituencies : io (list constituency) :=
  listing home_url re_constituency_id "show_candidates" constituency_id
          (fun z a => mk_constituency z (clean (get_text (a_tag a))) None).

Definition get_constituencies (state_id : Z) : io (list constituency) :=
  listing (constituencies_url state_id)
          re_constituency_id "show_candidates" constituency_id
          (fun z a => mk_constituency z (clean (get_text (a_tag a)))
                                      (Some state_id)).

Definition get_candidate_ids (constituency_id : Z) : io (list candidate) :=
  listing (candidates_url constituency_id)
          re_candidate_id "candidate.php" candidate_id
          (fun z a => mk_candidate z (clean (get_text (a_tag a)))
                                   constituency_id).

(** *** ORCHESTRATORS *)

(** [parse_candidate] with the retrieval of this program. *)
Definition parse_candidate_io (candidate_id : Z) : io cand_record :=
  fun w =>
    record <- parse_candidate (fun url => fst (safe_get url 3 w)) html_parser
                              candidate_id ;;
    Ok (record, snd (safe_get (candidate_url candidate_id) 3 w)).

Definition scrape_single (candidate_id : Z) : io (list cand_record) :=
  record <~ parse_candidate_io candidate_id ;; io_ret [record].

(** The loop over the candidates of a constituency; [tag] is the
    assignment to the record that [scrape_state] and [scrape_all] make. *)
Fixpoint scrape_candidates (tag : cand_record -> cand_record)
         (candidates : list candidate) (records : list cand_record)
  : io (list cand_record) :=
  match candidates with
  | [] => io_ret records
  | c :: rest =>
      record <~ parse_candidate_io (candidate_id c) ;;
      _ <~ pause DELAY_SEC ;;
      scrape_candidates tag rest (records ++ [tag record])
  end.

Definition scrape_constituency (constituency_id : Z)
  : io (list cand_record) :=
  candidates <~ get_candidate_ids constituency_id ;;
  scrape_candidates (fun record => record) candidates [].

(** The loop over the constituencies; [outer_pause] tells whether the
    program pauses after each of them ([scrape_state] does, [scrape_all]
    does not). *)
Fixpoint scrape_constituencies (outer_pause : bool)
         (constituencies : list constituency) (records : list cand_record)
  : io (list cand_record) :=
  match constituencies with
  | [] => io_ret records
  | con :: rest =>
      candidates <~ get_candidate_ids (constituency_id con) ;;
      records <~ scrape_candidates (with_constituency con) candidates
                                   records ;;
      _ <~ (if outer_pause then pause DELAY_SEC else io_ret tt) ;;
      scrape_constituencies outer_pause rest records
  end.

Definition scrape_state (state_id : Z) : io (list cand_record) :=
  constituencies <~ get_constituencies state_id ;;
  scrape_constituencies true constituencies [].

Definition scrape_all : io (list cand_record) :=
  constituencies <~ get_all_constituencies ;;
  scrape_constituencies false constituencies [].

End Scraper.

(** *** CLI: the records [main] hands to [save_results]

    [parse_args] first: it leaves with status 2 unless exactly one option
    of the group is on the command line.  Then the delay is assigned, and
    the identifiers are tested for truth in turn. *)
Definition main_records
           (net : world -> str -> option str) (html_parser : str -> list node)
           (anchor_parser : str -> list anchor) (a : args)
  : io (list cand_record) :=
  if (group_count a =? 1)%nat then
    match given (arg_candidate_id a) with
    | Some id => scrape_single net html_parser id
    | None =>
        match given (arg_constituency_id a) with
        | Some id =>
            scrape_constituency net html_parser anchor_parser (arg_delay a) id
        | None =>
            match given (arg_state_id a) with
            | Some id =>
                scrape_state net html_parser anchor_parser (arg_delay a) id
            | None => scrape_all net html_parser anchor_parser (arg_delay a)
            end
        end
    end
  else fun _ => Raise SystemExit.

(** ** Auxiliary notions for the rest of the scraper *)

(** The digits of the identifier of a link, for an address that is a link
    of the kind looked for. *)
Definition link_digits (r : regex) (word : string) (href : str) : option str :=
  match re_search false r href with
  | Some (_, Some g) => if contains (u word) href then Some g else None
  | _ => None
  end.

(** The identifier a link stands for. *)
Definition link_number (r : regex) (word : string) (href : str) : option Z :=
  option_map (fun g => Z.of_N (int_of_digits g)) (link_digits r word href).

(** The identifier of the link has more digits than [int()] converts. *)
Definition link_refused (r : regex) (word : string) (address : str) : bool :=
  match link_digits r word address with
  | Some g => (max_str_digits <? length g)%nat
  | None => false
  end.

(** A page has such a link. *)
Definition refused_link (r : regex) (word : string) (anchors : list anchor)
  : bool :=
  existsb (fun a => link_refused r word (href a)) anchors.

(** Every page the network serves is one whose numbers [int()] converts:
    no link with an identifier that is too long, no conviction figure that
    is. *)
Definition well_served (net : world -> str -> option str)
           (html_parser : str -> list node)
           (anchor_parser : str -> list anchor) : Prop :=
  forall w url resp,
    net w url = Some resp ->
    refused_link re_constituency_id "show_candidates" (anchor_parser resp)
    = false /\
    refused_link re_candidate_id "candidate.php" (anchor_parser resp)
    = false /\
    figure_refused (document (html_parser resp)) = false.

(** What can make a scraper raise [e]: a delay that [time.sleep] refuses,
    or a page with a number that [int()] refuses.  No other exception
    leaves a scraper. *)
Definition raise_cause (net : world -> str -> option str)
           (html_parser : str -> list node)
           (anchor_parser : str -> list anchor) (DELAY_SEC : delay) (e : exn)
  : Prop :=
  match e with
  | ValueError =>
      DELAY_SEC = Negative \/ DELAY_SEC = NotANumber \/
      ~ well_served net html_parser anchor_parser
  | OverflowError => DELAY_SEC = OutOfRange
  | _ => False
  end.

(** The entries of the links that stand for an identifier, in the order of
    the page. *)
Definition links {A : Type} (r : regex) (word : string)
           (entry_of : Z -> anchor -> A) (anchors : list anchor) : list A :=
  flat_map (fun a => match link_number r word (href a) with
                     | Some z => [entry_of z a]
                     | None => []
                     end) anchors.

(** What holds of every record that [parse_candidate] returns for the
    candidate [cid]: it carries that identifier, it has no key
    [constituency_name], and its count of criminal cases, when it has one,
    is a number that is not negative. *)
Definition scraped (cid : Z) (r : cand_record) : Prop :=
  get "candidate_id" r = Some (PInt cid) /\
  get "constituency_name" r = None /\
  exists n, (0 <= n)%Z /\ cases_of r = Ok n.

(** The record returned when the page of [cid] cannot be fetched. *)
Definition error_record (cid : Z) : cand_record :=
  [("candidate_id", PInt cid); ("error", PStr (u "fetch_failed"))].

(** The record of the candidate [c], with the name of [con] under
    [constituency_name] after all its other keys. *)
Definition tagged (con : constituency) (c : candidate) (r : cand_record)
  : Prop :=
  exists r0, scraped (candidate_id c) r0 /\
             r = r0 ++ [("constituency_name", PStr (constituency_name con))].

(** The requests and pauses of [k] failed attempts at [url], attempt [i]
    counted from [first]. *)
Fixpoint backoff_log (url : str) (first k : nat) : world :=
  match k with
  | O => []
  | S k' => Requested url :: Slept (2 * (first + 1)) :: backoff_log url (S first) k'
  end.

(** The seconds of back-off in a log, the number of its requests, and the
    number of its polite pauses. *)
Fixpoint seconds_slept (w : world) : nat :=
  match w with
  | [] => 0
  | Slept s :: w' => s + seconds_slept w'
  | _ :: w' => seconds_slept w'
  end.

Fixpoint requests (w : world) : nat :=
  match w with
  | [] => 0
  | Requested _ :: w' => S (requests w')
  | _ :: w' => requests w'
  end.

Fixpoint pauses (w : world) : nat :=
  match w with
  | [] => 0
  | Paused :: w' => S (pauses w')
  | _ :: w' => pauses w'
  end.

(** * Properties *)

Arguments isspace : simpl never.
Arguments isdigit : simpl never.

(** ** The text normalizer *)

Example clean_probe : clean (u "  a   b" ++ [10%N]) = u "a b".
Proof. reflexivity. Qed.

Section CleanFacts.

Lemma char_in_ws c : char_in false ws c = isspace c.
Proof. unfold char_in, ws; simpl. now rewrite orb_false_r. Qed.

Lemma star_total (A : Type) ic cs (k : str -> option A) s :
  (forall x, k x <> None) ->
  star ic cs s k = k (lstrip_by (char_in ic cs) s).
Proof.
  intros Hk. induction s as [|c s IH]; simpl; [reflexivity|].
  destruct (char_in ic cs c); [|reflexivity].
  rewrite IH. destruct (k (lstrip_by (char_in ic cs) s)) eqn:E; [reflexivity|].
  now apply Hk in E.
Qed.

Lemma lstrip_ext p q s :
  (forall c, p c = q c) -> lstrip_by p s = lstrip_by q s.
Proof.
  intros H. induction s as [|c s IH]; simpl; [reflexivity|].
  rewrite H. now destruct (q c).
Qed.

Lemma lstrip_length s : length (lstrip_by isspace s) + lead s = length s.
Proof.
  induction s as [|c s IH]; simpl; [reflexivity|].
  destruct (isspace c); simpl; lia.
Qed.

Lemma match_ws_plus n s :
  match_at false n re_ws_plus s =
  match s with
  | c :: s' => if isspace c then Some (S (lead s'), None) else None
  | [] => None
  end.
Proof.
  unfold match_at, re_ws_plus; cbn [m]. destruct s as [|c s]; [reflexivity|].
  rewrite char_in_ws. destruct (isspace c); [|reflexivity].
  rewrite star_total by discriminate.
  rewrite (lstrip_ext _ isspace) by apply char_in_ws.
  f_equal. f_equal. pose proof (lstrip_length s).
  change (length (c :: s)) with (S (length s)). lia.
Qed.

Lemma scan_ws_plus n s :
  render [32%N] (scan false n re_ws_plus s (lead s)) = squeeze true s /\
  render [32%N] (scan false n re_ws_plus s 0) = squeeze false s.
Proof.
  induction s as [|c s [IH1 IH2]].
  - cbn [lead scan squeeze]. rewrite match_ws_plus. now split.
  - assert (H0 : render [32%N] (scan false n re_ws_plus (c :: s) 0)
                 = squeeze false (c :: s)).
    { cbn [scan]. rewrite match_ws_plus. cbn [squeeze].
      destruct (isspace c).
      - cbn [Nat.eqb app Nat.sub]. rewrite Nat.sub_0_r.
        cbn [render flat_map app]. f_equal. exact IH1.
      - cbn [render flat_map app]. f_equal. exact IH2. }
    split; [|exact H0].
    cbn [lead squeeze]. destruct (isspace c) eqn:E.
    + cbn [scan]. exact IH1.
    + rewrite H0. cbn [squeeze]. now rewrite E.
Qed.

Lemma re_sub_ws_plus s : re_sub false re_ws_plus [32%N] s = squeeze false s.
Proof. apply (scan_ws_plus (length s) s). Qed.

End CleanFacts.

Section StripFacts.
Variable p : N -> bool.

Lemma lstrip_snoc a c :
  p c = false -> lstrip_by p (a ++ [c]) = lstrip_by p a ++ [c].
Proof.
  intros Hc. induction a as [|x a IH]; simpl.
  - now rewrite Hc.
  - destruct (p x); [exact IH | reflexivity].
Qed.

Lemma rstrip_snoc s c :
  rstrip_by p (s ++ [c]) = if p c then rstrip_by p s else s ++ [c].
Proof.
  unfold rstrip_by. rewrite rev_app_distr. simpl.
  destruct (p c); [reflexivity|].
  simpl. now rewrite rev_involutive.
Qed.

Lemma rstrip_cons c s :
  p c = false -> rstrip_by p (c :: s) = c :: rstrip_by p s.
Proof.
  intros Hc. unfold rstrip_by. simpl.
  rewrite lstrip_snoc by exact Hc. rewrite rev_app_distr. reflexivity.
Qed.

Lemma lstrip_head s :
  match lstrip_by p s with
  | c :: _ => p c = false
  | [] => True
  end.
Proof.
  induction s as [|x s IH]; simpl; [exact I|].
  destruct (p x) eqn:E; [exact IH | exact E].
Qed.
End StripFacts.

Section WordsFacts.

Lemma no_trailing_snoc s c : no_trailing (s ++ [c]) = negb (isspace c).
Proof.
  induction s as [|x s IH]; [reflexivity|].
  simpl. destruct (s ++ [c]) eqn:E; [now destruct s | exact IH].
Qed.

Lemma no_trailing_rstrip s : no_trailing (rstrip_by isspace s) = true.
Proof.
  induction s as [|c s IH] using rev_ind; [reflexivity|].
  rewrite rstrip_snoc. destruct (isspace c) eqn:E; [exact IH|].
  rewrite no_trailing_snoc. now rewrite E.
Qed.

Lemma words_lstrip s : words (lstrip_by isspace s) = words s.
Proof.
  induction s as [|c s IH]; [reflexivity|].
  simpl. destruct (isspace c) eqn:E; [exact IH|].
  simpl. now rewrite E.
Qed.

Lemma starts_word_snoc s c :
  isspace c = true -> starts_word (s ++ [c]) = starts_word s.
Proof. intros Hc. destruct s; simpl; [now rewrite Hc | reflexivity]. Qed.

Lemma words_snoc s c : isspace c = true -> words (s ++ [c]) = words s.
Proof.
  intros Hc. induction s as [|x s IH]; simpl.
  - now rewrite Hc.
  - rewrite IH, starts_word_snoc by exact Hc. reflexivity.
Qed.

Lemma words_rstrip s : words (rstrip_by isspace s) = words s.
Proof.
  induction s as [|c s IH] using rev_ind; [reflexivity|].
  rewrite rstrip_snoc. destruct (isspace c) eqn:E; [|reflexivity].
  now rewrite words_snoc.
Qed.

Lemma push_nonempty c g l : push c g l <> [].
Proof. unfold push. destruct g; [destruct l|]; discriminate. Qed.

Lemma words_nonempty s : no_trailing s = true -> s <> [] -> words s <> [].
Proof.
  induction s as [|c s IH]; [congruence|]. intros Ht _.
  simpl. destruct (isspace c) eqn:E.
  - destruct s as [|d s].
    + simpl in Ht. now rewrite E in Ht.
    + apply IH; [exact Ht | discriminate].
  - apply push_nonempty.
Qed.

Lemma join_cons_char sep c w l : join sep ((c :: w) :: l) = c :: join sep (w :: l).
Proof. destruct l; reflexivity. Qed.

Lemma join_cons sep w l : l <> [] -> join sep (w :: l) = w ++ sep ++ join sep l.
Proof. destruct l; [congruence | reflexivity]. Qed.

Lemma squeeze_words s :
  no_trailing s = true ->
  squeeze true s = join [32%N] (words s) /\
  squeeze false s =
    (if starts_word s || negb (truthy s) then [] else [32%N]) ++
    join [32%N] (words s).
Proof.
  induction s as [|c s IH]; [now split|]. intros Ht.
  assert (Hs : no_trailing s = true).
  { destruct s; [reflexivity | exact Ht]. }
  destruct (IH Hs) as [IH1 IH2].
  cbn [squeeze words starts_word truthy negb orb]. destruct (isspace c) eqn:E.
  - cbn [negb app]. rewrite IH1. now split.
  - cbn [negb app]. rewrite IH2.
    assert (G : c :: (if starts_word s || negb (truthy s) then [] else [32%N])
                     ++ join [32%N] (words s)
                = join [32%N] (push c (starts_word s) (words s))).
    { destruct s as [|d s]; [reflexivity|].
      cbn [starts_word truthy negb orb]. rewrite orb_false_r.
      destruct (isspace d) eqn:Ed; cbn [negb push].
      - rewrite join_cons; [reflexivity|].
        apply words_nonempty; [exact Hs | discriminate].
      - destruct (words (d :: s)) as [|w l] eqn:Ew.
        + exfalso. cbn [words] in Ew. rewrite Ed in Ew.
          now apply push_nonempty in Ew.
        + now rewrite join_cons_char. }
    now split.
Qed.

Lemma strip_shape x :
  strip x = match lstrip_by isspace x with
            | [] => []
            | c :: t => c :: rstrip_by isspace t
            end.
Proof.
  unfold strip. pose proof (lstrip_head isspace x) as H.
  destruct (lstrip_by isspace x) as [|c t]; [reflexivity|].
  now apply rstrip_cons.
Qed.

Lemma clean_words x : clean x = join [32%N] (words x).
Proof.
  unfold clean, clean_opt. destruct x as [|a x]; [reflexivity|].
  cbn [truthy negb]. change (u " ") with [32%N]. rewrite re_sub_ws_plus.
  rewrite <- (words_lstrip (a :: x)).
  assert (Hs : strip (a :: x) = rstrip_by isspace (lstrip_by isspace (a :: x)))
    by reflexivity.
  pose proof (strip_shape (a :: x)) as Hsh.
  pose proof (lstrip_head isspace (a :: x)) as Hh.
  pose proof (no_trailing_rstrip (lstrip_by isspace (a :: x))) as Hnt.
  rewrite <- Hs in Hnt.
  rewrite <- (words_rstrip (lstrip_by isspace (a :: x))), <- Hs.
  destruct (squeeze_words _ Hnt) as [_ ->].
  destruct (lstrip_by isspace (a :: x)) as [|c t].
  - rewrite Hsh. reflexivity.
  - rewrite Hsh. cbn [starts_word]. now rewrite Hh.
Qed.

Lemma push_proper c g l :
  isspace c = false -> Forall proper l -> Forall proper (push c g l).
Proof.
  intros Hc Hl. unfold push.
  assert (H1 : proper [c]).
  { split; [discriminate|]. simpl. now rewrite Hc. }
  destruct g; [|now constructor].
  destruct l as [|w l]; [now constructor|].
  inversion Hl as [|? ? [Hw1 Hw2] Hl']; subst. constructor; [|exact Hl'].
  split; [discriminate|]. simpl. now rewrite Hc.
Qed.

Lemma words_proper s : Forall proper (words s).
Proof.
  induction s as [|c s IH]; [constructor|].
  simpl. destruct (isspace c) eqn:E; [exact IH|].
  now apply push_proper.
Qed.

Lemma words_word_app w t :
  proper w -> starts_word t = false -> words (w ++ t) = w :: words t.
Proof.
  intros [Hne Hall] Ht. induction w as [|a w IH]; [congruence|].
  simpl in Hall. apply andb_prop in Hall as [Ha Hw].
  apply negb_true_iff in Ha.
  cbn [app words]. rewrite Ha. destruct w as [|b w].
  - cbn [app]. rewrite Ht. reflexivity.
  - rewrite IH by (discriminate || exact Hw).
    cbn [app starts_word]. simpl in Hw. apply andb_prop in Hw as [Hb _].
    now rewrite Hb.
Qed.

Lemma words_join l : Forall proper l -> words (join [32%N] l) = l.
Proof.
  induction 1 as [|w l Hw Hl IH]; [reflexivity|].
  destruct l as [|w' l].
  - cbn [join]. rewrite <- (app_nil_r w) at 1.
    now rewrite words_word_app.
  - rewrite join_cons by discriminate.
    rewrite words_word_app; [|exact Hw|reflexivity].
    cbn [app words]. change (isspace 32) with true. cbn iota.
    now rewrite IH.
Qed.

Lemma clean_idempotent x : clean (clean x) = clean x.
Proof.
  rewrite (clean_words (clean x)), (clean_words x).
  now rewrite words_join by apply words_proper.
Qed.

Lemma join_proper_head l :
  Forall proper l -> l <> [] -> starts_word (join [32%N] l) = true.
Proof.
  intros Hl Hne. destruct l as [|w l]; [congruence|].
  inversion Hl as [|? ? [Hw1 Hw2] _]; subst.
  destruct w as [|c w]; [congruence|].
  rewrite join_cons_char. simpl in *.
  now apply andb_prop in Hw2 as [-> _].
Qed.

Lemma no_trailing_app a b : b <> [] -> no_trailing (a ++ b) = no_trailing b.
Proof.
  intros Hb. induction a as [|x a IH]; [reflexivity|].
  cbn [app no_trailing]. destruct (a ++ b) eqn:E; [|exact IH].
  apply app_eq_nil in E as [_ ->]. congruence.
Qed.

Lemma no_trailing_word w :
  forallb (fun c => negb (isspace c)) w = true -> no_trailing w = true.
Proof.
  induction w as [|c w IH]; [reflexivity|]. simpl.
  intros H. apply andb_prop in H as [Hc Hw].
  destruct w; [exact Hc | now apply IH].
Qed.

Lemma join_proper_nonempty l : Forall proper l -> l <> [] -> join [32%N] l <> [].
Proof.
  intros Hl Hne E. apply join_proper_head in Hl; [|exact Hne].
  now rewrite E in Hl.
Qed.

Lemma join_proper_last l : Forall proper l -> no_trailing (join [32%N] l) = true.
Proof.
  induction 1 as [|w l Hw Hl IH]; [reflexivity|].
  destruct l as [|w' l].
  - apply no_trailing_word, Hw.
  - rewrite join_cons by discriminate.
    rewrite no_trailing_app by discriminate.
    assert (Hj : join [32%N] (w' :: l) <> [])
      by (apply join_proper_nonempty; [exact Hl | discriminate]).
    cbn [app no_trailing].
    destruct (join [32%N] (w' :: l)); [congruence | exact IH].
Qed.

Lemma clean_trimmed x :
  clean x = [] \/
  (starts_word (clean x) = true /\ no_trailing (clean x) = true).
Proof.
  rewrite clean_words. pose proof (words_proper x) as Hp.
  destruct (words x) as [|w l] eqn:E; [now left|]. right. split.
  - apply join_proper_head; [exact Hp | discriminate].
  - now apply join_proper_last.
Qed.

End WordsFacts.

(** ** JSON: reading back what was written *)

Section JsonFacts.

Lemma small_cases (c : N) :
  (c < 32)%N -> In c (map N.of_nat (seq 0 32)).
Proof.
  intros H. rewrite <- (N2Nat.id c). apply in_map, in_seq. lia.
Qed.

Lemma scan_escape_char c s x rest :
  scan_string s = Some (x, rest) ->
  scan_string (escape_char c ++ s) = Some (c :: x, rest).
Proof.
  intros Hs. destruct (c <? 32)%N eqn:Hlt.
  - apply N.ltb_lt, small_cases in Hlt. cbn in Hlt.
    repeat (destruct Hlt as [<- | Hlt];
            [cbn; rewrite Hs; reflexivity|]).
    contradiction.
  - unfold escape_char. rewrite Hlt.
    destruct (c =? 34)%N eqn:E1.
    { apply N.eqb_eq in E1; subst. cbn. now rewrite Hs. }
    destruct (c =? 92)%N eqn:E2.
    { apply N.eqb_eq in E2; subst. cbn. now rewrite Hs. }
    apply N.ltb_ge in Hlt.
    repeat match goal with
           | |- context [(c =? ?k)%N] =>
               replace (c =? k)%N with false by (symmetry; apply N.eqb_neq; lia)
           end.
    cbn [app scan_string]. rewrite E1, E2.
    replace (c <? 32)%N with false by (symmetry; apply N.ltb_ge; lia).
    now rewrite Hs.
Qed.

Lemma scan_dumps_str s rest :
  scan_string (flat_map escape_char s ++ 34%N :: rest) = Some (s, rest).
Proof.
  induction s as [|c s IH]; [reflexivity|].
  cbn [flat_map]. rewrite <- app_assoc. now apply scan_escape_char.
Qed.

Lemma dumps_head v :
  exists t, dumps v = 34%N :: t \/ dumps v = 91%N :: t \/ dumps v = 123%N :: t.
Proof. destruct v; eexists; cbn; eauto. Qed.

Lemma skip_ws_dumps v rest : skip_ws (dumps v ++ rest) = dumps v ++ rest.
Proof. destruct (dumps_head v) as [t [-> | [-> | ->]]]; reflexivity. Qed.

Lemma parse_value_space f s : parse_value f (32%N :: s) = parse_value f s.
Proof. destruct f; reflexivity. Qed.

Lemma parse_items_space f s : parse_items f (32%N :: s) = parse_items f s.
Proof. destruct f; [reflexivity|]. cbn [parse_items]. now rewrite parse_value_space. Qed.

Lemma parse_members_space f s : parse_members f (32%N :: s) = parse_members f s.
Proof. destruct f; reflexivity. Qed.

Lemma join_cons_char_gen sep (c : N) w (l : list str) rest :
  join sep ((c :: w) :: l) ++ rest = c :: (join sep (w :: l) ++ rest).
Proof. now rewrite join_cons_char. Qed.

Lemma join_length_le sep (x : str) l : length x <= length (join sep (x :: l)).
Proof. destruct l; cbn [join]; rewrite ?length_app; lia. Qed.

Lemma join_length_tail (x : str) l :
  l <> [] -> S (length (join (u ", ") l)) <= length (join (u ", ") (x :: l)).
Proof.
  intros Hl. rewrite join_cons by exact Hl. rewrite !length_app. cbn. lia.
Qed.

Lemma parse_items_dumps items :
  Forall reads items -> items <> [] ->
  fold_right (fun x acc => uniq_keys x /\ acc) True items ->
  forall f rest,
    S (length (join (u ", ") (map dumps items))) <= f ->
    parse_items f (join (u ", ") (map dumps items) ++ 93%N :: rest)
    = Some (items, rest).
Proof.
  induction 1 as [|v vs Hv Hvs IH]; [congruence|].
  intros _ [Uv Uvs] f rest Hf. destruct f as [|f]; [lia|].
  cbn [parse_items map]. destruct vs as [|v' vs].
  - cbn [join map] in *. rewrite (Hv Uv) by lia.
    cbn. reflexivity.
  - rewrite join_cons by discriminate. rewrite <- !app_assoc.
    pose proof (@join_length_le (u ", ") (dumps v) (map dumps (v' :: vs))).
    pose proof (@join_length_tail (dumps v) (map dumps (v' :: vs))) as Ht.
    cbn [map] in *. rewrite (Hv Uv) by lia.
    change (u ", " ++ ?x) with (44%N :: 32%N :: x).
    cbn [skip_ws lstrip_by is_json_ws N.eqb Pos.eqb orb].
    change (44 =? 44)%N with true. cbn iota.
    rewrite parse_items_space.
    rewrite IH; [reflexivity | discriminate | exact Uvs |].
    specialize (Ht ltac:(discriminate)). lia.
Qed.

Lemma eqb_str_eq a b : eqb_str a b = true <-> a = b.
Proof. unfold eqb_str. destruct (list_eq_dec N.eq_dec a b); split; congruence. Qed.

Lemma eqb_str_refl a : eqb_str a a = true.
Proof. now apply eqb_str_eq. Qed.

Lemma eqb_str_neq a b : eqb_str a b = false <-> a <> b.
Proof. unfold eqb_str. destruct (list_eq_dec N.eq_dec a b); split; congruence. Qed.

Lemma dict_set_fresh (V : Type) k (v : V) d :
  ~ In k (keys d) -> dict_set eqb_str k v d = d ++ [(k, v)].
Proof.
  induction d as [|[k' v'] d IH]; [reflexivity|]. cbn [keys map fst In].
  intros H. cbn [dict_set app].
  destruct (eqb_str k k') eqn:E.
  - apply eqb_str_eq in E. subst. exfalso. apply H. now left.
  - f_equal. apply IH. intros Hin. apply H. now right.
Qed.

Lemma dict_of_pairs_app (V : Type) (l d : list (str * V)) :
  NoDup (keys (d ++ l)) ->
  fold_left (fun d kv => dict_set eqb_str (fst kv) (snd kv) d) l d = d ++ l.
Proof.
  revert d. induction l as [|[k v] l IH]; intros d Hd.
  - now rewrite app_nil_r.
  - cbn [fold_left fst snd]. rewrite dict_set_fresh.
    + rewrite IH; rewrite <- app_assoc; [reflexivity | exact Hd].
    + unfold keys in Hd. rewrite map_app in Hd. cbn [map fst] in Hd.
      apply NoDup_remove_2 in Hd. intros Hin. apply Hd.
      apply in_or_app. now left.
Qed.

Lemma dict_of_pairs_nodup (V : Type) (l : list (str * V)) :
  NoDup (keys l) -> dict_of_pairs eqb_str l = l.
Proof. intros H. unfold dict_of_pairs. now rewrite dict_of_pairs_app. Qed.

Lemma parse_members_dumps members :
  Forall (fun kv => reads (snd kv)) members -> members <> [] ->
  fold_right (fun kv acc => uniq_keys (snd kv) /\ acc) True members ->
  forall f rest,
    S (length (join (u ", ") (map dumps_member members))) <= f ->
    parse_members f (join (u ", ") (map dumps_member members) ++ 125%N :: rest)
    = Some (members, rest).
Proof.
  induction 1 as [|[k v] ms Hv Hms IH]; [congruence|].
  intros _ [Uv Uvs] f rest Hf. destruct f as [|f]; [lia|].
  cbn [snd] in Hv, Uv.
  assert (Hm : forall tail,
             dumps_member (k, v) ++ tail =
             34%N :: (flat_map escape_char k ++ 34%N :: 58%N :: 32%N :: dumps v ++ tail)).
  { intros tail. unfold dumps_member, dumps_str. cbn [fst snd].
    rewrite <- !app_assoc. reflexivity. }
  assert (Hl : length (dumps v) + 4 <= length (dumps_member (k, v))).
  { unfold dumps_member, dumps_str. cbn [fst snd]. rewrite !length_app. cbn. lia. }
  cbn [parse_members map]. destruct ms as [|m' ms].
  - cbn [join map] in *. rewrite Hm.
    cbn [skip_ws lstrip_by is_json_ws N.eqb Pos.eqb orb].
    rewrite scan_dumps_str.
    cbn [skip_ws lstrip_by is_json_ws N.eqb Pos.eqb orb].
    rewrite parse_value_space, (Hv Uv) by lia.
    cbn. reflexivity.
  - rewrite join_cons by discriminate. rewrite <- !app_assoc.
    pose proof (@join_length_le (u ", ") (dumps_member (k, v))
                                (map dumps_member (m' :: ms))).
    pose proof (@join_length_tail (dumps_member (k, v))
                                  (map dumps_member (m' :: ms))) as Ht.
    cbn [map] in *. rewrite Hm.
    cbn [skip_ws lstrip_by is_json_ws N.eqb Pos.eqb orb].
    rewrite scan_dumps_str.
    cbn [skip_ws lstrip_by is_json_ws N.eqb Pos.eqb orb].
    rewrite parse_value_space, (Hv Uv) by lia.
    change (u ", " ++ ?x) with (44%N :: 32%N :: x).
    cbn [skip_ws lstrip_by is_json_ws N.eqb Pos.eqb orb].
    change (44 =? 44)%N with true. cbn iota.
    rewrite parse_members_space.
    rewrite IH; [reflexivity | discriminate | exact Uvs |].
    specialize (Ht ltac:(discriminate)). lia.
Qed.

Lemma dumps_str_app s rest :
  dumps_str s ++ rest = 34%N :: (flat_map escape_char s ++ 34%N :: rest).
Proof. unfold dumps_str. cbn [app]. now rewrite <- app_assoc. Qed.

Lemma dumps_arr_app items rest :
  dumps (JArr items) ++ rest
  = 91%N :: (join (u ", ") (map dumps items) ++ 93%N :: rest).
Proof. cbn [dumps]. rewrite <- !app_assoc. reflexivity. Qed.

Lemma dumps_obj_app members rest :
  dumps (JObj members) ++ rest
  = 123%N :: (join (u ", ") (map dumps_member members) ++ 125%N :: rest).
Proof.
  change (dumps (JObj members))
    with (u "{" ++ join (u ", ") (map dumps_member members) ++ u "}").
  rewrite <- !app_assoc. reflexivity.
Qed.

Lemma dumps_arr_length items :
  length (dumps (JArr items)) = S (S (length (join (u ", ") (map dumps items)))).
Proof. cbn [dumps]. rewrite !length_app. cbn. lia. Qed.

Lemma dumps_obj_length members :
  length (dumps (JObj members))
  = S (S (length (join (u ", ") (map dumps_member members)))).
Proof.
  change (dumps (JObj members))
    with (u "{" ++ join (u ", ") (map dumps_member members) ++ u "}").
  rewrite !length_app. change (length (u "{")) with 1.
  change (length (u "}")) with 1. lia.
Qed.

Lemma dumps_str_length s :
  length (dumps (JStr s)) = S (S (length (flat_map escape_char s))).
Proof. cbn [dumps]. unfold dumps_str. rewrite !length_app. cbn. lia. Qed.

Lemma parse_dumps v : reads v.
Proof.
  induction v as [s | items IH | members IH] using json_induction;
    intros U f rest Hf.
  - destruct f as [|f]; [rewrite dumps_str_length in Hf; lia|].
    cbn [dumps]. rewrite dumps_str_app. cbn [parse_value].
    cbn [skip_ws lstrip_by is_json_ws N.eqb Pos.eqb orb].
    change (34 =? 34)%N with true. cbn iota.
    now rewrite scan_dumps_str.
  - destruct f as [|f]; [rewrite dumps_arr_length in Hf; lia|].
    rewrite dumps_arr_app. cbn [parse_value].
    cbn [skip_ws lstrip_by is_json_ws N.eqb Pos.eqb orb].
    change (91 =? 34)%N with false. change (91 =? 91)%N with true. cbn iota.
    destruct items as [|v vs]; [reflexivity|].
    assert (Hi : parse_items f (join (u ", ") (map dumps (v :: vs)) ++ 93%N :: rest)
                 = Some (v :: vs, rest)).
    { apply parse_items_dumps; [exact IH | discriminate | exact U |].
      rewrite dumps_arr_length in Hf. lia. }
    rewrite Hi.
    cbn [map].
    destruct (dumps_head v) as [t [E | [E | E]]]; rewrite E;
      rewrite join_cons_char_gen; reflexivity.
  - destruct f as [|f]; [rewrite dumps_obj_length in Hf; lia|].
    rewrite dumps_obj_app. cbn [parse_value].
    cbn [skip_ws lstrip_by is_json_ws N.eqb Pos.eqb orb].
    change (123 =? 34)%N with false. change (123 =? 91)%N with false.
    change (123 =? 123)%N with true. cbn iota.
    destruct members as [|[k v] ms]; [reflexivity|].
    destruct U as [Uk Uv].
    assert (Hi : parse_members f
                   (join (u ", ") (map dumps_member ((k, v) :: ms)) ++ 125%N :: rest)
                 = Some ((k, v) :: ms, rest)).
    { apply parse_members_dumps; [exact IH | discriminate | exact Uv |].
      rewrite dumps_obj_length in Hf. lia. }
    rewrite Hi. rewrite dict_of_pairs_nodup by exact Uk.
    cbn [map]. unfold dumps_member at 1, dumps_str. cbn [fst snd app].
    rewrite join_cons_char_gen. reflexivity.
Qed.

(** Reading a written value gives the value back. *)
Lemma loads_dumps v : uniq_keys v -> loads (dumps v) = Some v.
Proof.
  intros U. unfold loads.
  rewrite <- (app_nil_r (dumps v)) at 2.
  rewrite (parse_dumps v U) by lia. reflexivity.
Qed.

End JsonFacts.

(** ** Dictionaries *)

Section DictFacts.
Variables K V : Type.
Variable eqb : K -> K -> bool.
Hypothesis eqb_spec : forall a b, eqb a b = true <-> a = b.

Lemma eqb_same a : eqb a a = true.
Proof. now apply eqb_spec. Qed.

Lemma get_set (k k' : K) (v : V) d :
  dict_get eqb k (dict_set eqb k' v d)
  = if eqb k k' then Some v else dict_get eqb k d.
Proof.
  induction d as [|[k0 v0] d IH]; cbn [dict_set dict_get].
  - reflexivity.
  - destruct (eqb k' k0) eqn:E0; cbn [dict_get].
    + apply eqb_spec in E0. subst k0. now destruct (eqb k k').
    + rewrite IH. destruct (eqb k k0) eqn:E1; [|reflexivity].
      apply eqb_spec in E1. subst k0.
      destruct (eqb k k') eqn:E2; [|reflexivity].
      apply eqb_spec in E2. subst k'. rewrite eqb_same in E0. discriminate.
Qed.

Lemma keys_set (k : K) (v : V) d :
  keys (dict_set eqb k v d)
  = if existsb (eqb k) (keys d) then keys d else keys d ++ [k].
Proof.
  induction d as [|[k0 v0] d IH]; [reflexivity|].
  cbn [dict_set keys map fst existsb]. destruct (eqb k k0) eqn:E0.
  - reflexivity.
  - cbn [map fst orb]. fold (keys d). fold (keys (dict_set eqb k v d)).
    rewrite IH. now destruct (existsb (eqb k) (keys d)).
Qed.

Lemma existsb_eqb_in k (l : list K) : existsb (eqb k) l = true <-> In k l.
Proof.
  rewrite existsb_exists. split.
  - intros [x [Hx E]]. apply eqb_spec in E. now subst.
  - intros H. exists k. split; [exact H | apply eqb_same].
Qed.

Lemma nodup_set (k : K) (v : V) d :
  NoDup (keys d) -> NoDup (keys (dict_set eqb k v d)).
Proof.
  intros H. rewrite keys_set. destruct (existsb (eqb k) (keys d)) eqn:E.
  - exact H.
  - apply NoDup_app; [exact H | repeat constructor; intros [] |].
    intros x Hx [<- | []]. apply existsb_eqb_in in Hx. congruence.
Qed.

Lemma map_set (W : Type) (f : V -> W) (k : K) (v : V) d :
  map (fun kv => (fst kv, f (snd kv))) (dict_set eqb k v d)
  = dict_set eqb k (f v) (map (fun kv => (fst kv, f (snd kv))) d).
Proof.
  induction d as [|[k0 v0] d IH]; [reflexivity|].
  cbn [dict_set map fst snd]. destruct (eqb k k0); cbn [map fst snd].
  - reflexivity.
  - now rewrite IH.
Qed.

Lemma map_get (W : Type) (f : V -> W) (k : K) d :
  dict_get eqb k (map (fun kv => (fst kv, f (snd kv))) d)
  = option_map f (dict_get eqb k d).
Proof.
  induction d as [|[k0 v0] d IH]; [reflexivity|].
  cbn [dict_get map fst snd]. now destruct (eqb k k0).
Qed.
End DictFacts.

(** ** The record *)

Section RecordFacts.

Lemma get_set_record k k' v r :
  get k (set k' v r) = if String.eqb k k' then Some v else get k r.
Proof. apply get_set, String.eqb_eq. Qed.

Lemma shape_set k v r : shape (set k v r) = dict_set String.eqb k (is_int v) (shape r).
Proof. apply map_set. Qed.

Lemma shape_get k r : dict_get String.eqb k (shape r) = option_map is_int (get k r).
Proof. apply map_get. Qed.

Lemma only_changes_refl ks r : only_changes ks r r.
Proof. intros k _. reflexivity. Qed.

Lemma only_changes_trans ks r1 r2 r3 :
  only_changes ks r1 r2 -> only_changes ks r2 r3 -> only_changes ks r1 r3.
Proof. intros H1 H2 k Hk. now rewrite H2, H1. Qed.

Lemma only_changes_set ks k v r :
  existsb (String.eqb k) ks = true -> only_changes ks r (set k v r).
Proof.
  intros Hk k' Hk'. rewrite get_set_record.
  destruct (String.eqb k' k) eqn:E; [|reflexivity].
  apply String.eqb_eq in E. subst. congruence.
Qed.

Lemma only_changes_weaken ks ks' r r' :
  (forall k, existsb (String.eqb k) ks = true -> existsb (String.eqb k) ks' = true) ->
  only_changes ks r r' -> only_changes ks' r r'.
Proof.
  intros Hsub H k Hk. apply H.
  destruct (existsb (String.eqb k) ks) eqn:E; [|reflexivity].
  apply Hsub in E. congruence.
Qed.

Lemma item_shape k r :
  shape r = schema -> existsb (String.eqb k) (keys schema) = true ->
  exists v, item k r = Ok v.
Proof.
  intros Hs Hk. unfold item, dict_item.
  pose proof (shape_get k r) as Hg. rewrite Hs in Hg. unfold get in Hg.
  destruct (dict_get String.eqb k r) as [v|]; [now exists v|].
  exfalso. cbn [option_map] in Hg.
  apply (existsb_eqb_in String.eqb String.eqb_eq) in Hk.
  cbn in Hk.
  repeat (destruct Hk as [<- | Hk]; [discriminate Hg|]). contradiction.
Qed.

End RecordFacts.

(** Closes a goal [shape (set k v r) = schema] from [shape r = schema]. *)
Ltac shape_step :=
  repeat (rewrite shape_set);
  match goal with
  | H : shape _ = schema |- _ => rewrite H; reflexivity
  end.

(** ** The matcher *)

Section MatcherFacts.
Variable ic : bool.
Variable n : nat.
Variable A : Type.

Lemma star_inv cs s (k : str -> option A) x :
  star ic cs s k = Some x ->
  exists j, j <= length s /\ k (skipn j s) = Some x /\
            forallb (char_in ic cs) (firstn j s) = true.
Proof.
  revert k x. induction s as [|c s IH]; intros k x H; cbn [star] in H.
  - exists 0. now repeat split.
  - destruct (char_in ic cs c) eqn:E.
    + destruct (star ic cs s k) as [y|] eqn:Es.
      * injection H as ->. apply IH in Es as [j [Hj [Hk Hall]]].
        exists (S j). cbn [length skipn firstn forallb]. rewrite E, Hall.
        repeat split; [lia | exact Hk].
      * exists 0. repeat split; [cbn; lia | exact H].
    + exists 0. repeat split; [cbn; lia | exact H].
Qed.

Lemma group_free_cap r :
  group_free r = true ->
  forall s cap (k : str -> option str -> option A) x,
    m ic n r s cap k = Some x -> exists s', k s' cap = Some x.
Proof.
  induction r as [|cs|cs|cs|r1 IH1 r2 IH2|r1 IH1 r2 IH2|r1 IH1|r1 IH1| |];
    intros G s cap k x H; cbn [m group_free] in *.
  - now exists s.
  - destruct s as [|c s]; [discriminate|].
    destruct (char_in ic cs c); [now exists s | discriminate].
  - apply star_inv in H as [j [_ [H _]]]. now exists (skipn j s).
  - destruct s as [|c s]; [discriminate|].
    destruct (char_in ic cs c); [|discriminate].
    apply star_inv in H as [j [_ [H _]]]. now exists (skipn j s).
  - apply andb_prop in G as [G1 G2].
    apply (IH1 G1) in H as [s1 H]. now apply (IH2 G2) in H.
  - apply andb_prop in G as [G1 G2].
    destruct (m ic n r1 s cap k) as [y|] eqn:E.
    + injection H as ->. now apply (IH1 G1) in E.
    + now apply (IH2 G2) in H.
  - destruct (m ic n r1 s cap k) as [y|] eqn:E.
    + injection H as ->. now apply (IH1 G) in E.
    + now exists s.
  - discriminate.
  - destruct (length s =? n)%nat; [now exists s | discriminate].
  - destruct s as [|c s]; [now exists []|].
    destruct (list_eq_dec N.eq_dec (c :: s) [10%N]) as [E|E].
    + injection E as -> ->. exists [10%N]. exact H.
    + exfalso. destruct s; destruct c as [|p]; try discriminate;
        repeat (destruct p as [p|p|]; try discriminate); congruence.
Qed.
End MatcherFacts.

Section PatternFacts.

Lemma search_from_inv ic n r s x :
  search_from ic n r s = Some x -> exists s', match_at ic n r s' = Some x.
Proof.
  induction s as [|c s IH]; cbn [search_from]; intros H.
  - destruct (match_at ic n r []) eqn:E; [|discriminate].
    injection H as ->. now exists [].
  - destruct (match_at ic n r (c :: s)) eqn:E.
    + injection H as ->. now exists (c :: s).
    + now apply IH.
Qed.

Lemma forallb_pointwise (X : Type) (f g : X -> bool) l :
  (forall a, f a = g a) -> forallb f l = forallb g l.
Proof.
  intros H. induction l as [|a l IH]; [reflexivity|].
  cbn [forallb]. now rewrite H, IH.
Qed.

Lemma char_in_digit c : char_in true [SDigit] c = isdigit c.
Proof. unfold char_in. cbn [existsb item_match]. now rewrite orb_false_r. Qed.

(** A pattern that begins with the group [(x+)] and has no other group
    captures a non-empty run of [x]. *)
Lemma leading_group ic n cs r s len cap :
  group_free r = true ->
  match_at ic n (Seq (Group (Plus cs)) r) s = Some (len, cap) ->
  exists g, cap = Some g /\ truthy g = true /\
            forallb (char_in ic cs) g = true.
Proof.
  intros G H. unfold match_at in H. cbn [m] in H.
  destruct s as [|c s]; [discriminate|].
  destruct (char_in ic cs c) eqn:Ec; [|discriminate].
  apply star_inv in H as [j [Hj [H Hall]]].
  assert (Hlen : length (c :: s) - length (skipn j s) = S j).
  { rewrite length_skipn. change (length (c :: s)) with (S (length s)). lia. }
  rewrite Hlen in H.
  apply (@group_free_cap ic n _ r G) in H as [s1 H].
  injection H as _ <-. eexists. split; [reflexivity|].
  cbn [firstn truthy forallb]. rewrite Ec, Hall. now split.
Qed.

(** The group of the conviction pattern is a non-empty run of digits. *)
Lemma conviction_group text len cap :
  re_search true re_conviction text = Some (len, cap) ->
  exists g, cap = Some g /\ truthy g = true /\ forallb isdigit g = true.
Proof.
  intros H. apply search_from_inv in H as [s H].
  apply leading_group in H as [g [-> [Hg Hall]]]; [|reflexivity].
  exists g. repeat split; [exact Hg|].
  rewrite <- Hall. apply forallb_pointwise. intros a.
  now rewrite char_in_digit.
Qed.

Lemma convictions_of_ok text :
  convictions_of text
  = (if figure_too_long text then Raise ValueError
     else Ok (conviction_figure text)) /\
  (0 <= conviction_figure text)%Z.
Proof.
  unfold convictions_of, conviction_figure, figure_too_long.
  destruct (re_search true re_conviction text) as [[len cap]|] eqn:E.
  - apply conviction_group in E as [g [-> [Hg Hd]]].
    unfold int_of_str. rewrite Hg, Hd. cbn [andb]. split; [|lia].
    destruct (Nat.leb_spec (length g) max_str_digits) as [Hl|Hl].
    + apply Nat.ltb_ge in Hl. now rewrite Hl.
    + apply Nat.ltb_lt in Hl. now rewrite Hl.
  - split; [reflexivity | lia].
Qed.

End PatternFacts.

(** ** The parts of [parse_candidate] *)

Section StepFacts.

Lemma step_ok_refl ks r : shape r = schema -> step_ok ks r r.
Proof. intros H. split; [exact H | apply only_changes_refl]. Qed.

Lemma step_ok_trans ks r1 r2 r3 :
  step_ok ks r1 r2 -> step_ok ks r2 r3 -> step_ok ks r1 r3.
Proof.
  intros [_ H1] [S2 H2]. split; [exact S2|].
  eapply only_changes_trans; eassumption.
Qed.

Lemma step_ok_set ks k v r r1 :
  existsb (String.eqb k) ks = true ->
  dict_set String.eqb k (is_int v) schema = schema ->
  step_ok ks r r1 -> step_ok ks r (set k v r1).
Proof.
  intros Hk Hs [S1 H1]. split.
  - now rewrite shape_set, S1.
  - eapply only_changes_trans; [exact H1|]. now apply only_changes_set.
Qed.

Lemma step_ok_fold (X : Type) ks (f : cand_record -> X -> cand_record) l :
  (forall r x, shape r = schema -> step_ok ks r (f r x)) ->
  forall r, shape r = schema -> step_ok ks r (fold_left f l r).
Proof.
  intros Hf. induction l as [|x l IH]; intros r Hr; cbn [fold_left].
  - now apply step_ok_refl.
  - pose proof (Hf r x Hr) as H1.
    eapply step_ok_trans; [exact H1|]. apply IH, H1.
Qed.

End StepFacts.

(** Solves [step_ok ks r (set k1 v1 (... r))] when [shape r = schema]. *)
Ltac step_tac :=
  repeat match goal with
         | |- step_ok _ _ (set _ _ _) =>
             apply step_ok_set; [reflexivity | reflexivity |]
         | |- step_ok _ ?r ?r => apply step_ok_refl; assumption
         end.

Section BasicSections.

Lemma name_part_ok es r :
  shape r = schema -> step_ok basic_keys r (name_part es r).
Proof.
  intros Hr. unfold name_part.
  destruct (find_entry (name_in [u "h2"]) es) as [[h2 ?]|];
    destruct (find_entry (name_in [u "h5"]) es) as [[h5 ?]|];
    try destruct (split_on 124 (get_text_sep (u "|") (e_node h5)))
      as [|p0 [|p1 ?]];
    step_tac.
Qed.

Lemma label_step_ok r b :
  shape r = schema -> step_ok basic_keys r (label_step r b).
Proof.
  intros Hr. unfold label_step.
  repeat match goal with
         | |- context [if ?c then _ else _] => destruct c
         end; step_tac.
Qed.

Lemma basic_fields_part_ok es r :
  shape r = schema -> step_ok basic_keys r (basic_fields_part es r).
Proof. apply step_ok_fold. intros; now apply label_step_ok. Qed.

Lemma education_part_ok es r :
  shape r = schema -> step_ok basic_keys r (education_part es r).
Proof.
  intros Hr. unfold education_part.
  destruct (find_entry (heading "Educational") es) as [[h ?]|]; step_tac.
Qed.

End BasicSections.

Section CriminalSection.

Lemma uniq_keys_strs l : uniq_keys (json_of_strs l).
Proof. unfold json_of_strs. cbn [uniq_keys]. induction l; cbn; auto. Qed.

Lemma uniq_keys_case c : uniq_keys (json_of_case c).
Proof.
  unfold json_of_case. cbn [uniq_keys map fst snd fold_right].
  split.
  - repeat constructor; cbn; intuition discriminate.
  - repeat split; apply uniq_keys_strs.
Qed.

Lemma uniq_keys_cases cases : uniq_keys (JArr (map json_of_case cases)).
Proof.
  cbn [uniq_keys]. induction cases as [|c cs IH]; cbn [map fold_right]; [exact I|].
  split; [apply uniq_keys_case | exact IH].
Qed.

Lemma criminal_cases_part_ok soup es r :
  shape r = schema ->
  get "criminal_cases_count" r = Some (PInt 0) ->
  get "convictions_count" r = Some (PInt 0) ->
  if open_criminal_section es &&
     figure_too_long (get_text_strip (u " ") soup)
  then criminal_cases_part soup es r = Raise ValueError
  else
    exists r',
      criminal_cases_part soup es r = Ok r' /\
      step_ok criminal_keys r r' /\
      cases_recorded r' /\
      get "convictions_count" r'
      = Some (PInt (if open_criminal_section es
                    then conviction_figure (get_text_strip (u " ") soup)
                    else 0%Z)).
Proof.
  intros Hr Hc Hv. unfold criminal_cases_part, open_criminal_section.
  destruct (find_entry (heading "Criminal Cases") es) as [[h following]|].
  - destruct (contains (u "No criminal cases")
                       (no_crime_text (find_next_siblings h))).
    + cbn [negb andb].
      eexists. split; [reflexivity|]. split; [step_tac|]. split.
      * exists [], (u "[]"). rewrite !get_set_record. cbn. now repeat split.
      * rewrite !get_set_record. cbn. exact Hv.
    + destruct (convictions_of_ok (get_text_strip (u " ") soup)) as [-> _].
      cbn [negb andb].
      destruct (figure_too_long (get_text_strip (u " ") soup));
        [reflexivity|].
      cbn [bind]. eexists. split; [reflexivity|]. split; [step_tac|]. split.
      * eexists _, _. rewrite !get_set_record. cbn [String.eqb Ascii.eqb Bool.eqb].
        split; [|split; [reflexivity|]].
        2: { apply loads_dumps, uniq_keys_cases. }
        now rewrite length_map.
      * rewrite !get_set_record. reflexivity.
  - cbn [andb]. eexists. split; [reflexivity|]. split; [step_tac|]. split.
    + exists [], (u "[]"). rewrite !get_set_record. cbn. now repeat split.
    + rewrite !get_set_record. cbn. exact Hv.
Qed.

End CriminalSection.

Section TableSections.

Lemma last_item_cons (X : Type) (x : X) l : exists y, last_item (x :: l) = Ok y.
Proof.
  unfold last_item. destruct (rev (x :: l)) as [|y t] eqn:E.
  - apply (f_equal (@length X)) in E. rewrite length_rev in E. discriminate.
  - now exists y.
Qed.

Lemma filter_truthy_any cells :
  any cells = true -> exists c t, filter truthy cells = c :: t.
Proof.
  unfold any. induction cells as [|c cells IH]; [discriminate|].
  cbn [existsb filter]. destruct (truthy c); [eauto|]. exact IH.
Qed.

Lemma nodup_fold_set (X : Type) (kf vf : X -> str) l :
  forall d : dict str str,
    NoDup (keys d) ->
    NoDup (keys (fold_left (fun d x => dict_set eqb_str (kf x) (vf x) d) l d)).
Proof.
  induction l as [|x l IH]; intros d Hd; [exact Hd|].
  cbn [fold_left]. apply IH. apply nodup_set; [apply eqb_str_eq | exact Hd].
Qed.

Lemma nodup_row_dict headers cells : NoDup (keys (make_row_dict headers cells)).
Proof.
  unfold make_row_dict.
  apply (nodup_fold_set
           (fun jc : nat * str =>
              match nth_error headers (fst jc) with
              | Some h => h
              | None => u "col_" ++ str_of_nat (fst jc)
              end) (fun jc => snd jc)).
  constructor.
Qed.

Lemma totals_step_ok r kv :
  shape r = schema -> step_ok immovable_keys r (totals_step r kv).
Proof.
  intros Hr. unfold totals_step.
  repeat match goal with
         | |- context [if ?c then _ else _] => destruct c
         end; step_tac.
Qed.

Lemma imm_step_ok i cells st :
  shape (imm_record st) = schema -> rows_ok (immovable_rows st) ->
  exists st',
    imm_step i cells st = Ok st' /\
    step_ok immovable_keys (imm_record st) (imm_record st') /\
    rows_ok (immovable_rows st').
Proof.
  intros Hr Hrows. unfold imm_step.
  destruct (any cells) eqn:Hany; cbn [negb].
  2: { exists st. split; [reflexivity|].
       split; [now apply step_ok_refl | exact Hrows]. }
  destruct ((i =? 0)%nat || is_header_row cells).
  { eexists. split; [reflexivity|]. cbn [imm_record immovable_rows].
    split; [now apply step_ok_refl | exact Hrows]. }
  set (row_dict := make_row_dict (headers st) cells).
  set (desc := or_str _ _).
  assert (Hrows' : rows_ok (if truthy desc &&
                               negb (matches (re_match true re_total_desc desc))
                            then immovable_rows st ++ [row_dict]
                            else immovable_rows st)).
  { destruct (truthy desc && _); [|exact Hrows].
    apply Forall_app. split; [exact Hrows|].
    constructor; [apply nodup_row_dict | constructor]. }
  destruct (existsb _ cells).
  - destruct (filter_truthy_any cells Hany) as [c [t ->]].
    destruct (last_item_cons c t) as [y ->]. cbn [bind].
    eexists. split; [reflexivity|]. cbn [imm_record immovable_rows].
    split; [|exact Hrows'].
    apply step_ok_set; [reflexivity | reflexivity|].
    apply step_ok_fold; [|exact Hr]. intros; now apply totals_step_ok.
  - eexists. split; [reflexivity|]. cbn [imm_record immovable_rows].
    split; [now apply step_ok_refl | exact Hrows'].
Qed.

Lemma imm_loop_ok all_rows :
  forall i st,
    shape (imm_record st) = schema -> rows_ok (immovable_rows st) ->
    exists st',
      imm_loop i all_rows st = Ok st' /\
      step_ok immovable_keys (imm_record st) (imm_record st') /\
      rows_ok (immovable_rows st').
Proof.
  induction all_rows as [|cells rest IH]; intros i st Hr Hrows; cbn [imm_loop].
  - exists st. split; [reflexivity|].
    split; [now apply step_ok_refl | exact Hrows].
  - destruct (imm_step_ok i cells st Hr Hrows) as [st1 [-> [H1 R1]]]. cbn [bind].
    destruct (IH (S i) st1 (proj1 H1) R1) as [st2 [-> [H2 R2]]].
    exists st2. split; [reflexivity|]. split; [|exact R2].
    eapply step_ok_trans; eassumption.
Qed.

Lemma uniq_keys_dict d : NoDup (keys d) -> uniq_keys (json_of_dict d).
Proof.
  intros H. unfold json_of_dict. cbn [uniq_keys]. split.
  - rewrite map_map. exact H.
  - clear H. induction d; cbn; auto.
Qed.

Lemma uniq_keys_rows rows : rows_ok rows -> uniq_keys (json_of_rows rows).
Proof.
  unfold json_of_rows. cbn [uniq_keys].
  induction 1 as [|d rows Hd _ IH]; cbn [map fold_right]; [exact I|].
  split; [now apply uniq_keys_dict | exact IH].
Qed.

Lemma immovable_assets_part_ok es r :
  shape r = schema ->
  exists r',
    immovable_assets_part es r = Ok r' /\
    step_ok immovable_keys r r' /\
    exists l d, get "immovable_assets_detail" r' = Some (PStr d) /\
                loads d = Some (JArr l).
Proof.
  intros Hr. unfold immovable_assets_part.
  assert (H : exists st,
             match find_entry (heading "Immovable") es with
             | Some (_, following) =>
                 match find_entry (name_in [u "table"]) following with
                 | Some (imm_table, _) =>
                     imm_loop 0 (table_rows (e_node imm_table)) (mk_imm [] [] r)
                 | None => Ok (mk_imm [] [] r)
                 end
             | None => Ok (mk_imm [] [] r)
             end = Ok st /\
             step_ok immovable_keys r (imm_record st) /\
             rows_ok (immovable_rows st)).
  { assert (H0 : exists st, Ok (mk_imm [] [] r) = Ok st /\
                            step_ok immovable_keys r (imm_record st) /\
                            rows_ok (immovable_rows st)).
    { eexists. split; [reflexivity|]. cbn. split; [now apply step_ok_refl | constructor]. }
    destruct (find_entry (heading "Immovable") es) as [[h following]|]; [|exact H0].
    destruct (find_entry (name_in [u "table"]) following) as [[t ?]|]; [|exact H0].
    apply (imm_loop_ok (table_rows (e_node t)) 0 (mk_imm [] [] r)); [exact Hr | constructor]. }
  destruct H as [st [-> [Hst Hrows]]]. cbn [bind].
  eexists. split; [reflexivity|]. split.
  - apply step_ok_set; [reflexivity | reflexivity | exact Hst].
  - eexists _, _. rewrite get_set_record. cbn [String.eqb Ascii.eqb Bool.eqb].
    split; [reflexivity|]. now apply loads_dumps, uniq_keys_rows.
Qed.

(** The liabilities pattern needs at least one character. *)
Lemma liab_total_nonempty : re_search true re_liab_total [] = None.
Proof. reflexivity. Qed.

Lemma lib_step_ok st row :
  shape (snd st) = schema -> NoDup (keys (fst st)) ->
  exists st',
    lib_step st row = Ok st' /\
    step_ok liabilities_keys (snd st) (snd st') /\
    NoDup (keys (fst st')).
Proof.
  intros Hr Hd. unfold lib_step.
  destruct (filter truthy row) as [|c t] eqn:Ecells.
  - cbn [length Nat.leb bind join]. rewrite liab_total_nonempty. cbn [matches].
    eexists. split; [reflexivity|]. split; [now apply step_ok_refl | exact Hd].
  - destruct (last_item_cons c t) as [y Hy]. rewrite Hy.
    assert (H1 : exists d,
               (if (2 <=? length (c :: t))%nat
                then key <- first_item (c :: t) ;;
                     val <- Ok y ;; Ok (dict_set eqb_str key val (fst st))
                else Ok (fst st)) = Ok d /\ NoDup (keys d)).
    { destruct (2 <=? length (c :: t))%nat; cbn [first_item bind].
      - eexists. split; [reflexivity|].
        apply nodup_set; [apply eqb_str_eq | exact Hd].
      - eexists. split; [reflexivity | exact Hd]. }
    destruct H1 as [d [-> Hd']]. cbn [bind].
    destruct (matches _).
    + eexists. split; [reflexivity|]. cbn [fst snd]. split; [step_tac | exact Hd'].
    + eexists. split; [reflexivity|]. cbn [fst snd].
      split; [now apply step_ok_refl | exact Hd'].
Qed.

Lemma lib_loop_ok rows :
  forall st,
    shape (snd st) = schema -> NoDup (keys (fst st)) ->
    exists st',
      lib_loop rows st = Ok st' /\
      step_ok liabilities_keys (snd st) (snd st') /\
      NoDup (keys (fst st')).
Proof.
  induction rows as [|row rest IH]; intros st Hr Hd; cbn [lib_loop].
  - exists st. split; [reflexivity|].
    split; [now apply step_ok_refl | exact Hd].
  - destruct (lib_step_ok st row Hr Hd) as [st1 [-> [H1 D1]]]. cbn [bind].
    destruct (IH st1 (proj1 H1) D1) as [st2 [-> [H2 D2]]].
    exists st2. split; [reflexivity|]. split; [|exact D2].
    eapply step_ok_trans; eassumption.
Qed.

Lemma liabilities_part_ok es r :
  shape r = schema ->
  exists r',
    liabilities_part es r = Ok r' /\
    step_ok liabilities_keys r r' /\
    exists l d, get "liabilities_detail" r' = Some (PStr d) /\
                loads d = Some (JObj l).
Proof.
  intros Hr. unfold liabilities_part.
  assert (H : exists st,
             match find_entry (heading "Liabilit") es with
             | Some (_, following) =>
                 match find_entry (name_in [u "table"]) following with
                 | Some (lib_table, _) =>
                     lib_loop (table_rows (e_node lib_table)) ([], r)
                 | None => Ok ([], r)
                 end
             | None => Ok ([], r)
             end = Ok st /\
             step_ok liabilities_keys r (snd st) /\ NoDup (keys (fst st))).
  { assert (H0 : exists st : lib_state,
               Ok ([], r) = Ok st /\
               step_ok liabilities_keys r (snd st) /\ NoDup (keys (fst st))).
    { eexists. split; [reflexivity|]. cbn. split; [now apply step_ok_refl | constructor]. }
    destruct (find_entry (heading "Liabilit") es) as [[h following]|]; [|exact H0].
    destruct (find_entry (name_in [u "table"]) following) as [[t ?]|]; [|exact H0].
    apply (lib_loop_ok (table_rows (e_node t)) ([], r)); [exact Hr | constructor]. }
  destruct H as [st [-> [Hst Hd]]]. cbn [bind].
  eexists. split; [reflexivity|]. split.
  - apply step_ok_set; [reflexivity | reflexivity | exact Hst].
  - eexists _, _. rewrite get_set_record. cbn [String.eqb Ascii.eqb Bool.eqb].
    split; [reflexivity|]. now apply loads_dumps, uniq_keys_dict.
Qed.

End TableSections.

Section SummarySection.

Lemma keys_set_present k v r v0 :
  get k r = Some v0 -> keys (set k v r) = keys r.
Proof.
  intros H. unfold set. rewrite keys_set.
  destruct (existsb (String.eqb k) (keys r)) eqn:E; [reflexivity|].
  exfalso. unfold get in H. clear v.
  induction r as [|[k0 w] r IH]; [discriminate|].
  cbn [dict_get keys map fst existsb] in *.
  destruct (String.eqb k k0); [discriminate|]. now apply IH.
Qed.

(** One bold figure: the record is kept, or the empty liabilities total
    is filled with the figure. *)
Lemma summary_step_cases r bp r' :
  summary_step r bp = Ok r' ->
  r' = r \/
  (exists v prev,
      get "liabilities_total" r = Some v /\ py_truthy v = false /\
      snd bp = Some prev /\
      contains (u "Liabilities") (clean prev) = true /\
      is_figure (clean (get_text (e_node (fst bp)))) = true /\
      r' = set "liabilities_total"
               (PStr (clean (get_text (e_node (fst bp))))) r).
Proof.
  unfold summary_step. intros H.
  destruct (is_figure _) eqn:Ef; [|injection H as <-; now left].
  destruct (snd bp) as [prev|] eqn:Ep; [|injection H as <-; now left].
  destruct (truthy prev); [|injection H as <-; now left].
  destruct (contains (u "Assets") (clean prev)).
  - destruct (item "immovable_assets_grand_total" r) as [g|]; [|discriminate].
    cbn [bind] in H.
    assert (H' : (if contains (u "Liabilities") (clean prev)
                  then total <- item "liabilities_total" r ;;
                       if negb (py_truthy total)
                       then Ok (set "liabilities_total"
                                    (PStr (clean (get_text (e_node (fst bp))))) r)
                       else Ok r
                  else Ok r) = Ok r').
    { destruct (negb (py_truthy g)); exact H. }
    clear H. destruct (contains (u "Liabilities") (clean prev)) eqn:El;
      [|injection H' as <-; now left].
    unfold item, dict_item in H'. fold (get "liabilities_total" r) in H'.
    destruct (get "liabilities_total" r) as [v|] eqn:Ev; [|discriminate].
    cbn [bind] in H'. destruct (py_truthy v) eqn:Et; cbn [negb] in H';
      injection H' as <-; [now left|].
    right. exists v, prev. repeat split; (assumption || reflexivity).
  - cbn [bind] in H.
    destruct (contains (u "Liabilities") (clean prev)) eqn:El;
      [|injection H as <-; now left].
    unfold item, dict_item in H. fold (get "liabilities_total" r) in H.
    destruct (get "liabilities_total" r) as [v|] eqn:Ev; [|discriminate].
    cbn [bind] in H. destruct (py_truthy v) eqn:Et; cbn [negb] in H;
      injection H as <-; [now left|].
    right. exists v, prev. repeat split; (assumption || reflexivity).
Qed.

Lemma summary_step_frame r bp r' :
  summary_step r bp = Ok r' ->
  only_changes ["liabilities_total"] r r' /\ keys r' = keys r /\
  (forall v, get "liabilities_total" r = Some v -> py_truthy v = true ->
             r' = r) /\
  (forall v, get "liabilities_total" r = Some v -> py_truthy v = true ->
             exists v', get "liabilities_total" r' = Some v' /\
                        py_truthy v' = true).
Proof.
  intros H. apply summary_step_cases in H as [-> | H].
  - split; [apply only_changes_refl|]. split; [reflexivity|]. split; eauto.
  - destruct H as [v [prev [Hv [Ht [_ [_ [_ ->]]]]]]].
    split; [now apply only_changes_set|].
    split; [now apply (keys_set_present _ _ _ Hv)|].
    split; intros v' Hv' Ht'; congruence.
Qed.

Lemma summary_loop_frame bs :
  forall r r',
    summary_loop bs r = Ok r' ->
    only_changes ["liabilities_total"] r r' /\ keys r' = keys r /\
    (forall v, get "liabilities_total" r = Some v -> py_truthy v = true ->
               r' = r).
Proof.
  induction bs as [|bp bs IH]; intros r r' H; cbn [summary_loop] in H.
  - injection H as <-. split; [apply only_changes_refl|]. now split.
  - destruct (summary_step r bp) as [r1|] eqn:E1; [|discriminate].
    cbn [bind] in H. apply summary_step_frame in E1 as [F1 [K1 [S1 T1]]].
    apply IH in H as [F2 [K2 S2]].
    split; [eapply only_changes_trans; eassumption|].
    split; [congruence|].
    intros v Hv Ht. pose proof (S1 v Hv Ht) as ->. eauto.
Qed.

Lemma summary_step_ok r bp :
  shape r = schema ->
  exists r', summary_step r bp = Ok r' /\ step_ok ["liabilities_total"] r r'.
Proof.
  intros Hr.
  destruct (item_shape "immovable_assets_grand_total" r Hr eq_refl) as [g Hg].
  destruct (item_shape "liabilities_total" r Hr eq_refl) as [t Ht].
  unfold summary_step. rewrite Hg, Ht. cbn [bind].
  repeat match goal with
         | |- context [if ?c then _ else _] => destruct c
         | |- context [match snd bp with _ => _ end] => destruct (snd bp)
         end;
    (eexists; split; [reflexivity | step_tac]).
Qed.

Lemma summary_loop_ok bs :
  forall r, shape r = schema ->
            exists r', summary_loop bs r = Ok r' /\
                       step_ok ["liabilities_total"] r r'.
Proof.
  induction bs as [|bp bs IH]; intros r Hr; cbn [summary_loop].
  - exists r. split; [reflexivity | now apply step_ok_refl].
  - destruct (summary_step_ok r bp Hr) as [r1 [-> H1]]. cbn [bind].
    destruct (IH r1 (proj1 H1)) as [r2 [-> H2]].
    exists r2. split; [reflexivity | eapply step_ok_trans; eassumption].
Qed.

End SummarySection.

(** ** The whole extraction *)

Section Extraction.

Lemma step_ok_get ks r r' k :
  step_ok ks r r' -> existsb (String.eqb k) ks = false -> get k r' = get k r.
Proof. intros [_ H]. apply H. Qed.

Lemma cases_recorded_frame ks r r' :
  step_ok ks r r' ->
  existsb (String.eqb "criminal_cases_count") ks = false ->
  existsb (String.eqb "criminal_cases_detail") ks = false ->
  cases_recorded r -> cases_recorded r'.
Proof.
  intros H K1 K2 [l [d [H1 [H2 H3]]]]. exists l, d.
  rewrite (step_ok_get _ H K1), (step_ok_get _ H K2). now repeat split.
Qed.

(** The extraction raises when [int()] refuses the conviction figure, and
    only then; otherwise it returns a complete record. *)
Lemma extract_ok cid url soup :
  if figure_refused soup then extract cid url soup = Raise ValueError
  else
    exists r,
      extract cid url soup = Ok r /\
      shape r = schema /\
      get "candidate_id" r = Some (PInt cid) /\
      get "source_url" r = Some (PStr url) /\
      cases_recorded r /\
      get "convictions_count" r
      = Some (PInt (if open_criminal_section (elements soup)
                    then conviction_figure (get_text_strip (u " ") soup)
                    else 0%Z)) /\
      (exists l d, get "immovable_assets_detail" r = Some (PStr d) /\
                   loads d = Some (JArr l)) /\
      (exists l d, get "liabilities_detail" r = Some (PStr d) /\
                   loads d = Some (JObj l)).
Proof.
  unfold extract, figure_refused. set (es := elements soup).
  set (r0 := initial_record cid url).
  assert (S0 : shape r0 = schema) by reflexivity.
  pose proof (name_part_ok es r0 S0) as B1.
  pose proof (basic_fields_part_ok es _ (proj1 B1)) as B2.
  pose proof (education_part_ok es _ (proj1 B2)) as B3.
  pose proof (step_ok_trans B1 (step_ok_trans B2 B3)) as B.
  set (r3 := education_part es _) in *. clearbody r3. clear B1 B2 B3.
  assert (Hcrime := criminal_cases_part_ok soup es r3 (proj1 B)).
  rewrite !(step_ok_get _ B) in Hcrime by reflexivity.
  specialize (Hcrime eq_refl eq_refl).
  destruct (open_criminal_section es &&
            figure_too_long (get_text_strip (u " ") soup));
    [now rewrite Hcrime|].
  destruct Hcrime as [r4 [-> [C [Hc Hv]]]].
  cbn [bind].
  destruct (immovable_assets_part_ok es r4 (proj1 C)) as [r5 [-> [I [li [di [Hi1 Hi2]]]]]].
  cbn [bind].
  destruct (liabilities_part_ok es r5 (proj1 I)) as [r6 [-> [L [ll [dl [Hl1 Hl2]]]]]].
  cbn [bind]. unfold quick_summary_part.
  destruct (summary_loop_ok
              (filter (fun bp => name_in [u "b"] (e_node (fst bp)))
                      (with_previous None es)) r6 (proj1 L)) as [r7 [-> F]].
  exists r7. split; [reflexivity|]. split; [exact (proj1 F)|].
  split; [|split; [|split; [|split; [|split]]]].
  - rewrite (step_ok_get _ F), (step_ok_get _ L), (step_ok_get _ I),
      (step_ok_get _ C), (step_ok_get _ B) by reflexivity. reflexivity.
  - rewrite (step_ok_get _ F), (step_ok_get _ L), (step_ok_get _ I),
      (step_ok_get _ C), (step_ok_get _ B) by reflexivity. reflexivity.
  - apply (cases_recorded_frame F); [reflexivity | reflexivity|].
    apply (cases_recorded_frame L); [reflexivity | reflexivity|].
    now apply (cases_recorded_frame I).
  - rewrite (step_ok_get _ F), (step_ok_get _ L), (step_ok_get _ I) by reflexivity.
    exact Hv.
  - exists li, di. rewrite (step_ok_get _ F), (step_ok_get _ L) by reflexivity.
    now split.
  - exists ll, dl. rewrite (step_ok_get _ F) by reflexivity. now split.
Qed.




Lemma forallb_weaken (X : Type) (p q : X -> bool) l :
  (forall x, p x = true -> q x = true) ->
  forallb p l = true -> forallb q l = true.
Proof.
  intros H. induction l as [|x l IH]; [reflexivity|]. cbn [forallb].
  intros Hl. apply andb_prop in Hl as [Hx Hl]. now rewrite (H x Hx), IH.
Qed.



End Extraction.

(** * The claims *)

(** C8. [clean] is idempotent; its result is empty or begins and ends with a
    non-blank character; it is the non-blank runs of the input joined by
    single spaces, so every run of blanks inside becomes one space; the empty
    and the absent input give the empty string; and
    [clean("  a   b\n") == "a b"]. *)
Theorem clean_normalizes :
  (forall x, clean (clean x) = clean x) /\
  (forall x, clean x = [] \/
             (starts_word (clean x) = true /\ no_trailing (clean x) = true)) /\
  (forall x, clean x = join (u " ") (words x) /\ Forall proper (words x)) /\
  clean [] = [] /\ clean_opt None = [] /\
  clean (u "  a   b" ++ [10%N]) = u "a b".
Proof.
  split; [exact clean_idempotent|].
  split; [exact clean_trimmed|].
  split; [|now repeat split].
  intros x. split; [apply clean_words | apply words_proper].
Qed.

(** C9. When the fetch fails, [parse_candidate] returns the record with
    exactly the candidate identifier and the error tag. *)
Theorem fetch_failure_record
  (safe_get : str -> option str) (html_parser : str -> list node)
  (candidate_id : Z) :
  safe_get (candidate_url candidate_id) = None ->
  parse_candidate safe_get html_parser candidate_id
  = Ok [("candidate_id", PInt candidate_id);
        ("error", PStr (u "fetch_failed"))].
Proof. intros H. unfold parse_candidate. now rewrite H. Qed.

Lemma fetch_failure_record_witness :
  (fun _ : str => @None str) (candidate_url 6163) = None /\
  parse_candidate (fun _ => None) (fun _ => crime_page) 6163
  = Ok [("candidate_id", PInt 6163); ("error", PStr (u "fetch_failed"))].
Proof.
  split; [reflexivity|].
  apply (fetch_failure_record (fun _ => None) (fun _ => crime_page) 6163).
  reflexivity.
Defined.

(** A page that was fetched is handed to the extraction. *)
Lemma parse_candidate_fetched
  (safe_get : str -> option str) (html_parser : str -> list node)
  (candidate_id : Z) (resp : str) :
  safe_get (candidate_url candidate_id) = Some resp ->
  parse_candidate safe_get html_parser candidate_id
  = extract candidate_id (candidate_url candidate_id)
            (document (html_parser resp)).
Proof. intros H. unfold parse_candidate. now rewrite H. Qed.

(** The loops skip a blank row, and only that row. *)
Section SkippedRows.







End SkippedRows.

(** C1. On a page that was fetched, whenever [parse_candidate] returns a
    record, the case count of the record is the number of elements of the
    array its [criminal_cases_detail] deserializes to.  It returns a record
    on every such page but one on which [int()] refuses the conviction
    figure, where it raises [ValueError]. *)
Theorem count_matches_detail
  (safe_get : str -> option str) (html_parser : str -> list node)
  (candidate_id : Z) (resp : str) :
  safe_get (candidate_url candidate_id) = Some resp ->
  (forall r,
      parse_candidate safe_get html_parser candidate_id = Ok r ->
      exists l d,
        get "criminal_cases_count" r = Some (PInt (Z.of_nat (length l))) /\
        get "criminal_cases_detail" r = Some (PStr d) /\
        loads d = Some (JArr l)) /\
  (if figure_refused (document (html_parser resp))
   then parse_candidate safe_get html_parser candidate_id = Raise ValueError
   else exists r, parse_candidate safe_get html_parser candidate_id = Ok r).
Proof.
  intros H. rewrite (parse_candidate_fetched _ _ _ H).
  pose proof (extract_ok candidate_id (candidate_url candidate_id)
                         (document (html_parser resp))) as E.
  destruct (figure_refused (document (html_parser resp))).
  - split; [|exact E]. intros r Hr. rewrite E in Hr. discriminate.
  - destruct E as [r0 [Hr0 [_ [_ [_ [Hc _]]]]]].
    split; [|now exists r0].
    intros r Hr. rewrite Hr0 in Hr. injection Hr as <-. exact Hc.
Qed.

Lemma count_matches_detail_witness :
  (fun _ : str => Some (u "<html>")) (candidate_url 6163) = Some (u "<html>") /\
  exists r l d,
    parse_candidate (fun _ => Some (u "<html>")) (fun _ => crime_page) 6163
    = Ok r /\
    get "criminal_cases_count" r = Some (PInt (Z.of_nat (length l))) /\
    get "criminal_cases_detail" r = Some (PStr d) /\
    loads d = Some (JArr l).
Proof.
  split; [reflexivity|].
  destruct (count_matches_detail (fun _ => Some (u "<html>"))
                                 (fun _ => crime_page) 6163
                                 (resp := u "<html>") eq_refl) as [H1 H2].
  eexists. destruct (H1 _ eq_refl) as [l [d H]]. exists l, d.
  split; [reflexivity | exact H].
Defined.








(** A figure after the text "Assets and Liabilities:" fills the empty
    liabilities total. *)
Lemma assets_figure_example_fails :
  ~ assets_figure_inert
      (default_record 0 [])
      (mk_entry (Elem (u "b") [Text (u "Rs 5")]) (document []) [])
      (u "Assets and Liabilities:").
Proof.
  intros H.
  pose proof (H eq_refl
                (set "liabilities_total" (PStr (u "Rs 5")) (default_record 0 []))
                eq_refl) as E.
  discriminate E.
Qed.

(** C10, amended.  The pass over the bold figures changes no field but
    [liabilities_total] and adds none, and it changes nothing at all when
    that field is already set.  A figure after a text with "Assets" leaves
    [immovable_assets_grand_total] as it was, also when it is empty, and
    every field other than [liabilities_total]; it fills
    [liabilities_total] only when the same text also contains "Liabilities"
    and that field is still empty, and leaves the whole record as it was
    otherwise. *)
Theorem summary_pass_frame :
  (forall es r r',
      quick_summary_part es r = Ok r' ->
      (forall k, k <> "liabilities_total" -> get k r' = get k r) /\
      keys r' = keys r /\
      (forall v, get "liabilities_total" r = Some v -> py_truthy v = true ->
                 r' = r)) /\
  (forall r b prev r',
      contains (u "Assets") (clean prev) = true ->
      summary_step r (b, Some prev) = Ok r' ->
      get "immovable_assets_grand_total" r'
      = get "immovable_assets_grand_total" r /\
      (forall k, k <> "liabilities_total" -> get k r' = get k r) /\
      (r' = r \/
       (contains (u "Liabilities") (clean prev) = true /\
        (exists v, get "liabilities_total" r = Some v /\ py_truthy v = false) /\
        r' = set "liabilities_total" (PStr (clean (get_text (e_node b)))) r))).
Proof.
  split.
  - intros es r r' H. unfold quick_summary_part in H.
    apply summary_loop_frame in H as [F [K S]].
    split; [|now split]. intros k Hk. apply F.
    cbn [existsb]. rewrite orb_false_r. now apply String.eqb_neq.
  - intros r b prev r' Ha H.
    pose proof (summary_step_frame _ _ H) as [F _].
    split; [now apply F|]. split.
    + intros k Hk. apply F. cbn [existsb]. rewrite orb_false_r.
      now apply String.eqb_neq.
    + apply summary_step_cases in H as [-> | H]; [now left|].
      destruct H as [v [p [Hv [Ht [Hp [Hc [_ ->]]]]]]]. cbn [snd fst] in *.
      injection Hp as <-. right. split; [exact Hc|]. split; [|reflexivity].
      now exists v.
Qed.

Lemma summary_pass_frame_witness :
  (exists r',
      quick_summary_part
        (elements (document [Text (u "Assets:"); Elem (u "b") [Text (u "Rs 5")]]))
        (default_record 6163 []) = Ok r' /\
      keys r' = keys (default_record 6163 [])) /\
  (contains (u "Assets") (clean (u "Assets:")) = true /\
   summary_step (default_record 6163 [])
                (mk_entry (Elem (u "b") [Text (u "Rs 5")]) (document []) [],
                 Some (u "Assets:"))
   = Ok (default_record 6163 []) /\
   get "immovable_assets_grand_total" (default_record 6163 [])
   = get "immovable_assets_grand_total" (default_record 6163 [])).
Proof.
  destruct summary_pass_frame as [H1 H2]. split.
  - eexists. split; [reflexivity|].
    apply (H1 (elements (document [Text (u "Assets:");
                                   Elem (u "b") [Text (u "Rs 5")]]))
              (default_record 6163 [])).
    reflexivity.
  - split; [reflexivity|]. split; [reflexivity|].
    exact (proj1 (H2 (default_record 6163 [])
                     (mk_entry (Elem (u "b") [Text (u "Rs 5")]) (document []) [])
                     (u "Assets:") (default_record 6163 []) eq_refl eq_refl)).
Defined.

(** ** The criminal-case machine *)

Section CaseMachine.

Lemma close_case_open c cases : close_case (Some c, cases) = cases ++ [c].
Proof. reflexivity. Qed.

Lemma crime_step_raw st cells :
  map raw (close_case (crime_step st cells))
  = map raw (close_case st) ++
    (if is_case_header cells then [join (u " | ") cells] else []).
Proof.
  unfold crime_step, is_case_header.
  destruct (any cells); cbn [negb andb]; [|now rewrite app_nil_r].
  destruct (matches (re_search true re_case_header (join (u " | ") cells))).
  - rewrite close_case_open, map_app. reflexivity.
  - rewrite app_nil_r. destruct st as [[c|] cases]; [|reflexivity].
    cbn [fst snd]. rewrite !close_case_open, !map_app. reflexivity.
Qed.

Lemma crime_fold_raw rows :
  forall st,
    map raw (close_case (fold_left crime_step rows st))
    = map raw (close_case st) ++
      map (join (u " | ")) (filter is_case_header rows).
Proof.
  induction rows as [|cells rows IH]; intros st; cbn [fold_left filter map].
  - now rewrite app_nil_r.
  - rewrite IH, crime_step_raw, <- app_assoc.
    now destruct (is_case_header cells).
Qed.

Lemma crime_step_idle cells :
  is_case_header cells = false -> crime_step (None, []) cells = (None, []).
Proof.
  unfold crime_step, is_case_header. destruct (any cells); [|reflexivity].
  cbn [negb andb]. now intros ->.
Qed.

Lemma crime_fold_idle pre :
  forallb (fun cells => negb (is_case_header cells)) pre = true ->
  fold_left crime_step pre (None, []) = (None, []).
Proof.
  induction pre as [|cells pre IH]; [reflexivity|]. cbn [forallb fold_left].
  intros H. apply andb_prop in H as [Hc Hp]. apply negb_true_iff in Hc.
  rewrite crime_step_idle by exact Hc. now apply IH.
Qed.

End CaseMachine.

(** C4. The loop over the rows of the criminal table: a row that matches the
    case pattern opens a case with its text as header after closing the open
    one, so the headers of the cases returned are the texts of the matching
    rows in order; the rows before the first matching row change nothing; a
    case still open after the last row is appended.  On the four rows of the
    example the result is the two cases stated, also through
    [parse_candidate] on a page with that table. *)
Theorem criminal_case_machine :
  (forall st cells,
      is_case_header cells = true ->
      crime_step st cells
      = (Some (mk_case (join (u " | ") cells) [] []), close_case st)) /\
  (forall rows,
      map raw (crime_rows rows)
      = map (join (u " | ")) (filter is_case_header rows)) /\
  (forall pre rows,
      forallb (fun cells => negb (is_case_header cells)) pre = true ->
      crime_rows (pre ++ rows) = crime_rows rows) /\
  (forall rows c cases,
      fold_left crime_step rows (None, []) = (Some c, cases) ->
      crime_rows rows = cases ++ [c]) /\
  crime_rows (cells_of crime_example)
  = [mk_case (u "Case No. 12 of 2020") [u "143"; u "147"]
             [u "IPC Section 143, 147"];
     mk_case (u "Case No. 13 of 2021") [u "323"] []] /\
  (exists r,
      parse_candidate (fun _ => Some (u "<html>")) (fun _ => crime_page) 6163
      = Ok r /\
      get "criminal_cases_count" r = Some (PInt 2) /\
      get "criminal_cases_detail" r
      = Some (PStr (dumps (JArr (map json_of_case
                                     (crime_rows (cells_of crime_example))))))).
Proof.
  split; [|split; [|split; [|split; [|split]]]].
  - intros st cells H. unfold is_case_header in H.
    apply andb_prop in H as [Ha Hm]. unfold crime_step. now rewrite Ha, Hm.
  - intros rows. unfold crime_rows. now rewrite crime_fold_raw.
  - intros pre rows H. unfold crime_rows.
    now rewrite fold_left_app, crime_fold_idle.
  - intros rows c cases H. unfold crime_rows. now rewrite H.
  - vm_compute. reflexivity.
  - eexists. split; [vm_compute; reflexivity|]. split; vm_compute; reflexivity.
Qed.

Lemma criminal_case_machine_witness :
  is_case_header [u "FIR 7"] = true /\
  crime_step (None, []) [u "FIR 7"] = (Some (mk_case (u "FIR 7") [] []), []) /\
  crime_rows ([[u "Sr No"]] ++ cells_of crime_example)
  = crime_rows (cells_of crime_example).
Proof.
  destruct criminal_case_machine as [H1 [_ [H3 _]]].
  split; [reflexivity|]. split.
  - apply (H1 (None, []) [u "FIR 7"]). reflexivity.
  - apply (H3 [[u "Sr No"]]). reflexivity.
Defined.

(** ** The immovable-assets example *)

(** The table as the example gives it: its last row has an empty first cell
    and no cell with the words "Grand Total", so it is listed as a second
    row and sets no total. *)
Lemma immovable_example_fails : ~ immovable_outcome (immovable_example EmptyString).
Proof.
  intros [st [H [Hrows _]]]. vm_compute in H. injection H as <-.
  discriminate Hrows.
Qed.

(** C5, amended.  When the last row of the example carries the label
    "Grand Total" in its first cell, the row list is the one row of the
    agricultural land, and the grand total and the total of the candidate
    are "Rs 5,00,000".  With the empty first cell the example gives, the
    last row is listed as a second row and both totals stay empty. *)
Theorem immovable_grand_total_row :
  immovable_outcome (immovable_example "Grand Total") /\
  (exists r,
      parse_candidate (fun _ => Some (u "<html>"))
                      (fun _ => immovable_page "Grand Total") 6163 = Ok r /\
      get "immovable_assets_detail" r
      = Some (PStr (dumps (json_of_rows [land_row]))) /\
      get "immovable_assets_grand_total" r = Some (PStr (u "Rs 5,00,000")) /\
      get "immovable_assets_total_self" r = Some (PStr (u "Rs 5,00,000"))) /\
  (exists st,
      imm_loop 0 (cells_of (immovable_example EmptyString))
               (mk_imm [] [] (initial_record 0 [])) = Ok st /\
      immovable_rows st
      = [land_row;
         [(u "Description", []); (u "Self", u "Rs 5,00,000");
          (u "Spouse", u "Nil"); (u "Total", u "Rs 5,00,000")]] /\
      get "immovable_assets_grand_total" (imm_record st) = Some (PStr []) /\
      get "immovable_assets_total_self" (imm_record st) = Some (PStr [])).
Proof.
  split; [|split].
  - eexists. split; [vm_compute; reflexivity|]. now repeat split.
  - eexists. split; [vm_compute; reflexivity|]. now repeat split.
  - eexists. split; [vm_compute; reflexivity|]. now repeat split.
Qed.

(** ** The liabilities example *)

Section LiabilityFacts.

Lemma last_item_last (X : Type) (x : X) l : last_item (x :: l) = Ok (last l x).
Proof.
  unfold last_item. revert x. induction l as [|a l IH] using rev_ind; intros x.
  - reflexivity.
  - rewrite last_last. cbn [rev]. rewrite rev_app_distr. reflexivity.
Qed.

Lemma lib_step_lookup st row st' k :
  lib_step st row = Ok st' ->
  dict_get eqb_str k (fst st')
  = match row_entry row with
    | Some (key, v) =>
        if eqb_str k key then Some v else dict_get eqb_str k (fst st)
    | None => dict_get eqb_str k (fst st)
    end.
Proof.
  unfold lib_step, row_entry. intros H.
  destruct (filter truthy row) as [|key [|c rest]].
  - cbn in H. injection H as <-. reflexivity.
  - cbn [length Nat.leb bind] in H.
    destruct (matches _) in H; cbn [last_item rev app bind] in H;
      injection H as <-; reflexivity.
  - change (2 <=? length (key :: c :: rest))%nat with true in H.
    cbn [first_item bind] in H.
    rewrite (last_item_last key (c :: rest)) in H. cbn [bind] in H.
    destruct (matches _) in H; injection H as <-; cbn [fst];
      apply get_set, eqb_str_eq.
Qed.

Lemma lib_loop_lookup rows :
  forall st st' k,
    lib_loop rows st = Ok st' ->
    dict_get eqb_str k (fst st')
    = last_entry k rows (dict_get eqb_str k (fst st)).
Proof.
  induction rows as [|row rows IH]; intros st st' k H; cbn [lib_loop] in H.
  - injection H as <-. reflexivity.
  - destruct (lib_step st row) as [st1|] eqn:E; [|discriminate].
    cbn [bind] in H. rewrite (IH _ _ k H).
    rewrite (lib_step_lookup _ _ k E). unfold last_entry. cbn [fold_left].
    destruct (row_entry row) as [[key v]|]; reflexivity.
Qed.

End LiabilityFacts.

(** The mapping is not the one the example states: the total row has two
    non-empty cells and is recorded as an entry too. *)
Lemma liabilities_example_fails :
  ~ liabilities_outcome [(u "Bank Loan", u "Rs 1,00,000")].
Proof.
  intros [st [H [Hmap _]]]. vm_compute in H. injection H as <-.
  discriminate Hmap.
Qed.

(** C6, amended.  On the two rows of the example the mapping has the entry
    of the loan and the entry of the total row, and the total is
    "Rs 1,00,000".  In general the value the mapping gives a key is the last
    non-empty cell of the last row that has two or more non-empty cells and
    that key as its first non-empty cell. *)
Theorem liabilities_mapping :
  liabilities_outcome [(u "Bank Loan", u "Rs 1,00,000");
                       (u "Grand Total", u "Rs 1,00,000")] /\
  (exists r,
      parse_candidate (fun _ => Some (u "<html>"))
                      (fun _ => liabilities_page) 6163 = Ok r /\
      get "liabilities_detail" r
      = Some (PStr (dumps (json_of_dict
                             [(u "Bank Loan", u "Rs 1,00,000");
                              (u "Grand Total", u "Rs 1,00,000")]))) /\
      get "liabilities_total" r = Some (PStr (u "Rs 1,00,000"))) /\
  (forall rows record st k,
      lib_loop rows ([], record) = Ok st ->
      dict_get eqb_str k (fst st) = last_entry k rows None).
Proof.
  split; [|split].
  - eexists. split; [vm_compute; reflexivity|]. now split.
  - eexists. split; [vm_compute; reflexivity|]. now split.
  - intros rows record st k H. now rewrite (lib_loop_lookup _ _ k H).
Qed.

Lemma liabilities_mapping_witness :
  lib_loop (cells_of [["Loan"; "1"]; ["Loan"; EmptyString; "2"]]) ([], [])
  = Ok ([(u "Loan", u "2")], []) /\
  dict_get eqb_str (u "Loan") [(u "Loan", u "2")]
  = last_entry (u "Loan") (cells_of [["Loan"; "1"]; ["Loan"; EmptyString; "2"]]) None.
Proof.
  split; [reflexivity|].
  exact (proj2 (proj2 liabilities_mapping)
               (cells_of [["Loan"; "1"]; ["Loan"; EmptyString; "2"]]) []
               ([(u "Loan", u "2")], []) (u "Loan") eq_refl).
Defined.

(** ** The text of a page *)

(** A comment and the text of a script are not part of the text of the tags
    around them; a script tag has its own text; and the string before a
    node may be a comment. *)
Example text_by_class :
  get_text (Elem (u "div") [Text (u "a"); Other Comment (u "x");
                            Elem (u "script") [Other Script (u "9 convictions")];
                            Other CData (u "b")]) = u "ab" /\
  get_text (Elem (u "script") [Other Script (u "js")]) = u "js" /\
  map snd (with_previous None
             (elements (document [Other Comment (u "Liabilities");
                                  Elem (u "b") []])))
  = [None; Some (u "Liabilities")].
Proof. repeat split. Qed.

(** ** The conviction count *)

(** A page without a criminal-cases heading whose text says "2 convictions":
    the count stays zero. *)
Lemma convictions_example_fails :
  ~ convictions_from_text [Text (u "2 convictions")].
Proof.
  intros [r [H Hg]]. vm_compute in H. injection H as <-.
  vm_compute in Hg. discriminate Hg.
Qed.

(** C7, amended.  On a page that was fetched, the record that
    [parse_candidate] returns has this conviction count: when the page has a
    criminal-cases heading and the blocks after it do not say "No criminal
    cases", the number captured by the first match of the conviction pattern
    in the text of the whole page, zero without a match, whatever the case
    table holds; on every other page zero.  A record is returned unless
    [int()] refuses that number for its length, and then [ValueError] is
    raised. *)
Theorem convictions_count_source
  (safe_get : str -> option str) (html_parser : str -> list node)
  (candidate_id : Z) (resp : str) :
  safe_get (candidate_url candidate_id) = Some resp ->
  (forall r,
      parse_candidate safe_get html_parser candidate_id = Ok r ->
      get "convictions_count" r
      = Some (PInt (if open_criminal_section
                         (elements (document (html_parser resp)))
                    then conviction_figure
                           (get_text_strip (u " ") (document (html_parser resp)))
                    else 0%Z))) /\
  (if figure_refused (document (html_parser resp))
   then parse_candidate safe_get html_parser candidate_id = Raise ValueError
   else exists r, parse_candidate safe_get html_parser candidate_id = Ok r).
Proof.
  intros H. rewrite (parse_candidate_fetched _ _ _ H).
  pose proof (extract_ok candidate_id (candidate_url candidate_id)
                         (document (html_parser resp))) as E.
  destruct (figure_refused (document (html_parser resp))).
  - split; [|exact E]. intros r Hr. rewrite E in Hr. discriminate.
  - destruct E as [r0 [Hr0 [_ [_ [_ [_ [Hv _]]]]]]].
    split; [|now exists r0].
    intros r Hr. rewrite Hr0 in Hr. injection Hr as <-. exact Hv.
Qed.

Lemma convictions_count_source_witness :
  (fun _ : str => Some (u "<html>")) (candidate_url 6163) = Some (u "<html>") /\
  exists r,
    parse_candidate (fun _ => Some (u "<html>"))
                    (fun _ => [h3 "Criminal Cases"; Text (u "3 Convictions")])
                    6163 = Ok r /\
    get "convictions_count" r = Some (PInt 3).
Proof.
  split; [reflexivity|].
  destruct (convictions_count_source
              (fun _ => Some (u "<html>"))
              (fun _ => [h3 "Criminal Cases"; Text (u "3 Convictions")])
              6163 (resp := u "<html>") eq_refl) as [H1 _].
  eexists. split; [reflexivity|]. exact (H1 _ eq_refl).
Defined.

(** * The rest of the scraper *)

(** ** Retrieval with retries *)

Section SafeGetFacts.
Variable net : world -> str -> option str.

Lemma backoff_log_snoc url first k :
  backoff_log url first (S k)
  = backoff_log url first k ++ [Requested url; Slept (2 * (first + k + 1))].
Proof.
  revert first. induction k as [|k IH]; intros first.
  - cbn [backoff_log app]. now rewrite Nat.add_0_r.
  - change (backoff_log url first (S (S k)))
      with (Requested url :: Slept (2 * (first + 1))
                      :: backoff_log url (S first) (S k)).
    rewrite IH. cbn [backoff_log app].
    now replace (S first + k + 1) with (first + S k + 1) by lia.
Qed.

Lemma safe_get_loop_spec url remaining :
  forall attempt w,
  exists k,
    k <= remaining /\
    (forall i, i < k -> net (w ++ backoff_log url attempt i) url = None) /\
    match fst (safe_get_loop net url attempt remaining w) with
    | Some resp =>
        k < remaining /\
        net (w ++ backoff_log url attempt k) url = Some resp /\
        snd (safe_get_loop net url attempt remaining w)
        = w ++ backoff_log url attempt k ++ [Requested url]
    | None =>
        k = remaining /\
        snd (safe_get_loop net url attempt remaining w)
        = w ++ backoff_log url attempt k
    end.
Proof.
  induction remaining as [|rest IH]; intros attempt w; cbn [safe_get_loop].
  - exists 0. cbn [fst snd backoff_log]. rewrite app_nil_r.
    repeat split; [lia | intros i Hi; lia].
  - destruct (net w url) as [resp|] eqn:E.
    + exists 0. cbn [fst snd backoff_log app]. rewrite app_nil_r.
      repeat split; [lia | intros i Hi; lia | lia | exact E].
    + destruct (IH (S attempt)
                   (w ++ [Requested url; Slept (2 * (attempt + 1))]))
        as [k [Hk [Hfail Hres]]].
      exists (S k). split; [lia|]. split.
      * intros [|i] Hi.
        -- cbn [backoff_log]. now rewrite app_nil_r.
        -- cbn [backoff_log]. specialize (Hfail i ltac:(lia)).
           rewrite <- app_assoc in Hfail. exact Hfail.
      * destruct (fst (safe_get_loop net url (S attempt) rest _)).
        -- destruct Hres as [H1 [H2 H3]]. rewrite <- app_assoc in H2, H3.
           repeat split; [lia | exact H2 | exact H3].
        -- destruct Hres as [H1 H3]. rewrite <- app_assoc in H3.
           split; [lia | exact H3].
Qed.

Lemma seconds_backoff url k :
  forall first,
    seconds_slept (backoff_log url first k) = k * (2 * first + k + 1) /\
    requests (backoff_log url first k) = k /\
    pauses (backoff_log url first k) = 0.
Proof.
  induction k as [|k IH]; intros first; [now cbn|].
  cbn [backoff_log seconds_slept requests pauses].
  destruct (IH (S first)) as [-> [-> ->]]. repeat split. nia.
Qed.

Lemma seconds_slept_app a b :
  seconds_slept (a ++ b) = seconds_slept a + seconds_slept b.
Proof.
  induction a as [|e a IH]; [reflexivity|].
  destruct e; cbn [app seconds_slept]; rewrite IH; lia.
Qed.

Lemma requests_app a b : requests (a ++ b) = requests a + requests b.
Proof.
  induction a as [|e a IH]; [reflexivity|].
  destruct e; cbn [app requests]; rewrite IH; lia.
Qed.

Lemma pauses_app a b : pauses (a ++ b) = pauses a + pauses b.
Proof.
  induction a as [|e a IH]; [reflexivity|].
  destruct e; cbn [app pauses]; rewrite IH; lia.
Qed.

(** What one call adds to the log. *)
Lemma safe_get_log url retries w :
  exists d,
    snd (safe_get net url retries w) = w ++ d /\
    requests d <= retries /\ pauses d = 0 /\
    match fst (safe_get net url retries w) with
    | Some _ =>
        1 <= requests d /\
        seconds_slept d = (requests d - 1) * requests d
    | None =>
        requests d = retries /\ seconds_slept d = retries * (retries + 1)
    end.
Proof.
  unfold safe_get.
  destruct (safe_get_loop_spec url retries 0 w) as [k [Hk [_ Hres]]].
  destruct (seconds_backoff url k 0) as [Hs [Hr Hp]].
  destruct (fst (safe_get_loop net url 0 retries w)).
  - destruct Hres as [Hlt [_ ->]].
    exists (backoff_log url 0 k ++ [Requested url]). split; [reflexivity|].
    rewrite requests_app, pauses_app, seconds_slept_app, Hs, Hr, Hp.
    cbn [requests pauses seconds_slept]. repeat split; try lia.
  - destruct Hres as [-> ->].
    exists (backoff_log url 0 retries). split; [reflexivity|].
    rewrite Hs, Hr, Hp. repeat split; try lia.
Qed.

End SafeGetFacts.

(** X1. [safe_get] returns the page of the first attempt that succeeds
    among [retries] attempts, each failed attempt before it followed by a
    back-off of 2, 4, 6, ... seconds, and sends nothing after the success;
    when every attempt fails it returns [None] after [retries] requests. *)
Theorem safe_get_first_success
  (net : world -> str -> option str) (url : str) (retries : nat) (w : world) :
  exists k,
    k <= retries /\
    (forall i, i < k -> net (w ++ backoff_log url 0 i) url = None) /\
    match fst (safe_get net url retries w) with
    | Some resp =>
        k < retries /\
        net (w ++ backoff_log url 0 k) url = Some resp /\
        snd (safe_get net url retries w)
        = w ++ backoff_log url 0 k ++ [Requested url]
    | None =>
        k = retries /\
        snd (safe_get net url retries w) = w ++ backoff_log url 0 k
    end.
Proof. apply safe_get_loop_spec. Qed.

(** X2. One call of [safe_get] only adds to the log: at most [retries]
    requests and no polite pause.  After [n] requests ending in a success it
    has slept [(n - 1) * n] seconds; after a failure it has sent [retries]
    requests and slept [retries * (retries + 1)] seconds (12 for the three
    retries of the program), the last back-off coming after the last attempt. *)
Theorem safe_get_cost
  (net : world -> str -> option str) (url : str) (retries : nat) (w : world) :
  exists d,
    snd (safe_get net url retries w) = w ++ d /\
    requests d <= retries /\ pauses d = 0 /\
    match fst (safe_get net url retries w) with
    | Some _ =>
        1 <= requests d /\ seconds_slept d = (requests d - 1) * requests d
    | None =>
        requests d = retries /\ seconds_slept d = retries * (retries + 1) /\
        (retries = 0 \/ exists d', d = d' ++ [Slept (2 * retries)])
    end.
Proof.
  destruct (safe_get_log net url retries w) as [d [Hd [Hr [Hp Hm]]]].
  exists d. split; [exact Hd|]. split; [exact Hr|]. split; [exact Hp|].
  destruct (safe_get_loop_spec net url retries 0 w) as [k [_ [_ Hres]]].
  unfold safe_get in *.
  destruct (fst (safe_get_loop net url 0 retries w)); [exact Hm|].
  destruct Hm as [H1 H2]. split; [exact H1|]. split; [exact H2|].
  destruct Hres as [-> Hw]. rewrite Hd in Hw. apply app_inv_head in Hw.
  destruct retries as [|n]; [now left|]. right.
  rewrite Hw, backoff_log_snoc.
  exists (backoff_log url 0 n ++ [Requested url]).
  rewrite <- app_assoc. cbn [app]. now replace (0 + n + 1) with (S n) by lia.
Qed.

(** ** Removing duplicates *)

Section DedupeFacts.
Variable A : Type.
Variable key : A -> Z.

Lemma existsb_snoc (k : Z) seen x :
  existsb (Z.eqb k) (seen ++ [x]) = existsb (Z.eqb k) seen || (k =? x)%Z.
Proof. rewrite existsb_app. cbn [existsb]. now rewrite orb_false_r. Qed.

Lemma filter_filter (p q : A -> bool) l :
  filter p (filter q l) = filter (fun y => p y && q y) l.
Proof.
  induction l as [|y l IH]; [reflexivity|]. cbn [filter].
  destruct (q y); cbn [filter]; rewrite IH, ?andb_true_r, ?andb_false_r;
    reflexivity.
Qed.

Lemma filter_pointwise (p q : A -> bool) l :
  (forall y, p y = q y) -> filter p l = filter q l.
Proof.
  intros H. induction l as [|y l IH]; [reflexivity|].
  cbn [filter]. now rewrite H, IH.
Qed.

(** The loop from any state, by the loop from the empty state. *)
Lemma dedupe_from l :
  forall seen unique,
    snd (fold_left (dedupe_step key) l (seen, unique))
    = unique ++ filter (fun y => negb (existsb (Z.eqb (key y)) seen))
                       (dedupe key l).
Proof.
  induction l as [|x l IH]; intros seen unique.
  - cbn. now rewrite app_nil_r.
  - unfold dedupe. cbn [fold_left]. unfold dedupe_step at 2 4.
    cbn [fst snd existsb app]. rewrite (IH [key x] [x]).
    cbn [app filter].
    destruct (existsb (Z.eqb (key x)) seen) eqn:E; cbn [negb].
    + rewrite IH, filter_filter. f_equal. apply filter_pointwise.
      intros y. cbn [existsb]. rewrite orb_false_r.
      destruct (key y =? key x)%Z eqn:Ey; cbn [negb];
        [|now rewrite andb_true_r].
      apply Z.eqb_eq in Ey. rewrite Ey, E. reflexivity.
    + rewrite IH, <- app_assoc. cbn [app]. do 2 f_equal.
      rewrite filter_filter. apply filter_pointwise. intros y.
      rewrite existsb_snoc. cbn [existsb]. rewrite orb_false_r.
      now rewrite negb_orb.
Qed.

Lemma dedupe_cons x l :
  dedupe key (x :: l)
  = x :: filter (fun y => negb (key y =? key x)%Z) (dedupe key l).
Proof.
  unfold dedupe at 1. cbn [fold_left]. unfold dedupe_step at 2.
  cbn [fst snd existsb app]. rewrite dedupe_from. cbn [app]. f_equal.
  apply filter_pointwise. intros y. cbn [existsb]. now rewrite orb_false_r.
Qed.

Lemma in_map_filter (p : A -> bool) l k :
  In k (map key (filter p l)) -> In k (map key l).
Proof.
  rewrite !in_map_iff. intros [y [<- Hy]]. apply filter_In in Hy.
  exists y. now split.
Qed.

Lemma nodup_map_filter (p : A -> bool) l :
  NoDup (map key l) -> NoDup (map key (filter p l)).
Proof.
  induction l as [|y l IH]; [intros _; constructor|].
  cbn [map filter]. intros H. inversion H as [|? ? Hn Hl]; subst.
  destruct (p y); [|now apply IH].
  cbn [map]. constructor; [|now apply IH].
  intros Hin. apply Hn. now apply in_map_filter in Hin.
Qed.

Lemma dedupe_nodup l : NoDup (map key (dedupe key l)).
Proof.
  induction l as [|x l IH]; [constructor|].
  rewrite dedupe_cons. cbn [map]. constructor.
  - rewrite in_map_iff. intros [y [Hk Hy]]. apply filter_In in Hy as [_ Hy].
    rewrite Hk, Z.eqb_refl in Hy. discriminate.
  - now apply nodup_map_filter.
Qed.

Lemma find_filter_other (p q : A -> bool) l :
  (forall y, p y = true -> q y = true) ->
  find p (filter q l) = find p l.
Proof.
  intros H. induction l as [|y l IH]; [reflexivity|]. cbn [filter find].
  destruct (p y) eqn:E.
  - rewrite (H y E). cbn [find]. now rewrite E.
  - destruct (q y); cbn [find]; rewrite ?E; exact IH.
Qed.

Lemma dedupe_find l k :
  find (fun y => (key y =? k)%Z) (dedupe key l)
  = find (fun y => (key y =? k)%Z) l.
Proof.
  induction l as [|x l IH]; [reflexivity|].
  rewrite dedupe_cons. cbn [find].
  destruct (key x =? k)%Z eqn:E; [reflexivity|].
  rewrite find_filter_other; [exact IH|].
  intros y Hy. apply Z.eqb_eq in Hy. rewrite Hy.
  rewrite Z.eqb_sym, E. reflexivity.
Qed.



End DedupeFacts.

(** X3. The loop that removes duplicates keeps, of the entries with one
    identifier, the first and only the first, and leaves the entries it
    keeps in the order of the page: the identifiers of the result are
    pairwise distinct, the entry found for an identifier in the result is
    the first entry with that identifier in the input, and the result for
    [x :: l] is [x] followed by the result for [l] without the entries that
    have the identifier of [x]. *)
Theorem dedupe_keeps_first (A : Type) (key : A -> Z) (l : list A) :
  NoDup (map key (dedupe key l)) /\
  (forall k, find (fun y => (key y =? k)%Z) (dedupe key l)
             = find (fun y => (key y =? k)%Z) l) /\
  (forall x, dedupe key (x :: l)
             = x :: filter (fun y => negb (key y =? key x)%Z) (dedupe key l)).
Proof.
  split; [apply dedupe_nodup|]. split; [apply dedupe_find|].
  intros x. apply dedupe_cons.
Qed.

(** ** The links of a listing page *)

Section LinkFacts.

Lemma char_in_digit_exact c : char_in false [SDigit] c = isdigit c.
Proof. unfold char_in. cbn [existsb item_match]. now rewrite orb_false_r. Qed.

(** A pattern that ends with the group [(x+)] and has no other group
    captures a non-empty run of [x]. *)
Lemma trailing_group ic n cs r s len cap :
  group_free r = true ->
  match_at ic n (Seq r (Group (Plus cs))) s = Some (len, cap) ->
  exists g, cap = Some g /\ truthy g = true /\
            forallb (char_in ic cs) g = true.
Proof.
  intros G H. unfold match_at in H. cbn [m] in H.
  apply (@group_free_cap ic n _ r G) in H as [s1 H].
  destruct s1 as [|c s1]; [discriminate|].
  destruct (char_in ic cs c) eqn:Ec; [|discriminate].
  apply star_inv in H as [j [Hj [H Hall]]].
  assert (Hlen : length (c :: s1) - length (skipn j s1) = S j).
  { rewrite length_skipn. change (length (c :: s1)) with (S (length s1)). lia. }
  rewrite Hlen in H. injection H as _ <-.
  eexists. split; [reflexivity|].
  cbn [firstn truthy forallb]. rewrite Ec, Hall. now split.
Qed.

Variable prefix : regex.
Hypothesis prefix_free : group_free prefix = true.

Let r := Seq prefix (Group (Plus [SDigit])).

Lemma link_group href len cap :
  re_search false r href = Some (len, cap) ->
  exists g, cap = Some g /\ truthy g = true /\ forallb isdigit g = true.
Proof.
  intros H. apply search_from_inv in H as [s H].
  apply trailing_group in H as [g [-> [Hg Hall]]]; [|exact prefix_free].
  exists g. repeat split; [exact Hg|].
  rewrite <- Hall. apply forallb_pointwise. intros a.
  now rewrite char_in_digit_exact.
Qed.

(** [m.group(1)] is there and [int()] takes it, unless it is too long. *)
Lemma link_id_ok word href :
  link_id r word href
  = if link_refused r word href then Raise ValueError
    else Ok (link_number r word href).
Proof.
  unfold link_id, link_refused, link_number, link_digits.
  destruct (re_search false r href) as [[len cap]|] eqn:E; [|reflexivity].
  apply link_group in E as [g [-> [Hg Hd]]].
  destruct (contains (u word) href); [|reflexivity].
  unfold int_of_str. rewrite Hg, Hd. cbn [andb option_map].
  destruct (Nat.leb_spec (length g) max_str_digits) as [Hl|Hl].
  - apply Nat.ltb_ge in Hl. now rewrite Hl.
  - apply Nat.ltb_lt in Hl. now rewrite Hl.
Qed.

Lemma collect_ok (A : Type) word (entry_of : Z -> anchor -> A) anchors :
  forall acc,
    collect r word entry_of anchors acc
    = if refused_link r word anchors then Raise ValueError
      else Ok (acc ++ links r word entry_of anchors).
Proof.
  unfold refused_link.
  induction anchors as [|a rest IH]; intros acc.
  - cbn. now rewrite app_nil_r.
  - cbn [collect existsb]. rewrite link_id_ok.
    destruct (link_refused r word (href a)); [reflexivity|].
    cbn [bind orb]. rewrite IH.
    destruct (existsb (fun a0 => link_refused r word (href a0)) rest);
      [reflexivity|].
    unfold links. cbn [flat_map].
    destruct (link_number r word (href a)); cbn [app];
      [now rewrite <- app_assoc | reflexivity].
Qed.



Variable net : world -> str -> option str.
Variable anchor_parser : str -> list anchor.

Lemma listing_ok (A : Type) url word (key : A -> Z)
      (entry_of : Z -> anchor -> A) w :
  listing net anchor_parser url r word key entry_of w
  = match fst (safe_get net url 3 w) with
    | Some resp =>
        if refused_link r word (anchor_parser resp) then Raise ValueError
        else Ok (dedupe key (links r word entry_of (anchor_parser resp)),
                 snd (safe_get net url 3 w))
    | None => Ok ([], snd (safe_get net url 3 w))
    end.
Proof.
  unfold listing. destruct (safe_get net url 3 w) as [[resp|] w1];
    [|reflexivity].
  rewrite collect_ok. cbn [fst snd].
  now destruct (refused_link r word (anchor_parser resp)).
Qed.


End LinkFacts.



(** ** The orchestrators *)

Section ScraperFacts.
Variable net : world -> str -> option str.
Variable html_parser : str -> list node.
Variable anchor_parser : str -> list anchor.
Variable DELAY_SEC : delay.

Lemma set_absent k v (r : cand_record) :
  get k r = None -> set k v r = r ++ [(k, v)].
Proof.
  unfold get, set. induction r as [|[k0 v0] r IH]; [reflexivity|].
  cbn [dict_get dict_set app]. destruct (String.eqb k k0); [discriminate|].
  intros H. now rewrite IH.
Qed.

Lemma get_app_other k k' v (r : cand_record) :
  String.eqb k k' = false -> get k (r ++ [(k', v)]) = get k r.
Proof.
  intros E. unfold get. induction r as [|[k0 v0] r IH].
  - cbn [app dict_get]. now rewrite E.
  - cbn [app dict_get]. now rewrite IH.
Qed.

(** A page that [safe_get] returns is a page the network served. *)
Lemma safe_get_served url retries w resp :
  fst (safe_get net url retries w) = Some resp ->
  exists w0, net w0 url = Some resp.
Proof.
  intros H. unfold safe_get in H.
  destruct (safe_get_loop_spec net url retries 0 w) as [k [_ [_ Hres]]].
  rewrite H in Hres. destruct Hres as [_ [Hnet _]]. eauto.
Qed.

Lemma served_figure url retries w resp :
  fst (safe_get net url retries w) = Some resp ->
  figure_refused (document (html_parser resp)) = true ->
  ~ well_served net html_parser anchor_parser.
Proof.
  intros H F W. apply safe_get_served in H as [w0 H].
  destruct (W w0 url resp H) as [_ [_ K]]. congruence.
Qed.

Lemma served_candidate_link url retries w resp :
  fst (safe_get net url retries w) = Some resp ->
  refused_link re_candidate_id "candidate.php" (anchor_parser resp) = true ->
  ~ well_served net html_parser anchor_parser.
Proof.
  intros H F W. apply safe_get_served in H as [w0 H].
  destruct (W w0 url resp H) as [_ [K _]]. congruence.
Qed.



(** What [parse_candidate] gives, by the outcome of the fetch. *)
Lemma parse_candidate_scraped (sg : str -> option str) cid :
  match sg (candidate_url cid) with
  | Some resp =>
      if figure_refused (document (html_parser resp))
      then parse_candidate sg html_parser cid = Raise ValueError
      else exists r,
          parse_candidate sg html_parser cid = Ok r /\
          scraped cid r /\
          extract cid (candidate_url cid) (document (html_parser resp)) = Ok r
  | None => parse_candidate sg html_parser cid = Ok (error_record cid)
  end.
Proof.
  unfold parse_candidate. destruct (sg (candidate_url cid)) as [resp|];
    [|reflexivity].
  pose proof (extract_ok cid (candidate_url cid)
                         (document (html_parser resp))) as E.
  destruct (figure_refused (document (html_parser resp))); [exact E|].
  destruct E as [r [E [Hs [Hid [_ [[l [d [Hc _]]] _]]]]]].
  exists r. split; [exact E|]. split; [|exact E].
  split; [exact Hid|]. split.
  - pose proof (shape_get "constituency_name" r) as Hg.
    rewrite Hs in Hg. destruct (get "constituency_name" r);
      [discriminate | reflexivity].
  - exists (Z.of_nat (length l)). split; [lia|].
    unfold cases_of. now rewrite Hc.
Qed.

Lemma scraped_error cid : scraped cid (error_record cid).
Proof.
  split; [reflexivity|]. split; [reflexivity|].
  exists 0%Z. split; [lia | reflexivity].
Qed.

Lemma parse_candidate_io_cases cid w :
  match parse_candidate_io net html_parser cid w with
  | Ok (r, w') =>
      w' = snd (safe_get net (candidate_url cid) 3 w) /\ scraped cid r /\
      match fst (safe_get net (candidate_url cid) 3 w) with
      | Some resp =>
          figure_refused (document (html_parser resp)) = false /\
          extract cid (candidate_url cid) (document (html_parser resp)) = Ok r
      | None => r = error_record cid
      end
  | Raise e =>
      e = ValueError /\
      exists resp,
        fst (safe_get net (candidate_url cid) 3 w) = Some resp /\
        figure_refused (document (html_parser resp)) = true
  end.
Proof.
  unfold parse_candidate_io.
  pose proof (parse_candidate_scraped
                (fun url => fst (safe_get net url 3 w)) cid) as P.
  cbv beta in P.
  destruct (fst (safe_get net (candidate_url cid) 3 w)) as [resp|].
  - destruct (figure_refused (document (html_parser resp))) eqn:F.
    + rewrite P. cbn [bind]. split; [reflexivity|]. now exists resp.
    + destruct P as [r [-> [Hs He]]]. cbn [bind].
      split; [reflexivity|]. split; [exact Hs|]. now split.
  - rewrite P. cbn [bind]. split; [reflexivity|].
    split; [apply scraped_error | reflexivity].
Qed.

Lemma safe_get_counts url w :
  requests w <= requests (snd (safe_get net url 3 w)) /\
  requests (snd (safe_get net url 3 w)) <= requests w + 3 /\
  pauses (snd (safe_get net url 3 w)) = pauses w.
Proof.
  destruct (safe_get_log net url 3 w) as [d [-> [Hr [Hp _]]]].
  rewrite requests_app, pauses_app. lia.
Qed.

Lemma pause_cases w :
  match pause DELAY_SEC w with
  | Ok (_, w') => DELAY_SEC = Seconds /\ w' = w ++ [Paused]
  | Raise e => raise_cause net html_parser anchor_parser DELAY_SEC e
  end.
Proof.
  unfold pause. destruct DELAY_SEC; cbn [raise_cause]; auto.
Qed.

Lemma figure_cause resp url retries w :
  fst (safe_get net url retries w) = Some resp ->
  figure_refused (document (html_parser resp)) = true ->
  raise_cause net html_parser anchor_parser DELAY_SEC ValueError.
Proof.
  intros H F. cbn [raise_cause]. right. right.
  exact (served_figure _ _ _ H F).
Qed.

(** The loop over the candidates: one record for each, in order, and one
    pause after each; or an exception with its cause. *)
Lemma scrape_candidates_cases tag candidates :
  forall records w,
    match scrape_candidates net html_parser DELAY_SEC tag candidates
                            records w with
    | Ok (res, w') =>
        exists new,
          res = records ++ map tag new /\
          Forall2 (fun c r => scraped (candidate_id c) r) candidates new /\
          pauses w' = pauses w + length new /\
          requests w <= requests w' /\
          requests w' <= requests w + 3 * length new
    | Raise e => raise_cause net html_parser anchor_parser DELAY_SEC e
    end.
Proof.
  induction candidates as [|c rest IH]; intros records w.
  - cbn [scrape_candidates io_ret]. exists []. cbn [map length].
    rewrite app_nil_r. repeat split; [constructor | lia | lia | lia].
  - cbn [scrape_candidates]. unfold io_bind at 1.
    pose proof (parse_candidate_io_cases (candidate_id c) w) as P.
    destruct (parse_candidate_io net html_parser (candidate_id c) w)
      as [[r w1]|e].
    2: { destruct P as [-> [resp [H F]]]. exact (figure_cause _ _ _ H F). }
    destruct P as [-> [Hs _]]. unfold io_bind at 1.
    set (w1 := snd (safe_get net (candidate_url (candidate_id c)) 3 w)).
    pose proof (pause_cases w1) as Q.
    destruct (pause DELAY_SEC w1) as [[[] w2]|e]; [|exact Q].
    destruct Q as [_ ->].
    specialize (IH (records ++ [tag r]) (w1 ++ [Paused])).
    destruct (scrape_candidates net html_parser DELAY_SEC tag rest
                                (records ++ [tag r]) (w1 ++ [Paused]))
      as [[res w']|e]; [|exact IH].
    destruct IH as [new [-> [Hall [Hp [Hr1 Hr2]]]]].
    exists (r :: new). cbn [map length].
    rewrite <- app_assoc. cbn [app]. split; [reflexivity|].
    split; [now constructor|].
    destruct (safe_get_counts (candidate_url (candidate_id c)) w)
      as [G1 [G2 G3]]. fold w1 in G1, G2, G3.
    rewrite requests_app, pauses_app in *.
    cbn [requests pauses] in *. lia.
Qed.

Lemma get_candidate_ids_cases cid w :
  match get_candidate_ids net anchor_parser cid w with
  | Ok (l, w') =>
      w' = snd (safe_get net (candidates_url cid) 3 w) /\
      match fst (safe_get net (candidates_url cid) 3 w) with
      | Some _ => True
      | None => l = []
      end
  | Raise e => raise_cause net html_parser anchor_parser DELAY_SEC e
  end.
Proof.
  unfold get_candidate_ids, re_candidate_id.
  rewrite listing_ok by reflexivity.
  destruct (fst (safe_get net (candidates_url cid) 3 w)) as [resp|] eqn:H;
    [|now split].
  fold re_candidate_id.
  destruct (refused_link re_candidate_id "candidate.php"
                         (anchor_parser resp)) eqn:F; [|now split].
  cbn [raise_cause]. right. right.
  exact (served_candidate_link _ _ _ H F).
Qed.



Lemma tagged_with con c r :
  scraped (candidate_id c) r -> tagged con c (with_constituency con r).
Proof.
  intros H. exists r. split; [exact H|].
  unfold with_constituency. apply set_absent. apply H.
Qed.

Lemma forall2_tagged con candidates new :
  Forall2 (fun c r => scraped (candidate_id c) r) candidates new ->
  Forall2 (tagged con) candidates (map (with_constituency con) new).
Proof.
  induction 1 as [|c r cs rs H Hall IH]; [constructor|].
  cbn [map]. constructor; [now apply tagged_with | exact IH].
Qed.

(** The loop over the constituencies. *)
Lemma scrape_constituencies_cases outer_pause constituencies :
  forall records w,
    match scrape_constituencies net html_parser anchor_parser DELAY_SEC
                                outer_pause constituencies records w with
    | Ok (res, w') =>
        exists groups,
          res = records ++ List.concat groups /\
          Forall2 (fun con group =>
                     exists candidates wi,
                       get_candidate_ids net anchor_parser
                                         (constituency_id con) wi
                       = Ok (candidates,
                             snd (safe_get net (candidates_url
                                                  (constituency_id con))
                                           3 wi)) /\
                       Forall2 (tagged con) candidates group)
                  constituencies groups /\
          pauses w' = pauses w + length (List.concat groups)
                      + (if outer_pause then length constituencies else 0) /\
          requests w <= requests w' /\
          requests w' <= requests w
                         + 3 * (length constituencies
                                + length (List.concat groups))
    | Raise e => raise_cause net html_parser anchor_parser DELAY_SEC e
    end.
Proof.
  induction constituencies as [|con rest IH]; intros records w.
  - cbn [scrape_constituencies io_ret]. exists [].
    cbn [List.concat length]. rewrite app_nil_r.
    repeat split; [constructor | | lia | lia].
    destruct outer_pause; lia.
  - cbn [scrape_constituencies]. unfold io_bind at 1.
    pose proof (get_candidate_ids_cases (constituency_id con) w) as L.
    destruct (get_candidate_ids net anchor_parser (constituency_id con) w)
      as [[candidates w1]|e] eqn:E; [|exact L].
    destruct L as [-> _].
    set (w1 := snd (safe_get net (candidates_url (constituency_id con)) 3 w))
      in *.
    unfold io_bind at 1.
    pose proof (scrape_candidates_cases (with_constituency con) candidates
                                        records w1) as C.
    destruct (scrape_candidates net html_parser DELAY_SEC
                                (with_constituency con) candidates records w1)
      as [[res w2]|e]; [|exact C].
    destruct C as [new [-> [Hall [Hp [Hr1 Hr2]]]]].
    unfold io_bind at 1.
    assert (Q : match (if outer_pause then pause DELAY_SEC else io_ret tt) w2
                with
                | Ok (_, w3) =>
                    pauses w3 = pauses w2 + (if outer_pause then 1 else 0) /\
                    requests w3 = requests w2
                | Raise e =>
                    raise_cause net html_parser anchor_parser DELAY_SEC e
                end).
    { destruct outer_pause.
      - pose proof (pause_cases w2) as Q.
        destruct (pause DELAY_SEC w2) as [[[] w3]|e]; [|exact Q].
        destruct Q as [_ ->]. rewrite pauses_app, requests_app. cbn. lia.
      - cbn [io_ret]. lia. }
    destruct ((if outer_pause then pause DELAY_SEC else io_ret tt) w2)
      as [[[] w3]|e]; [|exact Q].
    destruct Q as [P3 R3].
    specialize (IH (records ++ map (with_constituency con) new) w3).
    destruct (scrape_constituencies net html_parser anchor_parser DELAY_SEC
                outer_pause rest
                (records ++ map (with_constituency con) new) w3)
      as [[res w']|e]; [|exact IH].
    destruct IH as [groups [-> [Hg [Hp' [Hr1' Hr2']]]]].
    exists (map (with_constituency con) new :: groups).
    cbn [List.concat length]. rewrite <- app_assoc.
    split; [reflexivity|]. split.
    + constructor; [|exact Hg]. exists candidates, w.
      split; [exact E | now apply forall2_tagged].
    + destruct (safe_get_counts (candidates_url (constituency_id con)) w)
        as [G1 [G2 G3]]. fold w1 in G1, G2, G3.
      rewrite length_app, length_map.
      destruct outer_pause; lia.
Qed.

Lemma cases_of_scraped cid r :
  scraped cid r -> exists n, (0 <= n)%Z /\ cases_of r = Ok n.
Proof. intros [_ [_ H]]. exact H. Qed.

Lemma cases_of_tagged con c r :
  tagged con c r -> exists n, (0 <= n)%Z /\ cases_of r = Ok n.
Proof.
  intros [r0 [[_ [_ [n [Hn Hc]]]] ->]]. exists n. split; [exact Hn|].
  unfold cases_of in *. now rewrite get_app_other by reflexivity.
Qed.

Lemma sums_ok records :
  Forall (fun r => exists n, (0 <= n)%Z /\ cases_of r = Ok n) records ->
  forall acc k,
  exists total n,
    total_criminal records acc = Ok (acc + total)%Z /\
    with_cases records k = Ok (k + n) /\
    n <= length records /\ (Z.of_nat n <= total)%Z.
Proof.
  induction 1 as [|r rest [c [Hc E]] Hall IH]; intros acc k.
  - exists 0%Z, 0. cbn. rewrite Z.add_0_r, Nat.add_0_r.
    repeat split; lia.
  - cbn [total_criminal with_cases]. rewrite E. cbn [bind].
    destruct (IH (acc + c)%Z (if (0 <? c)%Z then S k else k))
      as [total [n [-> [-> [Hn Ht]]]]].
    destruct (0 <? c)%Z eqn:Ec.
    + apply Z.ltb_lt in Ec. exists (c + total)%Z, (S n). cbn [length].
      repeat split; [f_equal; lia | f_equal; lia | lia | lia].
    + exists (c + total)%Z, n. cbn [length].
      repeat split; [f_equal; lia | lia | lia].
Qed.

Lemma forall2_right (X Y : Type) (P : X -> Y -> Prop) (Q : Y -> Prop) xs ys :
  (forall x y, P x y -> Q y) -> Forall2 P xs ys -> Forall Q ys.
Proof.
  intros H. induction 1; constructor; eauto.
Qed.

Lemma groups_countable constituencies groups :
  Forall2 (fun con group =>
             exists candidates (wi : world),
               get_candidate_ids net anchor_parser (constituency_id con) wi
               = Ok (candidates,
                     snd (safe_get net (candidates_url (constituency_id con))
                                   3 wi)) /\
               Forall2 (tagged con) candidates group)
          constituencies groups ->
  Forall (fun r => exists n, (0 <= n)%Z /\ cases_of r = Ok n)
         (List.concat groups).
Proof.
  induction 1 as [|con g cs gs [cands [wi [_ Hg]]] Hall IH]; [constructor|].
  cbn [List.concat]. apply Forall_app. split; [|exact IH].
  revert Hg. apply forall2_right. intros c r. apply cases_of_tagged.
Qed.

(** The records of each scraper have counts that can be added. *)
Lemma scrape_single_countable cid w records w' :
  scrape_single net html_parser cid w = Ok (records, w') ->
  Forall (fun r => exists n, (0 <= n)%Z /\ cases_of r = Ok n) records.
Proof.
  unfold scrape_single, io_bind, io_ret.
  pose proof (parse_candidate_io_cases cid w) as P.
  destruct (parse_candidate_io net html_parser cid w) as [[r w1]|e];
    [|discriminate].
  intros H. injection H as <- <-. destruct P as [_ [Hs _]].
  constructor; [exact (cases_of_scraped Hs) | constructor].
Qed.

Lemma scrape_constituency_countable cid w records w' :
  scrape_constituency net html_parser anchor_parser DELAY_SEC cid w
  = Ok (records, w') ->
  Forall (fun r => exists n, (0 <= n)%Z /\ cases_of r = Ok n) records.
Proof.
  unfold scrape_constituency, io_bind.
  destruct (get_candidate_ids net anchor_parser cid w) as [[cands w1]|e];
    [|discriminate].
  pose proof (scrape_candidates_cases (fun record => record) cands [] w1) as C.
  destruct (scrape_candidates net html_parser DELAY_SEC
                              (fun record => record) cands [] w1)
    as [[res w2]|e]; [|discriminate].
  intros H. injection H as <- <-.
  destruct C as [new [-> [Hall _]]]. cbn [app]. rewrite map_id.
  revert Hall. apply forall2_right. intros c r. apply cases_of_scraped.
Qed.

Lemma scrape_constituencies_countable outer_pause cons w records w' :
  scrape_constituencies net html_parser anchor_parser DELAY_SEC outer_pause
                        cons [] w = Ok (records, w') ->
  Forall (fun r => exists n, (0 <= n)%Z /\ cases_of r = Ok n) records.
Proof.
  pose proof (scrape_constituencies_cases outer_pause cons [] w) as C.
  destruct (scrape_constituencies net html_parser anchor_parser DELAY_SEC
                                  outer_pause cons [] w)
    as [[res w2]|e]; [|discriminate].
  intros H. injection H as <- <-.
  destruct C as [groups [-> [Hall _]]]. cbn [app].
  exact (groups_countable Hall).
Qed.




End ScraperFacts.





(** X10. When the scraper that [main] chooses returns its records, the
    two sums of the quick summary of [save_results] can be taken over them:
    every record has a count of criminal cases that is a number (an error
    marker has none and enters as zero), so that neither sum raises
    [TypeError], and the number of candidates with criminal cases is at
    most the number of records and at most the total of criminal cases. *)
Theorem quick_summary_sums
  (net : world -> str -> option str) (html_parser : str -> list node)
  (anchor_parser : str -> list anchor) (a : args) (w : world)
  (records : list cand_record) (w' : world) :
  main_records net html_parser anchor_parser a w = Ok (records, w') ->
  exists total n,
    total_criminal records 0 = Ok total /\
    with_cases records 0 = Ok n /\
    n <= length records /\ (Z.of_nat n <= total)%Z.
Proof.
  intros H.
  assert (K : Forall (fun r => exists n, (0 <= n)%Z /\ cases_of r = Ok n)
                     records).
  { unfold main_records in H.
    destruct (group_count a =? 1)%nat; [|discriminate].
    destruct (given (arg_candidate_id a)) as [id|].
    { exact (scrape_single_countable _ _ _ _ H). }
    destruct (given (arg_constituency_id a)) as [id|].
    { exact (scrape_constituency_countable _ _ _ _ _ _ H). }
    destruct (given (arg_state_id a)) as [id|].
    - unfold scrape_state, io_bind in H.
      destruct (get_constituencies net anchor_parser id w) as [[cons w1]|e];
        [|discriminate].
      exact (scrape_constituencies_countable _ _ _ _ _ _ _ H).
    - unfold scrape_all, io_bind in H.
      destruct (get_all_constituencies net anchor_parser w) as [[cons w1]|e];
        [|discriminate].
      exact (scrape_constituencies_countable _ _ _ _ _ _ _ H). }
  destruct (sums_ok K 0%Z 0) as [total [n [Ht [Hn Hb]]]].
  exists total, n. split; [exact Ht|]. split; [exact Hn | exact Hb].
Qed.

Lemma quick_summary_sums_witness :
  exists records w' total n,
    main_records (fun _ _ => Some []) (fun _ => crime_page) (fun _ => [])
                 (mk_args (Some 7%Z) None None false [] [] Seconds) []
    = Ok (records, w') /\
    total_criminal records 0 = Ok total /\
    with_cases records 0 = Ok n /\
    n <= length records /\ (Z.of_nat n <= total)%Z.
Proof.
  destruct (main_records (fun _ _ => Some []) (fun _ => crime_page)
                         (fun _ => [])
                         (mk_args (Some 7%Z) None None false [] [] Seconds) [])
    as [[records w']|e] eqn:E; [|vm_compute in E; discriminate E].
  destruct (quick_summary_sums _ _ _ _ _ E) as [total [n H]].
  exists records, w', total, n. split; [reflexivity | exact H].
Defined.

(** X11. [parse_args] lets [main] go on only when exactly one option of
    the group is on the command line; otherwise the program leaves with
    status 2 and sends nothing.  [main] then tests its identifiers for
    truth, not for presence, so that an identifier of zero counts as not
    given: with [--candidate_id 0], [--constituency_id 0] or [--state_id 0]
    as the one option, as with [--all], the whole site is scraped, with the
    delay of the command line. *)
Theorem main_zero_id_scrapes_all
  (net : world -> str -> option str) (html_parser : str -> list node)
  (anchor_parser : str -> list anchor) (a : args) :
  (group_count a <> 1 ->
   forall w, main_records net html_parser anchor_parser a w = Raise SystemExit)
  /\
  (group_count a = 1 ->
   arg_candidate_id a = Some 0%Z \/ arg_constituency_id a = Some 0%Z \/
   arg_state_id a = Some 0%Z \/ arg_all a = true ->
   main_records net html_parser anchor_parser a
   = scrape_all net html_parser anchor_parser (arg_delay a)).
Proof.
  unfold main_records. split.
  - intros H w. apply Nat.eqb_neq in H. now rewrite H.
  - intros H Hz. rewrite H. cbn [Nat.eqb].
    destruct a as [c k s al csv js d].
    unfold group_count, present in H. cbn [arg_candidate_id arg_constituency_id
      arg_state_id arg_all arg_delay] in *.
    destruct c as [c|], k as [k|], s as [s|], al; try discriminate H;
      destruct Hz as [Hz | [Hz | [Hz | Hz]]]; try discriminate Hz;
      try (injection Hz as ->); reflexivity.
Qed.

Lemma main_zero_id_scrapes_all_witness :
  main_records (fun _ _ => None) (fun _ => []) (fun _ => [])
               (mk_args (Some 0%Z) None None false [] [] Seconds)
  = scrape_all (fun _ _ => None) (fun _ => []) (fun _ => []) Seconds.
Proof.
  apply (proj2 (main_zero_id_scrapes_all
                  (fun _ _ => None) (fun _ => []) (fun _ => [])
                  (mk_args (Some 0%Z) None None false [] [] Seconds))).
  - reflexivity.
  - left. reflexivity.
Defined.

(** ** The addresses the program builds, read by its own link scanner *)

Section UrlFacts.

Lemma u_cons a s : u (String a s) = N_of_ascii a :: u s.
Proof. reflexivity. Qed.

Lemma digits_acc d :
  forall acc,
    fold_left (fun acc c => (10 * acc + digit_value c)%N)
              (u (NilEmpty.string_of_uint d)) (N.pos acc)
    = N.pos (Pos.of_uint_acc d acc).
Proof.
  induction d; intros acc;
    cbn [NilEmpty.string_of_uint Pos.of_uint_acc];
    rewrite ?u_cons; cbn [fold_left]; [reflexivity|..];
    match goal with
    | |- context [digit_value ?c] =>
        let v := eval vm_compute in (digit_value c) in
        change (digit_value c) with v
    end;
    match goal with
    | |- fold_left _ _ ?x = N.pos (Pos.of_uint_acc _ ?y) =>
        replace x with (N.pos y) by lia
    end; apply IHd.
Qed.

Lemma digits_value d :
  int_of_digits (u (NilEmpty.string_of_uint d)) = Pos.of_uint d.
Proof.
  unfold int_of_digits.
  induction d; cbn [NilEmpty.string_of_uint Pos.of_uint];
    rewrite ?u_cons; cbn [fold_left]; [reflexivity | exact IHd |..];
    match goal with
    | |- context [digit_value ?c] =>
        let v := eval vm_compute in (digit_value c) in
        change (digit_value c) with v
    end; cbn [N.mul N.add]; apply digits_acc.
Qed.

Lemma digits_all d :
  forallb (fun c => isdigit c && negb (99 =? c)%N)
          (u (NilEmpty.string_of_uint d)) = true.
Proof.
  induction d; cbn [NilEmpty.string_of_uint]; rewrite ?u_cons;
    cbn [forallb]; [reflexivity|..]; rewrite IHd; reflexivity.
Qed.

Lemma str_of_Z_nonneg z :
  (0 <= z)%Z ->
  exists d, str_of_Z z = u (NilEmpty.string_of_uint d) /\
            truthy (u (NilEmpty.string_of_uint d)) = true /\
            Z.of_N (Pos.of_uint d) = z.
Proof.
  intros H. destruct z as [|p|p]; [| |lia].
  - exists (Decimal.D0 Decimal.Nil). now repeat split.
  - exists (Pos.to_uint p). split; [reflexivity|]. split.
    + pose proof (DecimalPos.Unsigned.to_uint_nonnil p) as Hn.
      destruct (Pos.to_uint p); [congruence|..]; reflexivity.
    + now rewrite DecimalPos.Unsigned.of_to.
Qed.

Lemma str_of_Z_neg z :
  (z < 0)%Z ->
  exists d, str_of_Z z = 45%N :: u (NilEmpty.string_of_uint d).
Proof.
  intros H. destruct z as [|p|p]; [lia | lia |].
  now exists (Pos.to_uint p).
Qed.

Variable n : nat.

Lemma lit_match (A : Type) w :
  forall s cap (k : str -> option str -> option A),
    m false n (lit w) s cap k
    = if startswith (u w) s then k (skipn (length (u w)) s) cap else None.
Proof.
  unfold lit, u. generalize (list_ascii_of_string w) as l.
  induction l as [|a l IH]; intros s cap k; [reflexivity|].
  cbn [fold_right map m startswith length skipn].
  destruct s as [|c s]; [reflexivity|].
  unfold char_in. cbn [existsb item_match]. rewrite orb_false_r.
  rewrite (N.eqb_sym (N_of_ascii a) c).
  destruct (c =? N_of_ascii a)%N; [apply IH | reflexivity].
Qed.

Lemma star_all (A : Type) cs s (k : str -> option A) x :
  forallb (char_in false cs) s = true -> k [] = Some x ->
  star false cs s k = Some x.
Proof.
  intros H Hk. induction s as [|c s IH]; [exact Hk|].
  cbn [forallb] in H. apply andb_prop in H as [Hc Hs].
  cbn [star]. now rewrite Hc, (IH Hs).
Qed.

Variable w : string.
Let r := Seq (lit w) (Group (Plus [SDigit])).

Lemma match_at_link s :
  match_at false n r s
  = if startswith (u w) s
    then m false n (Group (Plus [SDigit])) (skipn (length (u w)) s) None
           (fun s' cap => Some (length s - length s', cap))
    else None.
Proof. unfold match_at, r. cbn [m]. apply lit_match. Qed.

Lemma search_skip pre :
  forall s,
    (forall i, i < length pre ->
               startswith (u w) (skipn i pre ++ s) = false) ->
    search_from false n r (pre ++ s) = search_from false n r s.
Proof.
  induction pre as [|c pre IH]; intros s H; [reflexivity|].
  change ((c :: pre) ++ s) with (c :: pre ++ s). cbn [search_from].
  rewrite match_at_link.
  rewrite (H 0 ltac:(cbn; lia) : startswith (u w) (c :: pre ++ s) = false).
  apply IH. intros i Hi. apply (H (S i)). cbn [length]. lia.
Qed.

Lemma search_none c0 rest s :
  u w = c0 :: rest ->
  forallb (fun c => negb (c0 =? c)%N) s = true ->
  search_from false n r s = None.
Proof.
  intros Hw. induction s as [|c s IH]; intros H.
  - cbn [search_from]. rewrite match_at_link, Hw. reflexivity.
  - cbn [forallb] in H. apply andb_prop in H as [Hc Hs].
    cbn [search_from]. rewrite match_at_link, Hw. cbn [startswith].
    destruct (c0 =? c)%N; [discriminate|]. cbn [andb]. now apply IH.
Qed.

Lemma match_digits_end len d :
  truthy (u (NilEmpty.string_of_uint d)) = true ->
  m false n (Group (Plus [SDigit])) (u (NilEmpty.string_of_uint d)) None
    (fun s' cap => Some (len - length s', cap))
  = Some (len, Some (u (NilEmpty.string_of_uint d))).
Proof.
  pose proof (digits_all d) as Hd.
  destruct (u (NilEmpty.string_of_uint d)) as [|c s]; [discriminate|].
  intros _. cbn [forallb] in Hd. apply andb_prop in Hd as [Hc Hs].
  apply andb_prop in Hc as [Hc _].
  cbn [m]. rewrite char_in_digit_exact, Hc.
  apply star_all.
  - revert Hs. apply forallb_weaken. intros a Ha.
    apply andb_prop in Ha as [Ha _]. now rewrite char_in_digit_exact.
  - cbn [length]. rewrite !Nat.sub_0_r. cbn [firstn].
    now rewrite firstn_all.
Qed.

Lemma startswith_self p s : startswith p (p ++ s) = true.
Proof.
  induction p as [|a p IH]; [reflexivity|].
  cbn [app startswith]. now rewrite N.eqb_refl.
Qed.

Lemma skipn_self (p s : str) : skipn (length p) (p ++ s) = s.
Proof. induction p as [|a p IH]; [reflexivity | exact IH]. Qed.

Lemma startswith_app p a b :
  startswith p a = true -> startswith p (a ++ b) = true.
Proof.
  revert a. induction p as [|x p IH]; intros a H; [reflexivity|].
  destruct a as [|y a]; [discriminate|]. cbn [app startswith] in *.
  apply andb_prop in H as [H1 H2]. now rewrite H1, IH.
Qed.

Lemma contains_app p a b : contains p a = true -> contains p (a ++ b) = true.
Proof.
  induction a as [|y a IH]; intros H.
  - cbn [contains] in H. rewrite orb_false_r in H.
    destruct p; [|discriminate]. now destruct b.
  - cbn [contains] in H. change ((y :: a) ++ b) with (y :: a ++ b).
    cbn [contains]. apply orb_prop in H as [H|H].
    + change (y :: a ++ b) with ((y :: a) ++ b).
      now rewrite (startswith_app _ _ b H).
    + rewrite (IH H). apply orb_true_r.
Qed.

Lemma search_from_head s x :
  match_at false n r s = Some x -> search_from false n r s = Some x.
Proof. intros H. destruct s; cbn [search_from]; now rewrite H. Qed.

Lemma search_from_tail c s :
  match_at false n r (c :: s) = None ->
  search_from false n r (c :: s) = search_from false n r s.
Proof. intros H. cbn [search_from]. now rewrite H. Qed.

(** The pattern occurs first right before the digits of a number that is
    not negative, and captures them all. *)
Lemma search_number pre d :
  (forall i s, i < length pre ->
               startswith (u w) (skipn i pre ++ u w ++ s) = false) ->
  truthy (u (NilEmpty.string_of_uint d)) = true ->
  exists len,
    search_from false n r (pre ++ u w ++ u (NilEmpty.string_of_uint d))
    = Some (len, Some (u (NilEmpty.string_of_uint d))).
Proof.
  intros Hpre Ht. rewrite search_skip by (intros i Hi; now apply Hpre).
  eexists. apply search_from_head. rewrite match_at_link.
  rewrite startswith_self, skipn_self. now apply match_digits_end.
Qed.

(** It does not occur at all when a minus sign follows the word, the
    word offering no second start. *)
Lemma search_negative pre c0 rest d :
  (forall i s, i < length pre ->
               startswith (u w) (skipn i pre ++ u w ++ s) = false) ->
  u w = c0 :: rest -> c0 = 99%N ->
  (forall i s, i < length (rest ++ [45%N]) ->
               startswith (u w) (skipn i (rest ++ [45%N]) ++ s) = false) ->
  search_from false n r
              (pre ++ u w ++ 45%N :: u (NilEmpty.string_of_uint d))
  = None.
Proof.
  intros Hpre Hw Hc Hrest.
  rewrite search_skip by (intros i Hi; now apply Hpre).
  assert (E : u w ++ 45%N :: u (NilEmpty.string_of_uint d)
              = c0 :: (rest ++ [45%N]) ++ u (NilEmpty.string_of_uint d)).
  { rewrite Hw, <- app_assoc. reflexivity. }
  rewrite E, search_from_tail.
  - rewrite search_skip by (intros i Hi; now apply Hrest).
    apply (@search_none c0 rest); [exact Hw|]. subst c0.
    generalize (digits_all d). apply forallb_weaken.
    intros a Ha. now apply andb_prop in Ha as [_ Ha].
  - rewrite <- E, match_at_link, startswith_self, skipn_self. reflexivity.
Qed.

End UrlFacts.

(** Closes [i < k -> startswith p (skipn i pre ++ s) = false] for a prefix
    and a word that are given, position by position. *)
Ltac no_earlier_start :=
  let i := fresh "i" in
  let s := fresh "s" in
  let Hi := fresh "Hi" in
  intros i s Hi;
  repeat (destruct i as [|i]; [reflexivity|]);
  exfalso; cbn in Hi; lia.

Lemma candidate_url_digits z :
  link_digits re_candidate_id "candidate.php" (candidate_url z)
  = if (0 <=? z)%Z then Some (str_of_Z z) else None.
Proof.
  unfold link_digits, re_search, re_candidate_id.
  generalize (length (candidate_url z)) as n. intros n.
  assert (Hu : candidate_url z
               = (BASE_URL ++ u "/candidate.php?") ++ u "candidate_id="
                 ++ str_of_Z z) by reflexivity.
  rewrite Hu. clear Hu.
  assert (Hpre : forall i s, i < length (BASE_URL ++ u "/candidate.php?") ->
                   startswith (u "candidate_id=")
                     (skipn i (BASE_URL ++ u "/candidate.php?")
                        ++ u "candidate_id=" ++ s) = false)
    by no_earlier_start.
  destruct (Z.leb_spec 0 z) as [Hz|Hz].
  - destruct (str_of_Z_nonneg Hz) as [d [-> [Ht Hv]]].
    destruct (search_number n "candidate_id=" _ d Hpre Ht) as [len ->].
    now rewrite contains_app by reflexivity.
  - destruct (str_of_Z_neg Hz) as [d ->].
    rewrite (@search_negative n "candidate_id=" _ 99%N (u "andidate_id=") d
               Hpre eq_refl eq_refl); [reflexivity|].
    no_earlier_start.
Qed.

Lemma candidates_url_digits z :
  link_digits re_constituency_id "show_candidates" (candidates_url z)
  = if (0 <=? z)%Z then Some (str_of_Z z) else None.
Proof.
  unfold link_digits, re_search, re_constituency_id.
  generalize (length (candidates_url z)) as n. intros n.
  assert (Hu : candidates_url z
               = (BASE_URL ++ u "/index.php?action=show_candidates&")
                   ++ u "constituency_id=" ++ str_of_Z z) by reflexivity.
  rewrite Hu. clear Hu.
  assert (Hpre : forall i s,
             i < length (BASE_URL ++ u "/index.php?action=show_candidates&") ->
             startswith (u "constituency_id=")
               (skipn i (BASE_URL ++ u "/index.php?action=show_candidates&")
                  ++ u "constituency_id=" ++ s) = false)
    by no_earlier_start.
  destruct (Z.leb_spec 0 z) as [Hz|Hz].
  - destruct (str_of_Z_nonneg Hz) as [d [-> [Ht Hv]]].
    destruct (search_number n "constituency_id=" _ d Hpre Ht) as [len ->].
    now rewrite contains_app by reflexivity.
  - destruct (str_of_Z_neg Hz) as [d ->].
    rewrite (@search_negative n "constituency_id=" _ 99%N
               (u "onstituency_id=") d Hpre eq_refl eq_refl); [reflexivity|].
    no_earlier_start.
Qed.

(** The digits [str] writes for a number are read back as the number. *)
Lemma str_of_Z_value z :
  (0 <= z)%Z -> Z.of_N (int_of_digits (str_of_Z z)) = z.
Proof.
  intros Hz. destruct (str_of_Z_nonneg Hz) as [d [-> [_ Hv]]].
  now rewrite digits_value.
Qed.

(** The identifier of a built address, by its digits. *)
Lemma built_link (prefix : regex) (word : string) (url : str) (z : Z) :
  group_free prefix = true ->
  link_digits (Seq prefix (Group (Plus [SDigit]))) word url
  = (if (0 <=? z)%Z then Some (str_of_Z z) else None) ->
  link_id (Seq prefix (Group (Plus [SDigit]))) word url
  = if (z <? 0)%Z then Ok None
    else if (length (str_of_Z z) <=? max_str_digits)%nat then Ok (Some z)
         else Raise ValueError.
Proof.
  intros G H. rewrite link_id_ok by exact G.
  unfold link_refused, link_number. rewrite H.
  destruct (Z.leb_spec 0 z) as [Hz|Hz].
  - replace (z <? 0)%Z with false by (symmetry; now apply Z.ltb_ge).
    cbn [option_map]. rewrite (str_of_Z_value Hz).
    destruct (Nat.leb_spec (length (str_of_Z z)) max_str_digits) as [Hl|Hl].
    + apply Nat.ltb_ge in Hl. now rewrite Hl.
    + apply Nat.ltb_lt in Hl. now rewrite Hl.
  - replace (z <? 0)%Z with true by (symmetry; now apply Z.ltb_lt).
    reflexivity.
Qed.

(** X12. The addresses the program builds are links its own scanners
    read back: the scanner of [get_candidate_ids] reads the address that
    [parse_candidate] builds for the candidate [z] as the identifier [z],
    and the scanner of [get_constituencies] and [get_all_constituencies]
    reads the address that [get_candidate_ids] builds for the constituency
    [z] as the identifier [z], whenever [z] is not negative and has no more
    digits than [int()] converts (4300, which every identifier the program
    can hold respects).  The address of a negative number is no link at
    all: the pattern wants a digit right after the equals sign and finds the
    minus sign.  Digits beyond the limit are refused with [ValueError]. *)
Theorem built_urls_read_back (z : Z) :
  link_id re_candidate_id "candidate.php" (candidate_url z)
  = (if (z <? 0)%Z then Ok None
     else if (length (str_of_Z z) <=? max_str_digits)%nat then Ok (Some z)
          else Raise ValueError) /\
  link_id re_constituency_id "show_candidates" (candidates_url z)
  = (if (z <? 0)%Z then Ok None
     else if (length (str_of_Z z) <=? max_str_digits)%nat then Ok (Some z)
          else Raise ValueError).
Proof.
  unfold re_candidate_id, re_constituency_id. split.
  - apply built_link; [reflexivity | exact (candidate_url_digits z)].
  - apply built_link; [reflexivity | exact (candidates_url_digits z)].
Qed.

(** ** Inside [parse_candidate]: the parts the properties above do not reach *)

Section SectionTokens.
Variable cs : cclass.

(** A character left between two matches of [x+] is not an [x]. *)
Lemma scan_plus_chars n s :
  forall skip,
    Forall (fun p => match p with
                     | PChar c => char_in false cs c = false
                     | PMatch _ _ => True
                     end)
           (scan false n (Plus cs) s skip).
Proof.
  induction s as [|c s IH]; intros skip.
  - destruct skip; cbn; constructor.
  - destruct skip as [|k]; [|cbn [scan]; apply IH].
    cbn [scan]. unfold match_at. cbn [m].
    destruct (char_in false cs c) eqn:Ec.
    + destruct (star false cs s
                     (fun s'' => Some (length (c :: s) - length s'', @None str)))
        as [[len cap]|] eqn:E.
      * constructor; [exact I|].
        apply star_inv in E as [j [Hj [E _]]].
        assert (Hlen : len = S j).
        { injection E as <- _. rewrite length_skipn.
          destruct (length s - j) eqn:Ed; lia. }
        subst len. cbn [Nat.eqb app]. apply IH.
      * rewrite star_total in E by discriminate. discriminate.
    + constructor; [exact Ec | apply IH].
Qed.

Lemma split_pieces_chars ps :
  Forall (fun p => match p with
                   | PChar c => char_in false cs c = false
                   | PMatch _ _ => True
                   end) ps ->
  Forall (fun tok => forallb (fun c => negb (char_in false cs c)) tok = true)
         (split_pieces ps).
Proof.
  induction 1 as [|p ps Hp Hps IH]; [repeat constructor|].
  destruct p as [c|whole cap]; cbn [split_pieces].
  - destruct (split_pieces ps) as [|h t].
    + repeat constructor. cbn [forallb]. now rewrite Hp.
    + inversion IH as [|? ? Hh Ht]; subst. constructor; [|exact Ht].
      cbn [forallb]. now rewrite Hp, Hh.
  - constructor; [reflexivity | exact IH].
Qed.

Lemma re_split_chars s :
  Forall (fun tok => forallb (fun c => negb (char_in false cs c)) tok = true)
         (re_split false (Plus cs) s).
Proof. apply split_pieces_chars. unfold pieces. apply scan_plus_chars. Qed.

End SectionTokens.

Lemma section_sep_char c :
  char_in false [SChar 44; SSpace; SChar 47] c
  = ((c =? 44)%N || isspace c || (c =? 47)%N).
Proof.
  unfold char_in. cbn [existsb item_match].
  now rewrite orb_false_r, orb_assoc.
Qed.

Lemma section_tokens_of text :
  Forall (fun tok =>
            truthy tok = true /\
            forallb (fun c => negb ((c =? 44)%N || isspace c || (c =? 47)%N))
                    tok = true)
         (flat_map (fun m => filter truthy (re_split false re_section_sep m))
                   (re_findall true re_ipc text)).
Proof.
  apply Forall_flat_map. apply Forall_forall. intros m0 _.
  apply Forall_forall. intros tok Hin. apply filter_In in Hin as [Hin Ht].
  split; [exact Ht|].
  pose proof (re_split_chars [SChar 44; SSpace; SChar 47] m0) as H.
  rewrite Forall_forall in H. specialize (H tok Hin).
  rewrite <- H. apply forallb_pointwise. intros a.
  now rewrite section_sep_char.
Qed.

(** X13. Every section token recorded for a criminal case is a proper
    token: it is not empty, and it holds no comma, no slash and no blank,
    whatever the rows of the table are. *)
Theorem section_tokens_proper (rows : list (list str)) :
  Forall (fun c =>
            Forall (fun tok =>
                      truthy tok = true /\
                      forallb (fun ch => negb ((ch =? 44)%N || isspace ch
                                               || (ch =? 47)%N)) tok = true)
                   (ipc_sections c))
         (crime_rows rows).
Proof.
  set (P := fun c : case =>
              Forall (fun tok =>
                        truthy tok = true /\
                        forallb (fun ch => negb ((ch =? 44)%N || isspace ch
                                                 || (ch =? 47)%N)) tok = true)
                     (ipc_sections c)).
  assert (Hclose : forall st,
             (forall c, fst st = Some c -> P c) -> Forall P (snd st) ->
             Forall P (close_case st)).
  { intros [[c|] done] Ho Hd; unfold close_case; cbn [fst snd] in *;
      [|exact Hd]. apply Forall_app. split; [exact Hd|].
    constructor; [now apply Ho | constructor]. }
  assert (Hstep : forall cells st,
             (forall c, fst st = Some c -> P c) -> Forall P (snd st) ->
             (forall c, fst (crime_step st cells) = Some c -> P c) /\
             Forall P (snd (crime_step st cells))).
  { intros cells st Ho Hd. unfold crime_step.
    destruct (negb (any cells)); [now split|].
    destruct (matches (re_search true re_case_header (join (u " | ") cells))).
    - cbn [fst snd]. split; [|now apply Hclose].
      intros c E. injection E as <-. constructor.
    - destruct (fst st) as [current|] eqn:Ec; [|rewrite Ec; now split].
      cbn [fst snd]. split; [|exact Hd].
      intros c E. injection E as <-. unfold P. cbn [ipc_sections].
      apply Forall_app. split; [now apply Ho | apply section_tokens_of]. }
  unfold crime_rows.
  assert (Hfold : forall st,
             (forall c, fst st = Some c -> P c) -> Forall P (snd st) ->
             Forall P (close_case (fold_left crime_step rows st))).
  { induction rows as [|cells rest IH]; intros st Ho Hd; cbn [fold_left].
    - now apply Hclose.
    - destruct (Hstep cells st Ho Hd) as [Ho' Hd']. now apply IH. }
  apply Hfold; [discriminate | constructor].
Qed.

Section LabelFacts.

Lemma replace1_absent old new s :
  contains old s = false -> replace1 old new s = s.
Proof.
  induction s as [|c s IH]; intros H; cbn [contains] in H;
    apply orb_false_elim in H as [H1 H2]; cbn [replace1]; rewrite H1.
  - reflexivity.
  - now rewrite IH.
Qed.

Lemma replace1_head old new s :
  startswith old s = true -> replace1 old new s = new ++ skipn (length old) s.
Proof. intros H. destruct s; cbn [replace1]; now rewrite H. Qed.

Lemma split_on_cons sep s : exists p0 rest, split_on sep s = p0 :: rest.
Proof.
  induction s as [|c s [p0 [rest IH]]]; cbn [split_on]; [now eexists; eexists|].
  destruct (c =? sep)%N; [now eexists; eexists|].
  rewrite IH. now eexists; eexists.
Qed.

End LabelFacts.

(** X14. The value of a bold label is what is left of the normalised text
    of its parent once the raw text of the label is taken out, and the two
    need not fit: for a label read as [Party], when the raw text of the bold
    tag opens the normalised text of the parent the party is the rest of
    that text, normalised; and when the raw text does not occur in it at all
    (it has a blank that normalising removed) nothing is taken out and the
    party is the whole text of the parent, label included. *)
Theorem party_value (record : cand_record) (b_tag : entry) :
  is_label (rstrip_chars (u ":") (clean (get_text (e_node b_tag)))) ["Party"]
  = true ->
  (startswith (get_text (e_node b_tag)) (clean (get_text (e_parent b_tag)))
   = true ->
   get "party" (label_step record b_tag)
   = Some (PStr (clean (skipn (length (get_text (e_node b_tag)))
                              (clean (get_text (e_parent b_tag))))))) /\
  (contains (get_text (e_node b_tag)) (clean (get_text (e_parent b_tag)))
   = false ->
   get "party" (label_step record b_tag)
   = Some (PStr (clean (get_text (e_parent b_tag))))).
Proof.
  intros Hl. unfold label_step. rewrite Hl. rewrite get_set_record.
  cbn [String.eqb Ascii.eqb Bool.eqb]. split; intros H.
  - now rewrite replace1_head.
  - now rewrite replace1_absent, clean_idempotent.
Qed.

Lemma party_value_witness :
  get "party"
      (label_step [] (mk_entry (Elem (u "b") [Text (u " Party:")])
                               (Elem (u "p") [Elem (u "b") [Text (u " Party:")];
                                              Text (u "BJP")])
                               [Text (u "BJP")]))
  = Some (PStr (u "Party:BJP")).
Proof.
  refine (proj2 (party_value []
                   (mk_entry (Elem (u "b") [Text (u " Party:")])
                             (Elem (u "p") [Elem (u "b") [Text (u " Party:")];
                                            Text (u "BJP")])
                             [Text (u "BJP")]) _) _);
    vm_compute; reflexivity.
Defined.

(** X15. A page with an [h5] always gets a constituency from it: the
    text of the [h5], its pieces joined by a bar, splits at the bars into at
    least one part, and the first part, normalised, is the constituency.
    The state is written only when there is a second part, from that part
    without its surrounding brackets; otherwise it stays as it was. *)
Theorem h5_sets_constituency
  (es : list entry) (record : cand_record) (h5 : entry)
  (following : list entry) :
  find_entry (name_in [u "h5"]) es = Some (h5, following) ->
  exists p0 rest,
    split_on 124 (get_text_sep (u "|") (e_node h5)) = p0 :: rest /\
    get "constituency" (name_part es record) = Some (PStr (clean p0)) /\
    get "state" (name_part es record)
    = match rest with
      | p1 :: _ => Some (PStr (clean (strip_chars (u "()") p1)))
      | [] => get "state" record
      end.
Proof.
  intros H. unfold name_part. rewrite H.
  destruct (split_on_cons 124 (get_text_sep (u "|") (e_node h5)))
    as [p0 [rest ->]].
  exists p0, rest. split; [reflexivity|].
  assert (Hs : forall r0,
             r0 = match find_entry (name_in [u "h2"]) es with
                  | Some (h2, _) =>
                      set "name" (PStr (clean (get_text (e_node h2)))) record
                  | None => record
                  end ->
             get "state" r0 = get "state" record).
  { intros r0 ->. destruct (find_entry (name_in [u "h2"]) es) as [[h2 ?]|];
      [|reflexivity]. now rewrite get_set_record. }
  destruct rest as [|p1 rest].
  - rewrite !get_set_record. cbn [String.eqb Ascii.eqb Bool.eqb].
    split; [reflexivity|]. now apply Hs.
  - rewrite !get_set_record. cbn [String.eqb Ascii.eqb Bool.eqb].
    now split.
Qed.

Lemma h5_sets_constituency_witness :
  exists p0 rest,
    split_on 124
      (get_text_sep (u "|")
         (e_node (mk_entry (Elem (u "h5") [Text (u "KADAPA"); Text (u "(AP)")])
                           (document []) [])))
    = p0 :: rest /\
    get "constituency"
        (name_part [mk_entry (Elem (u "h5") [Text (u "KADAPA"); Text (u "(AP)")])
                             (document []) []]
                   (initial_record 1 []))
    = Some (PStr (clean p0)) /\
    get "state"
        (name_part [mk_entry (Elem (u "h5") [Text (u "KADAPA"); Text (u "(AP)")])
                             (document []) []]
                   (initial_record 1 []))
    = match rest with
      | p1 :: _ => Some (PStr (clean (strip_chars (u "()") p1)))
      | [] => get "state" (initial_record 1 [])
      end.
Proof.
  apply (h5_sets_constituency
           [mk_entry (Elem (u "h5") [Text (u "KADAPA"); Text (u "(AP)")])
                     (document []) []]
           (initial_record 1 [])
           (h5 := mk_entry (Elem (u "h5") [Text (u "KADAPA"); Text (u "(AP)")])
                           (document []) [])
           (following := [])).
  reflexivity.
Defined.
